(** * GoAIAgent: the orchestration loop, the dispatcher and the tool handlers

    A shallow embedding of [main.go].  Go strings are byte strings, so they are
    Rocq [string]s (lists of 8-bit characters).  Every function that touches the
    terminal or the file system is a state transformer over [World]; a Go value
    of type [(string, error)] is a pair [string * option error]; a [panic] is an
    outcome of its own, because nothing in the program recovers from one. *)

From Stdlib Require Import Strings.String Strings.Ascii Lists.List Bool.Bool.
From Stdlib Require Import Arith.Arith NArith.NArith Lia.
Import ListNotations.
Open Scope list_scope.
Open Scope string_scope.

Set Implicit Arguments.
Set Warnings "-register-all".

(** ** Characters that cannot be written inside a literal *)

Definition dquote : string := String (ascii_of_nat 34) "".
Definition ESC : string := String (ascii_of_nat 27) "".
Definition LF : string := String (ascii_of_nat 10) "".

(** ** Package [unicode/utf8] *)

Module utf8.

Definition between (lo hi : nat) (c : ascii) : bool :=
  Nat.leb lo (nat_of_ascii c) && Nat.leb (nat_of_ascii c) hi.

(** The accepted range of the second byte after lead byte [x]. *)
Definition second_ok (x c1 : ascii) : bool :=
  match nat_of_ascii x with
  | 224 => between 160 191 c1      (* E0 *)
  | 237 => between 128 159 c1      (* ED *)
  | 240 => between 144 191 c1      (* F0 *)
  | 244 => between 128 143 c1      (* F4 *)
  | _ => between 128 191 c1
  end.

(** [utf8.DecodeRuneInString(s)]: whether [s] starts with a well-formed
    encoding, and the width consumed (1 for an ill-formed byte, 0 at the end). *)
Definition DecodeRuneInString (s : string) : bool * nat :=
  match s with
  | EmptyString => (false, 0)
  | String x rest =>
      if Nat.ltb (nat_of_ascii x) 128 then (true, 1)
      else if between 194 223 x then
        match rest with
        | String c1 _ => if between 128 191 c1 then (true, 2) else (false, 1)
        | _ => (false, 1)
        end
      else if between 224 239 x then
        match rest with
        | String c1 (String c2 _) =>
            if second_ok x c1 && between 128 191 c2 then (true, 3) else (false, 1)
        | _ => (false, 1)
        end
      else if between 240 244 x then
        match rest with
        | String c1 (String c2 (String c3 _)) =>
            if second_ok x c1 && between 128 191 c2 && between 128 191 c3
            then (true, 4) else (false, 1)
        | _ => (false, 1)
        end
      else (false, 1)
  end.

Definition byte (n : N) : ascii := ascii_of_N n.

Definition code (c : ascii) : N := N_of_ascii c.

Definition RuneError : N := 65533.

(** [utf8.EncodeRune]: the bytes of code point [r]. *)
Definition EncodeRune (r : N) : string :=
  let enc3 (r : N) :=
    String (byte (224 + r / 4096))
      (String (byte (128 + (r / 64) mod 64)) (String (byte (128 + r mod 64)) "")) in
  if (r <? 128)%N then String (byte r) ""
  else if (r <? 2048)%N then
    String (byte (192 + r / 64)) (String (byte (128 + r mod 64)) "")
  else if ((55296 <=? r) && (r <=? 57343))%N then enc3 RuneError
  else if (r <? 65536)%N then enc3 r
  else if (r <=? 1114111)%N then
    String (byte (240 + r / 262144))
      (String (byte (128 + (r / 4096) mod 64))
         (String (byte (128 + (r / 64) mod 64)) (String (byte (128 + r mod 64)) "")))
  else enc3 RuneError.

(** [utf8.DecodeRune(p)]: the code point at the front of [p] and its width;
    [RuneError] with width 1 for an ill-formed byte, with width 0 for no
    byte. *)
Definition DecodeRune (p : string) : N * nat :=
  match DecodeRuneInString p, p with
  | (true, 1), String x _ => (code x, 1)
  | (true, 2), String x (String c1 _) =>
      (((code x - 192) * 64 + (code c1 - 128))%N, 2)
  | (true, 3), String x (String c1 (String c2 _)) =>
      (((code x - 224) * 4096 + (code c1 - 128) * 64 + (code c2 - 128))%N, 3)
  | (true, 4), String x (String c1 (String c2 (String c3 _))) =>
      (((code x - 240) * 262144 + (code c1 - 128) * 4096 + (code c2 - 128) * 64
        + (code c3 - 128))%N, 4)
  | (_, n), _ => (RuneError, n)
  end.

(** The width that a first byte announces: 1 for ASCII and for a byte that
    cannot start an encoding. *)
Definition need (x : ascii) : nat :=
  if between 194 223 x then 2
  else if between 224 239 x then 3
  else if between 240 244 x then 4
  else 1.

(** [utf8.FullRune(p)]: [p] starts with a whole encoding, or with bytes that
    no further byte can turn into one. *)
Definition FullRune (p : string) : bool :=
  match p with
  | EmptyString => false
  | String x rest =>
      if Nat.leb (need x) (String.length p) then true
      else match rest with
           | String c1 rest' =>
               if negb (second_ok x c1) then true
               else match rest' with
                    | String c2 _ => negb (between 128 191 c2)
                    | EmptyString => false
                    end
           | EmptyString => false
           end
  end.

End utf8.

(** ** Package [strings] *)

Module strings.

(** [strings.Contains(s, substr)]. *)
Fixpoint Contains (s substr : string) : bool :=
  if prefix substr s then true
  else match s with
       | EmptyString => false
       | String _ s' => Contains s' substr
       end.

Definition is_upper (c : ascii) : bool :=
  Nat.leb 65 (nat_of_ascii c) && Nat.leb (nat_of_ascii c) 90.

Definition lower_byte (c : ascii) : ascii :=
  if is_upper c then ascii_of_nat (nat_of_ascii c + 32) else c.

(** [strings.ToLower(s)] on the bytes of [s]: the letters A-Z are mapped,
    every other byte is kept.  This is what Go does to a string of ASCII
    bytes; Go also maps the upper-case letters outside ASCII, and an ASCII
    byte is lowered the same way whatever surrounds it. *)
Fixpoint ToLower (s : string) : string :=
  match s with
  | EmptyString => EmptyString
  | String c s' => String (lower_byte c) (ToLower s')
  end.

(** Left-to-right replacement of the occurrences of a non-empty [old] that do
    not overlap.  [skip] counts the bytes of the occurrence just replaced
    that are still to be dropped. *)
Fixpoint replace_from (old new s : string) (skip : nat) : string :=
  match s with
  | EmptyString => EmptyString
  | String c s' =>
      match skip with
      | S k => replace_from old new s' k
      | O => if prefix old s
             then new ++ replace_from old new s' (String.length old - 1)
             else String c (replace_from old new s' 0)
      end
  end.

(** With an empty [old], [new] goes in front of every rune (and, in
    [ReplaceAll], once more at the end). *)
Fixpoint insert_before_runes (new s : string) (skip : nat) : string :=
  match s with
  | EmptyString => EmptyString
  | String c s' =>
      match skip with
      | S k => String c (insert_before_runes new s' k)
      | O => new ++ String c (insert_before_runes new s' (snd (utf8.DecodeRuneInString s) - 1))
      end
  end.

(** [strings.Replace(s, old, new, -1)], which is [strings.ReplaceAll]. *)
Definition ReplaceAll (s old new : string) : string :=
  if old =? new then s
  else if old =? "" then insert_before_runes new s 0 ++ new
  else replace_from old new s 0.

(** [s[n:]] (all of it gone when [n] is past the end). *)
Fixpoint drop (n : nat) (s : string) : string :=
  match n, s with
  | S n', String _ s' => drop n' s'
  | _, _ => s
  end.

Definition isSpace (c : ascii) : bool :=
  match nat_of_ascii c with
  | 9 | 10 | 11 | 12 | 13 | 32 => true
  | _ => false
  end.

Fixpoint TrimLeft (s : string) : string :=
  match s with
  | EmptyString => EmptyString
  | String c s' => if isSpace c then TrimLeft s' else s
  end.

Fixpoint TrimRight (s : string) : string :=
  match s with
  | EmptyString => EmptyString
  | String c s' =>
      match TrimRight s' with
      | EmptyString => if isSpace c then EmptyString else String c EmptyString
      | t => String c t
      end
  end.

(** [strings.TrimSpace(s)] for the ASCII white space. *)
Definition TrimSpace (s : string) : string := TrimRight (TrimLeft s).

(** [strings.Join(elems, sep)]. *)
Definition Join (elems : list string) (sep : string) : string := String.concat sep elems.

(** [strings.Split(s, sep)] for a one-byte separator. *)
Fixpoint SplitByte (s : string) (sep : ascii) : list string :=
  match s with
  | EmptyString => [EmptyString]
  | String c s' =>
      if Ascii.eqb c sep then EmptyString :: SplitByte s' sep
      else match SplitByte s' sep with
           | x :: xs => String c x :: xs
           | [] => [String c EmptyString]
           end
  end.

End strings.

(** ** Go [error] values *)

Inductive Errno :=
| ENOENT | ENOTDIR | EISDIR | EEXIST | ENAMETOOLONG
| EACCES | EROFS | ENOSPC | EIO | EMFILE.

Definition strerror (e : Errno) : string :=
  match e with
  | ENOENT => "no such file or directory"
  | ENOTDIR => "not a directory"
  | EISDIR => "is a directory"
  | EEXIST => "file exists"
  | ENAMETOOLONG => "file name too long"
  | EACCES => "permission denied"
  | EROFS => "read-only file system"
  | ENOSPC => "no space left on device"
  | EIO => "input/output error"
  | EMFILE => "too many open files"
  end.

Inductive error :=
| errorString (s : string)                    (* fmt.Errorf without a wrapped error *)
| wrapError (msg : string) (err : error)      (* fmt.Errorf("msg: %w", err) *)
| PathError (Op Path : string) (Err : Errno)  (* *fs.PathError *)
| SyntaxError (msg : string)                  (* *json.SyntaxError *)
| UnmarshalTypeError (Value Target : string)  (* *json.UnmarshalTypeError *)
| ExitError (msg : string).                   (* *exec.ExitError and friends *)

(** [err.Error()]. *)
Fixpoint Error (e : error) : string :=
  match e with
  | errorString s => s
  | wrapError msg err => msg ++ Error err
  | PathError op path errno => op ++ " " ++ path ++ ": " ++ strerror errno
  | SyntaxError msg => msg
  | UnmarshalTypeError value target => "json: cannot unmarshal " ++ value ++ " into " ++ target
  | ExitError msg => msg
  end.

(** ** The system under the process

    The file system is a tree of directories and regular files, without
    symbolic links.  [root] is the directory [/]; the working directory is a
    list of names from the root and never changes (the program never calls
    chdir).

    What the tree does not decide, the system does: a call can be refused for
    a reason that lies outside the tree (the permission bits of a file or of
    a directory on the way, a file system mounted read-only, a full disk, an
    I/O error, the limit on open files).  [fault] says which calls the
    system refuses and why; what it refuses does not change while the
    program runs.  That a name is missing is decided by the tree alone. *)

Inductive node :=
| File (data : string)
| Dir (entries : list (string * node)).

Inductive Fault := denied | read_only_fs | disk_full | io_failure | too_many_files.

Definition errno (f : Fault) : Errno :=
  match f with
  | denied => EACCES
  | read_only_fs => EROFS
  | disk_full => ENOSPC
  | io_failure => EIO
  | too_many_files => EMFILE
  end.

(** The calls the program makes on files, with the name it passes. *)
Inductive Syscall :=
| sys_open (name : string)      (* open(name, O_RDONLY) *)
| sys_creat (name : string)     (* open(name, O_WRONLY|O_CREATE|O_TRUNC, 0644) *)
| sys_write (name : string)     (* write to the file just opened *)
| sys_mkdir (name : string)
| sys_stat (name : string)
| sys_lstat (name : string)
| sys_readdir (name : string).  (* open(name) and the read of its entries *)

(** [ready] is how the standard input hands over its bytes: of the unread
    bytes, how many a read finds (at least one is taken when there is one).
    A terminal hands over one line at a time; a file or a pipe that was
    filled beforehand hands over everything. *)
Record System := mkSystem {
  fault : Syscall -> option Fault;
  ready : string -> nat
}.

(** The [bufio.Scanner] that [main] creates over the standard input and that
    its closure [getUserMessage] keeps: the length of the buffer, the index
    [start], the bytes [buf[start:end]] that were read and not yet handed
    out, and the error the scanner has met. *)
Inductive ScanError := io_EOF | ErrTooLong.

Module Scanner.
Record t := mk { buf_len : N; start : N; held : string; err : option ScanError }.
End Scanner.

Record World := mkWorld {
  root : node;
  cwd : list string;
  stdin : string;          (* bytes on the standard input that no read has taken *)
  stdout : list string;    (* what was printed, oldest first *)
  scanner : Scanner.t;
  system : System
}.

(** ** Computations: a world transformer that returns or panics *)

Inductive Res (A : Type) :=
| Val (a : A)
| Panic (v : error).
Arguments Panic {A} v.

Definition M (A : Type) := World -> Res A * World.

Definition ret {A} (a : A) : M A := fun w => (Val a, w).

Definition bind {A B} (m : M A) (k : A -> M B) : M B :=
  fun w => match m w with
           | (Val a, w') => k a w'
           | (Panic v, w') => (Panic v, w')
           end.

Definition panic {A} (v : error) : M A := fun w => (Panic v, w).

Declare Scope go_scope.
Delimit Scope go_scope with go.
Notation "x <- m ;; k" := (bind m (fun x => k))
  (at level 61, m at next level, right associativity) : go_scope.
Notation "m ;;; k" := (bind m (fun _ => k))
  (at level 61, right associativity) : go_scope.
Open Scope go_scope.

(** [fmt.Print], [fmt.Printf], [fmt.Println] with the text already formatted. *)
Definition Print (s : string) : M unit :=
  fun w => (Val tt, mkWorld (root w) (cwd w) (stdin w) (stdout w ++ [s])
                            (scanner w) (system w)).

(** ** Package [path] *)

Module path.

Definition slash : ascii := ascii_of_nat 47.

Definition rooted (p : string) : bool := prefix "/" p.

(** The element stack of [Clean]: [..] removes the element before it when
    there is one that is not itself [..]; otherwise it stays in a relative
    path and is dropped in a rooted one. *)
Fixpoint clean_elems (isRooted : bool) (elems out : list string) : list string :=
  match elems with
  | [] => out
  | e :: rest =>
      if (e =? "") || (e =? ".") then clean_elems isRooted rest out
      else if e =? ".." then
        match rev out with
        | [] => clean_elems isRooted rest (if isRooted then [] else [".."])
        | l :: _ =>
            if l =? ".."
            then clean_elems isRooted rest (out ++ [".."])
            else clean_elems isRooted rest (removelast out)
        end
      else clean_elems isRooted rest (out ++ [e])
  end.

(** [path.Clean(p)]. *)
Definition Clean (p : string) : string :=
  if p =? "" then "."
  else
    let out := clean_elems (rooted p) (strings.SplitByte p slash) [] in
    if rooted p then "/" ++ strings.Join out "/"
    else match out with
         | [] => "."
         | _ => strings.Join out "/"
         end.

(** [p[:i+1]] for the last index [i] of a slash in [p]: the first result of
    [path.Split]. *)
Fixpoint dir_part (p : string) : string :=
  match p with
  | EmptyString => EmptyString
  | String c p' => if strings.Contains p "/" then String c (dir_part p') else EmptyString
  end.

(** [path.Dir(p)]. *)
Definition Dir (p : string) : string := Clean (dir_part p).

End path.

(** ** Package [os] over the tree *)

Module os.

Fixpoint lookup (entries : list (string * node)) (name : string) : option node :=
  match entries with
  | [] => None
  | (n, child) :: rest => if n =? name then Some child else lookup rest name
  end.

(** Replace the entry called [name], or add it. *)
Fixpoint set_entry (entries : list (string * node)) (name : string) (v : node)
  : list (string * node) :=
  match entries with
  | [] => [(name, v)]
  | (n, child) :: rest =>
      if n =? name then (n, v) :: rest else (n, child) :: set_entry rest name v
  end.

(** The node at a list of names below [n]. *)
Fixpoint get_node (n : node) (p : list string) : option node :=
  match p with
  | [] => Some n
  | name :: p' =>
      match n with
      | File _ => None
      | Dir entries =>
          match lookup entries name with
          | Some child => get_node child p'
          | None => None
          end
      end
  end.

(** Put [v] at a list of names below [n]; every directory on the way has to
    exist. *)
Fixpoint put_node (n : node) (p : list string) (v : node) : option node :=
  match p with
  | [] => Some v
  | name :: p' =>
      match n with
      | File _ => None
      | Dir entries =>
          let child' :=
            match p' with
            | [] => Some v
            | _ => match lookup entries name with
                   | Some child => put_node child p' v
                   | None => None
                   end
            end in
          match child' with
          | Some c => Some (Dir (set_entry entries name c))
          | None => None
          end
      end
  end.

(** The longest name of an entry, in bytes. *)
Definition NAME_MAX : nat := 255.

(** Path resolution: [cur] is where the walk stands (names from the root);
    every element is looked up in a directory that has to exist, and a name
    longer than [NAME_MAX] is turned down where it is looked up. *)
Fixpoint namei (r : node) (cur elems : list string) : list string + Errno :=
  match elems with
  | [] => inl cur
  | e :: rest =>
      match get_node r cur with
      | Some (Dir _) =>
          if (e =? "") || (e =? ".") then namei r cur rest
          else if e =? ".." then namei r (removelast cur) rest
          else if Nat.ltb NAME_MAX (String.length e) then inr ENAMETOOLONG
          else namei r (cur ++ [e]) rest
      | Some (File _) => inr ENOTDIR
      | None => inr ENOENT
      end
  end.

Definition start (w : World) (p : string) : list string :=
  if path.rooted p then [] else cwd w.

Definition elems (p : string) : list string := strings.SplitByte p path.slash.

(** Where [p] leads in the tree, and what is there. *)
Definition resolve (w : World) (p : string) : (list string * node) + Errno :=
  if p =? "" then inr ENOENT
  else match namei (root w) (start w p) (elems p) with
       | inr e => inr e
       | inl cur => match get_node (root w) cur with
                    | Some n => inl (cur, n)
                    | None => inr ENOENT
                    end
       end.

(** What the system says to a call before the tree is looked at. *)
Definition refused (w : World) (call : Syscall) : option Errno :=
  option_map errno (fault (system w) call).

(** [os.IsNotExist(err)]. *)
Definition IsNotExist (err : error) : bool :=
  match err with
  | PathError _ _ ENOENT => true
  | _ => false
  end.

(** [os.Stat(name)] and [os.Lstat(name)], up to the node they describe. *)
Definition Stat (name : string) (w : World) : node + error :=
  match refused w (sys_stat name) with
  | Some e => inr (PathError "stat" name e)
  | None => match resolve w name with
            | inl (_, n) => inl n
            | inr e => inr (PathError "stat" name e)
            end
  end.

Definition Lstat (name : string) (w : World) : node + error :=
  match refused w (sys_lstat name) with
  | Some e => inr (PathError "lstat" name e)
  | None => match resolve w name with
            | inl (_, n) => inl n
            | inr e => inr (PathError "lstat" name e)
            end
  end.

(** [os.ReadFile(name)]: open, read to the end, close. *)
Definition ReadFile (name : string) (w : World) : string + error :=
  match refused w (sys_open name) with
  | Some e => inr (PathError "open" name e)
  | None =>
      match resolve w name with
      | inr e => inr (PathError "open" name e)
      | inl (_, File data) => inl data
      | inl (_, Dir _) => inr (PathError "read" name EISDIR)
      end
  end.

Definition with_root (w : World) (r : node) : World :=
  mkWorld r (cwd w) (stdin w) (stdout w) (scanner w) (system w).

Definition special (e : string) : bool := (e =? "") || (e =? ".") || (e =? "..").

(** [os.WriteFile(name, data, 0644)]: open with O_WRONLY|O_CREATE|O_TRUNC,
    write, close.  The open creates the file or empties it; a write that is
    refused after that leaves the file empty. *)
Definition WriteFile (name data : string) (w : World) : option error * World :=
  let fail e := (Some (PathError "open" name e), w) in
  match refused w (sys_creat name) with
  | Some e => fail e
  | None =>
      if name =? "" then fail ENOENT
      else
        match namei (root w) (start w name) (removelast (elems name)) with
        | inr e => fail e
        | inl dir =>
            match get_node (root w) dir with
            | None => fail ENOENT
            | Some (File _) => fail ENOTDIR
            | Some (Dir _) =>
                let e := last (elems name) "" in
                if special e then fail EISDIR
                else if Nat.ltb NAME_MAX (String.length e) then fail ENAMETOOLONG
                else
                  match get_node (root w) (dir ++ [e]) with
                  | Some (Dir _) => fail EISDIR
                  | _ =>
                      match refused w (sys_write name) with
                      | Some e' =>
                          match put_node (root w) (dir ++ [e]) (File "") with
                          | Some r => (Some (PathError "write" name e'), with_root w r)
                          | None => fail ENOENT
                          end
                      | None =>
                          match put_node (root w) (dir ++ [e]) (File data) with
                          | Some r => (None, with_root w r)
                          | None => fail ENOENT
                          end
                      end
                  end
            end
        end
  end.

(** [name] without its trailing slashes. *)
Fixpoint trim_slashes (name : string) : string :=
  match name with
  | EmptyString => EmptyString
  | String c rest =>
      match trim_slashes rest with
      | EmptyString => if Ascii.eqb c path.slash then EmptyString else String c EmptyString
      | t => String c t
      end
  end.

(** [os.Mkdir(name, 0755)]. *)
Definition Mkdir (name : string) (w : World) : option error * World :=
  let fail e := (Some (PathError "mkdir" name e), w) in
  match refused w (sys_mkdir name) with
  | Some e => fail e
  | None =>
      if name =? "" then fail ENOENT
      else
        let es := elems (trim_slashes name) in
        match namei (root w) (start w name) (removelast es) with
        | inr e => fail e
        | inl dir =>
            match get_node (root w) dir with
            | None => fail ENOENT
            | Some (File _) => fail ENOTDIR
            | Some (Dir _) =>
                let e := last es "" in
                if special e then fail EEXIST
                else if Nat.ltb NAME_MAX (String.length e) then fail ENAMETOOLONG
                else
                  match get_node (root w) (dir ++ [e]) with
                  | Some _ => fail EEXIST
                  | None => match put_node (root w) (dir ++ [e]) (Dir []) with
                            | Some r => (None, with_root w r)
                            | None => fail ENOENT
                            end
                  end
            end
        end
  end.

(** [os.MkdirAll(name, 0755)]: nothing to do for a directory that [Stat]
    finds; otherwise the parent first, then [Mkdir], and when that fails a
    look with [Lstat] whether the directory is there after all.  [fuel]
    bounds the recursion on the parent, which is a shorter string each
    time. *)
Fixpoint MkdirAll_loop (fuel : nat) (name : string) (w : World) : option error * World :=
  match Stat name w with
  | inl (Dir _) => (None, w)
  | inl (File _) => (Some (PathError "mkdir" name ENOTDIR), w)
  | inr _ =>
      match fuel with
      | O => (Some (PathError "mkdir" name ENOENT), w)
      | S fuel' =>
          let parent := path.dir_part (trim_slashes name) in
          let '(err, w1) :=
            if parent =? "" then (None, w) else MkdirAll_loop fuel' parent w in
          match err with
          | Some e => (Some e, w1)
          | None =>
              match Mkdir name w1 with
              | (None, w2) => (None, w2)
              | (Some e, w2) =>
                  match Lstat name w2 with
                  | inl (Dir _) => (None, w2)
                  | _ => (Some e, w2)
                  end
              end
          end
      end
  end.

Definition MkdirAll (name : string) (w : World) : option error * World :=
  MkdirAll_loop (String.length name) name w.

End os.

(** ** Package [path/filepath]: [Walk] *)

Module filepath.

(** [filepath.Join(dir, name)] for a [dir] that is not empty. *)
Definition Join (dir name : string) : string := path.Clean (dir ++ "/" ++ name).

(** Insertion by name, for the sorted directory read of [Walk]. *)
Fixpoint insert_by_name {A} (x : string * A) (l : list (string * A)) : list (string * A) :=
  match l with
  | [] => [x]
  | y :: l' => if String.leb (fst x) (fst y) then x :: l else y :: insert_by_name x l'
  end.

Fixpoint sort_by_name {A} (l : list (string * A)) : list (string * A) :=
  match l with
  | [] => []
  | x :: l' => insert_by_name x (sort_by_name l')
  end.

(** What [Walk] hands to its callback for the tree below the root of the
    walk when no call is refused, in the order of the calls: the names that
    lead from the root of the walk to the entry (none for the root itself)
    and [info.IsDir()].  A directory comes before its entries, and the
    entries of a directory are visited in the order of their names. *)
Fixpoint visits (names : list string) (n : node) : list (list string * bool) :=
  match n with
  | File _ => [(names, false)]
  | Dir entries =>
      (names, true) ::
      concat (map snd (sort_by_name
        ((fix each (es : list (string * node)) : list (string * list (list string * bool)) :=
            match es with
            | [] => []
            | (name, child) :: es' => (name, visits (names ++ [name]) child) :: each es'
            end) entries)))
  end.

(** The visits of the entries of a directory, one after the other, up to
    the first that ends in an error. *)
Fixpoint in_turn {A} (l : list (string * (list A + error))) : list A + error :=
  match l with
  | [] => inl []
  | (_, inr e) :: _ => inr e
  | (_, inl vs) :: l' =>
      match in_turn l' with
      | inl vs' => inl (vs ++ vs')%list
      | inr e => inr e
      end
  end.

(** [walk(path, info, walkFn)] for a callback that hands back every error
    it is given and otherwise returns nil, as the callback of [ListFiles]
    does: the visits in the order of the calls, or the first error.  The
    entries of a directory are read before the callback is called for the
    directory, so a directory that cannot be read is no visit; every entry
    is examined with [lstat] under the name [Join(path, name)] before it is
    walked. *)
Fixpoint walk (w : World) (path : string) (names : list string) (n : node)
  : list (list string * bool) + error :=
  match n with
  | File _ => inl [(names, false)]
  | Dir entries =>
      match os.refused w (sys_readdir path) with
      | Some e => inr (PathError "open" path e)
      | None =>
          match in_turn (sort_by_name
            ((fix each (es : list (string * node))
                : list (string * (list (list string * bool) + error)) :=
                match es with
                | [] => []
                | (name, child) :: es' =>
                    let filename := Join path name in
                    (name, match os.refused w (sys_lstat filename) with
                           | Some e => inr (PathError "lstat" filename e)
                           | None => walk w filename (names ++ [name]) child
                           end) :: each es'
                end) entries)) with
          | inl vs => inl ((names, true) :: vs)
          | inr e => inr e
          end
      end
  end.

(** [filepath.Walk(root, walkFn)] for such a callback: when [root] cannot be
    examined the callback gets the error of [Lstat] and hands it back. *)
Definition Walk (root : string) (w : World) : list (list string * bool) + error :=
  match os.Lstat root w with
  | inr e => inr e
  | inl n => walk w root [] n
  end.

(** [filepath.Rel(dir, path)] for the [path] of a visit: [Walk] calls back
    with [filepath.Join(dir, n1, .., nk)], and relative to [dir] that is
    [n1/../nk], or a dot for the root of the walk. *)
Definition Rel_visit (names : list string) : string :=
  match names with
  | [] => "."
  | _ => strings.Join names "/"
  end.

End filepath.

Definition RawMessage := string.   (* json.RawMessage *)

(** ** Package [encoding/json]

    The decoder for the argument structs of the tools, whose fields are all
    strings.  The text of a syntax error and the nesting limit of the Go
    decoder are not modelled. *)

Module json.

Inductive Value :=
| Null
| Bool (b : bool)
| Number (literal : string)
| Str (s : string)
| Array (elements : list Value)
| Object (members : list (string * Value)).

Definition is_ws (c : ascii) : bool :=
  match nat_of_ascii c with
  | 9 | 10 | 13 | 32 => true
  | _ => false
  end.

Fixpoint skip_ws (s : string) : string :=
  match s with
  | EmptyString => EmptyString
  | String c s' => if is_ws c then skip_ws s' else s
  end.

Definition is_digit (c : ascii) : bool := utf8.between 48 57 c.

Definition hex_val (c : ascii) : option N :=
  let n := N_of_ascii c in
  if utf8.between 48 57 c then Some (n - 48)%N
  else if utf8.between 97 102 c then Some (n - 87)%N
  else if utf8.between 65 70 c then Some (n - 55)%N
  else None.

(** [getu4]: the code unit of a [\uXXXX] escape at the head of [s]. *)
Definition getu4 (s : string) : option (N * string) :=
  match s with
  | String b (String u (String h1 (String h2 (String h3 (String h4 rest))))) =>
      if (nat_of_ascii b =? 92)%nat && (nat_of_ascii u =? 117)%nat then
        match hex_val h1, hex_val h2, hex_val h3, hex_val h4 with
        | Some a, Some b, Some c, Some d => Some (a * 4096 + b * 256 + c * 16 + d, rest)%N
        | _, _, _, _ => None
        end
      else None
  | _ => None
  end.

Definition simple_escape (c : ascii) : option ascii :=
  match nat_of_ascii c with
  | 34 => Some (ascii_of_nat 34)     (* quote *)
  | 92 => Some (ascii_of_nat 92)     (* backslash *)
  | 47 => Some (ascii_of_nat 47)     (* slash *)
  | 98 => Some (ascii_of_nat 8)      (* b *)
  | 102 => Some (ascii_of_nat 12)    (* f *)
  | 110 => Some (ascii_of_nat 10)    (* n *)
  | 114 => Some (ascii_of_nat 13)    (* r *)
  | 116 => Some (ascii_of_nat 9)     (* t *)
  | _ => None
  end.

(** The text of a string literal after its opening quote, unquoted, and what
    follows the closing quote. *)
Fixpoint unquote (fuel : nat) (s : string) : option (string * string) :=
  match fuel with
  | O => None
  | S fuel' =>
      let emit (t : string) (rest : string) :=
        match unquote fuel' rest with
        | Some (u, r) => Some (t ++ u, r)
        | None => None
        end in
      match s with
      | EmptyString => None
      | String c s' =>
          let n := nat_of_ascii c in
          if (n =? 34)%nat then Some (EmptyString, s')
          else if (n =? 92)%nat then
            match s' with
            | EmptyString => None
            | String e s'' =>
                if (nat_of_ascii e =? 117)%nat then
                  match getu4 s with
                  | None => None
                  | Some (rr, s3) =>
                      if ((55296 <=? rr) && (rr <=? 57343))%N then
                        match getu4 s3 with
                        | Some (rr1, s4) =>
                            if ((rr <? 56320) && (56320 <=? rr1) && (rr1 <=? 57343))%N
                            then emit (utf8.EncodeRune
                                         ((rr - 55296) * 1024 + (rr1 - 56320) + 65536)%N) s4
                            else emit (utf8.EncodeRune utf8.RuneError) s3
                        | None => emit (utf8.EncodeRune utf8.RuneError) s3
                        end
                      else emit (utf8.EncodeRune rr) s3
                  end
                else
                  match simple_escape e with
                  | Some ch => emit (String ch EmptyString) s''
                  | None => None
                  end
            end
          else if (n <? 32)%nat then None
          else if (n <? 128)%nat then emit (String c EmptyString) s'
          else
            match utf8.DecodeRuneInString s with
            | (true, size) => emit (substring 0 size s) (strings.drop size s)
            | (false, _) => emit (utf8.EncodeRune utf8.RuneError) s'
            end
      end
  end.

Fixpoint digits (s : string) : string * string :=
  match s with
  | EmptyString => (EmptyString, EmptyString)
  | String c s' =>
      if is_digit c then let '(d, r) := digits s' in (String c d, r)
      else (EmptyString, s)
  end.

(** A number literal at the head of [s]: minus, integer part, fraction,
    exponent. *)
Definition number (s : string) : option (string * string) :=
  let '(sign, s1) :=
    match s with
    | String c s' => if (nat_of_ascii c =? 45)%nat then ("-", s') else ("", s)
    | _ => ("", s)
    end in
  let '(int, s2) := digits s1 in
  if (int =? "") || (prefix "0" int && negb (int =? "0")) then None
  else
    let frac :=
      match s2 with
      | String c s' =>
          if (nat_of_ascii c =? 46)%nat then
            let '(f, r) := digits s' in
            if f =? "" then None else Some ("." ++ f, r)
          else Some ("", s2)
      | _ => Some ("", s2)
      end in
    match frac with
    | None => None
    | Some (f, s3) =>
        match s3 with
        | String c s' =>
            if (nat_of_ascii c =? 101)%nat || (nat_of_ascii c =? 69)%nat then
              let '(sg, s4) :=
                match s' with
                | String d s'' =>
                    if (nat_of_ascii d =? 43)%nat || (nat_of_ascii d =? 45)%nat
                    then (String d "", s'') else ("", s')
                | _ => ("", s')
                end in
              let '(x, r) := digits s4 in
              if x =? "" then None
              else Some (sign ++ int ++ f ++ String c "" ++ sg ++ x, r)
            else Some (sign ++ int ++ f, s3)
        | _ => Some (sign ++ int ++ f, s3)
        end
    end.

(** One value at the head of [s] (after white space), and the rest. *)
Fixpoint value (fuel : nat) (s : string) : option (Value * string) :=
  match fuel with
  | O => None
  | S fuel' =>
      match skip_ws s with
      | EmptyString => None
      | String c s' as t =>
          let n := nat_of_ascii c in
          if (n =? 123)%nat then
            match skip_ws s' with
            | String c1 s1 =>
                if (nat_of_ascii c1 =? 125)%nat then Some (Object [], s1)
                else match members fuel' (String c1 s1) with
                     | Some (ms, r) => Some (Object ms, r)
                     | None => None
                     end
            | EmptyString => None
            end
          else if (n =? 91)%nat then
            match skip_ws s' with
            | String c1 s1 =>
                if (nat_of_ascii c1 =? 93)%nat then Some (Array [], s1)
                else match elements fuel' (String c1 s1) with
                     | Some (vs, r) => Some (Array vs, r)
                     | None => None
                     end
            | EmptyString => None
            end
          else if (n =? 34)%nat then
            match unquote (S (String.length s')) s' with
            | Some (str, r) => Some (Str str, r)
            | None => None
            end
          else if prefix "true" t then Some (Bool true, strings.drop 4 t)
          else if prefix "false" t then Some (Bool false, strings.drop 5 t)
          else if prefix "null" t then Some (Null, strings.drop 4 t)
          else match number t with
               | Some (lit, r) => Some (Number lit, r)
               | None => None
               end
      end
  end

(** The members of an object after its opening brace, up to the closing one. *)
with members (fuel : nat) (s : string) : option (list (string * Value) * string) :=
  match fuel with
  | O => None
  | S fuel' =>
      match skip_ws s with
      | String q s1 =>
          if (nat_of_ascii q =? 34)%nat then
            match unquote (S (String.length s1)) s1 with
            | None => None
            | Some (key, s2) =>
                match skip_ws s2 with
                | String colon s3 =>
                    if (nat_of_ascii colon =? 58)%nat then
                      match value fuel' s3 with
                      | None => None
                      | Some (v, s4) =>
                          match skip_ws s4 with
                          | String d s5 =>
                              if (nat_of_ascii d =? 125)%nat then Some ([(key, v)], s5)
                              else if (nat_of_ascii d =? 44)%nat then
                                match members fuel' s5 with
                                | Some (ms, r) => Some ((key, v) :: ms, r)
                                | None => None
                                end
                              else None
                          | EmptyString => None
                          end
                      end
                    else None
                | EmptyString => None
                end
            end
          else None
      | EmptyString => None
      end
  end

(** The elements of an array after its opening bracket. *)
with elements (fuel : nat) (s : string) : option (list Value * string) :=
  match fuel with
  | O => None
  | S fuel' =>
      match value fuel' s with
      | None => None
      | Some (v, s1) =>
          match skip_ws s1 with
          | String d s2 =>
              if (nat_of_ascii d =? 93)%nat then Some ([v], s2)
              else if (nat_of_ascii d =? 44)%nat then
                match elements fuel' s2 with
                | Some (vs, r) => Some (v :: vs, r)
                | None => None
                end
              else None
          | EmptyString => None
          end
      end
  end.

(** The whole input as one value, white space around it allowed. *)
Definition parse (data : string) : option Value :=
  match value (2 * String.length data + 2) data with
  | Some (v, rest) => if skip_ws rest =? "" then Some v else None
  | None => None
  end.

Definition kind (v : Value) : string :=
  match v with
  | Null => "null"
  | Bool _ => "bool"
  | Number _ => "number"
  | Str _ => "string"
  | Array _ => "array"
  | Object _ => "object"
  end.

(** The field a key names: the one spelled the same, else the first that
    differs in letter case only. *)
Definition find_field (fields : list string) (key : string) : option string :=
  match find (String.eqb key) fields with
  | Some f => Some f
  | None => find (fun f => strings.ToLower f =? strings.ToLower key) fields
  end.

Fixpoint set_field (st : list (string * string)) (f v : string) : list (string * string) :=
  match st with
  | [] => [(f, v)]
  | (g, u) :: rest => if g =? f then (g, v) :: rest else (g, u) :: set_field rest f v
  end.

Fixpoint field (st : list (string * string)) (f : string) : string :=
  match st with
  | [] => ""
  | (g, u) :: rest => if g =? f then u else field rest f
  end.

(** The members of an object stored into a struct of string fields: an
    unknown key is skipped, null leaves the field alone, a value that is not
    a string is an error that is reported once the object is done. *)
Fixpoint store (struct : string) (fields : list string) (ms : list (string * Value))
    (st : list (string * string)) (err : option error)
  : list (string * string) * option error :=
  match ms with
  | [] => (st, err)
  | (key, v) :: rest =>
      match find_field fields key with
      | None => store struct fields rest st err
      | Some f =>
          match v with
          | Str s => store struct fields rest (set_field st f s) err
          | Null => store struct fields rest st err
          | _ =>
              let e := UnmarshalTypeError (kind v)
                         ("Go struct field " ++ struct ++ "." ++ f ++ " of type string") in
              store struct fields rest st (match err with Some e0 => Some e0 | None => Some e end)
          end
      end
  end.

(** [json.Unmarshal(data, &v)] for [v] a zero struct called [struct] with
    the string fields [fields] (by their json names). *)
Definition Unmarshal (struct : string) (fields : list string) (data : RawMessage)
  : list (string * string) + error :=
  match parse data with
  | None => inr (SyntaxError "invalid JSON input")
  | Some (Object ms) =>
      match store struct fields ms [] None with
      | (st, None) => inl st
      | (_, Some e) => inr e
      end
  | Some Null => inl []
  | Some v => inr (UnmarshalTypeError (kind v) ("Go value of type main." ++ struct))
  end.

Definition hex_digit (n : nat) : ascii :=
  if (n <? 10)%nat then ascii_of_nat (48 + n) else ascii_of_nat (87 + n).

(** One byte of a string inside the quotes of [Marshal]: quote and backslash
    are escaped, and so are the control characters (backspace and form feed by
    their letter, as Go 1.22 and later write them) and the three characters
    that matter inside HTML.  Bytes above 127 are copied (a well-formed string
    is assumed). *)
Definition escape_byte (c : ascii) : string :=
  let n := nat_of_ascii c in
  let bs := String (ascii_of_nat 92) "" in
  if (n =? 34)%nat then bs ++ dquote
  else if (n =? 92)%nat then bs ++ bs
  else if (n =? 8)%nat then bs ++ "b"
  else if (n =? 12)%nat then bs ++ "f"
  else if (n =? 10)%nat then bs ++ "n"
  else if (n =? 13)%nat then bs ++ "r"
  else if (n =? 9)%nat then bs ++ "t"
  else if (n <? 32)%nat || (n =? 60)%nat || (n =? 62)%nat || (n =? 38)%nat then
    bs ++ "u00" ++ String (hex_digit (n / 16)) (String (hex_digit (n mod 16)) "")
  else String c "".

Fixpoint escape (s : string) : string :=
  match s with
  | EmptyString => EmptyString
  | String c s' => escape_byte c ++ escape s'
  end.

Definition quote (s : string) : string := dquote ++ escape s ++ dquote.

(** [json.Marshal(files)] for [files []string]: a nil slice is [null]. *)
Definition Marshal (files : list string) : string :=
  match files with
  | [] => "null"
  | _ => "[" ++ strings.Join (map quote files) "," ++ "]"
  end.

End json.

(** ** Reading the standard input *)

Module fmt.

(** The white space of package [fmt]. *)
Definition isSpace (r : N) : bool :=
  (((9 <=? r) && (r <=? 13)) || (r =? 32) || (r =? 133) || (r =? 160) || (r =? 5760)
   || ((8192 <=? r) && (r <=? 8202)) || (r =? 8232) || (r =? 8233) || (r =? 8239)
   || (r =? 8287) || (r =? 12288))%N.

(** The standard input is no [io.RuneScanner], so a scan reads it through a
    [readRune] of its own: the bytes of the input that nobody has read, the
    bytes that were read beyond an ill-formed rune, and the rune that was
    put back.  The [readRune] is dropped when the scan returns, with what it
    holds. *)
Record readRune := mkReadRune {
  reader : string;
  pendBuf : string;
  peekRune : option N
}.

Definition readByte (r : readRune) : option (ascii * readRune) :=
  match pendBuf r with
  | String b pending => Some (b, mkReadRune (reader r) pending (peekRune r))
  | EmptyString =>
      match reader r with
      | String b rest => Some (b, mkReadRune rest EmptyString (peekRune r))
      | EmptyString => None
      end
  end.

(** The bytes of one rune: one byte after the other until they are a full
    rune, or the input ends. *)
Fixpoint gather (n : nat) (buf : string) (r : readRune) : string * readRune :=
  match n with
  | O => (buf, r)
  | S n' =>
      if utf8.FullRune buf then (buf, r)
      else match readByte r with
           | Some (b, r') => gather n' (buf ++ String b EmptyString) r'
           | None => (buf, r)
           end
  end.

(** [readRune.ReadRune]: [None] at the end of the input. *)
Definition ReadRune (r : readRune) : option N * readRune :=
  match peekRune r with
  | Some rr => (Some rr, mkReadRune (reader r) (pendBuf r) None)
  | None =>
      match readByte r with
      | None => (None, r)
      | Some (b, r1) =>
          if (utf8.code b <? 128)%N then (Some (utf8.code b), r1)
          else
            let '(buf, r2) := gather 3 (String b EmptyString) r1 in
            let '(rr, size) := utf8.DecodeRune buf in
            (Some rr, mkReadRune (reader r2) (pendBuf r2 ++ strings.drop size buf) None)
      end
  end.

(** [UnreadRune] after [rr] was read. *)
Definition UnreadRune (rr : N) (r : readRune) : readRune :=
  mkReadRune (reader r) (pendBuf r) (Some rr).

(** [ss.SkipSpace] of a scan that ends at a newline: white space is skipped,
    a newline is an error (and is consumed), the first other rune is put
    back.  (The look past a carriage return for a newline reads the rune that
    the next pass of the loop reads anyway.) *)
Fixpoint SkipSpace (fuel : nat) (r : readRune) : bool * readRune :=
  match fuel with
  | O => (true, r)
  | S fuel' =>
      match ReadRune r with
      | (None, r') => (true, r')
      | (Some rr, r') =>
          if (rr =? 10)%N then (false, r')
          else if isSpace rr then SkipSpace fuel' r'
          else (true, UnreadRune rr r')
      end
  end.

(** [ss.token(true, notSpace)] after its [SkipSpace]: the runes up to the
    next white space, which is put back. *)
Fixpoint token (fuel : nat) (r : readRune) (buf : string) : string * readRune :=
  match fuel with
  | O => (buf, r)
  | S fuel' =>
      match ReadRune r with
      | (None, r') => (buf, r')
      | (Some rr, r') =>
          if isSpace rr then (buf, UnreadRune rr r')
          else token fuel' r' (buf ++ utf8.EncodeRune rr)
      end
  end.

(** After the last operand: white space up to the newline is consumed; a
    rune that is no white space is an error and is consumed too. *)
Fixpoint to_newline (fuel : nat) (r : readRune) : readRune :=
  match fuel with
  | O => r
  | S fuel' =>
      match ReadRune r with
      | (None, r') => r'
      | (Some rr, r') =>
          if (rr =? 10)%N then r'
          else if isSpace rr then to_newline fuel' r'
          else r'
      end
  end.

(** [fmt.Scanln(&v)] for [v] a string that holds [v0]: the value of [v]
    afterwards.  The count and the error that [Scanln] returns are dropped,
    as the program drops them.  Every pass of a loop takes a rune, so the
    length of the input bounds the passes. *)
Definition Scanln (v0 : string) : M string :=
  fun w =>
    let put (v : string) (r : readRune) :=
      (Val v, mkWorld (root w) (cwd w) (reader r) (stdout w) (scanner w) (system w)) in
    let fuel := String.length (stdin w) + 2 in
    match SkipSpace fuel (mkReadRune (stdin w) EmptyString None) with
    | (false, r1) => put v0 r1                       (* unexpected newline *)
    | (true, r1) =>
        match ReadRune r1 with
        | (None, r2) => put v0 r2                    (* notEOF *)
        | (Some rr, r2) =>
            match SkipSpace fuel (UnreadRune rr r2) with
            | (false, r3) => put v0 r3
            | (true, r3) =>
                let '(t, r4) := token fuel r3 EmptyString in
                put t (to_newline fuel r4)
            end
        end
    end.

End fmt.

Module bufio.

Definition MaxScanTokenSize : N := 65536.
Definition startBufSize : N := 4096.

(** [bufio.NewScanner(r)]: no buffer yet, no error yet. *)
Definition NewScanner : Scanner.t := Scanner.mk 0 0 "" None.

(** [bytes.IndexByte(data, c)]. *)
Fixpoint IndexByte (data : string) (c : ascii) : option nat :=
  match data with
  | EmptyString => None
  | String x rest => if Ascii.eqb x c then Some 0 else option_map S (IndexByte rest c)
  end.

(** [s[:n]] (all of it when [n] is past the end). *)
Fixpoint take (n : nat) (s : string) : string :=
  match n, s with
  | S n', String c s' => String c (take n' s')
  | _, _ => EmptyString
  end.

Fixpoint dropCR (l : string) : string :=
  match l with
  | EmptyString => EmptyString
  | String c EmptyString => if (nat_of_ascii c =? 13)%nat then EmptyString else l
  | String c l' => String c (dropCR l')
  end.

(** [bufio.ScanLines(data, atEOF)]: how far to advance, and the token if
    there is one. *)
Definition ScanLines (data : string) (atEOF : bool) : nat * option string :=
  if atEOF && (data =? "") then (0, None)
  else match IndexByte data (ascii_of_nat 10) with
       | Some i => (i + 1, Some (dropCR (take i data)))
       | None => if atEOF then (String.length data, Some (dropCR data)) else (0, None)
       end.

Definition len (s : string) : N := N.of_nat (String.length s).

(** The index [end] of the scanner. *)
Definition end_ (s : Scanner.t) : N := (Scanner.start s + len (Scanner.held s))%N.

(** The call of the split function in [Scan], made when the scanner holds
    data or has met an error: how far to advance, and the token. *)
Definition split (s : Scanner.t) : nat * option string :=
  let atEOF := match Scanner.err s with Some _ => true | None => false end in
  if negb (Scanner.held s =? "") || atEOF then ScanLines (Scanner.held s) atEOF
  else (0, None).

(** [s.advance(n)]. *)
Definition advance (n : nat) (s : Scanner.t) : Scanner.t :=
  Scanner.mk (Scanner.buf_len s) (Scanner.start s + N.of_nat n)
             (strings.drop n (Scanner.held s)) (Scanner.err s).

(** Shift data to the beginning of the buffer if there is lots of empty
    space or space is needed. *)
Definition shift (s : Scanner.t) : Scanner.t :=
  if ((0 <? Scanner.start s)
      && ((end_ s =? Scanner.buf_len s) || (Scanner.buf_len s / 2 <? Scanner.start s)))%N
  then Scanner.mk (Scanner.buf_len s) 0 (Scanner.held s) (Scanner.err s)
  else s.

(** The buffer is full and cannot grow: [ErrTooLong]. *)
Definition too_long (s : Scanner.t) : bool :=
  ((end_ s =? Scanner.buf_len s) && (MaxScanTokenSize <=? Scanner.buf_len s))%N.

(** Is the buffer full?  If so, resize. *)
Definition resize (s : Scanner.t) : Scanner.t :=
  if (end_ s =? Scanner.buf_len s)%N then
    let newSize := (if Scanner.buf_len s * 2 =? 0 then startBufSize
                    else Scanner.buf_len s * 2)%N in
    Scanner.mk (N.min newSize MaxScanTokenSize) 0 (Scanner.held s) (Scanner.err s)
  else s.

(** [s.r.Read(s.buf[s.end:len(s.buf)])] and what [Scan] does with its
    result: the end of the input is noted as an error; otherwise the read
    takes what is ready, at most what the buffer has room for and at least
    one byte. *)
Definition Read (ready : string -> nat) (s : Scanner.t) (input : string)
  : Scanner.t * string :=
  match input with
  | EmptyString =>
      (Scanner.mk (Scanner.buf_len s) (Scanner.start s) (Scanner.held s) (Some io_EOF),
       input)
  | _ =>
      let n := N.to_nat (N.min (Scanner.buf_len s - end_ s)
                               (N.of_nat (Nat.max 1 (ready input)))) in
      (Scanner.mk (Scanner.buf_len s) (Scanner.start s) (Scanner.held s ++ take n input)
                  (Scanner.err s),
       strings.drop n input)
  end.

(** The loop of [Scanner.Scan]: the token when the call returns true, the
    scanner, and what is left of the input.  A pass of the loop returns, or
    notes the end of the input, or takes at least one byte off the input. *)
Fixpoint Scan_loop (ready : string -> nat) (fuel : nat) (s : Scanner.t) (input : string)
  : option string * Scanner.t * string :=
  match fuel with
  | O => (None, s, input)
  | S fuel' =>
      (* See if we can get a token with what we already have. *)
      let '(n, token) := split s in
      let s1 := advance n s in
      match token with
      | Some t => (Some t, s1, input)
      | None =>
          match Scanner.err s1 with
          | Some _ =>
              (* We have hit the end or an error: shut it down. *)
              (None, Scanner.mk (Scanner.buf_len s1) 0 "" (Scanner.err s1), input)
          | None =>
              (* Must read more data. *)
              let s2 := shift s1 in
              if too_long s2 then
                (None, Scanner.mk (Scanner.buf_len s2) (Scanner.start s2) (Scanner.held s2)
                                  (Some ErrTooLong), input)
              else
                let '(s3, input') := Read ready (resize s2) input in
                Scan_loop ready fuel' s3 input'
          end
      end
  end.

(** [scanner.Scan()] followed by [scanner.Text()] on the scanner of [main],
    as its closure [getUserMessage] calls them: the line and true, or the
    empty string and false when [Scan] returns false. *)
Definition ScanText (w : World) : (string * bool) * World :=
  let '(token, s, input) :=
    Scan_loop (ready (system w)) (String.length (stdin w) + 2) (scanner w) (stdin w) in
  let w' := mkWorld (root w) (cwd w) input (stdout w) s (system w) in
  match token with
  | Some t => ((t, true), w')
  | None => ((EmptyString, false), w')
  end.

End bufio.

(** ** The part of the anthropic SDK the program uses *)

Module anthropic.

(** A block of a reply: the SDK flattens the variants into one struct and
    the program switches on [Type]. *)
Record ContentBlockUnion := {
  Type_ : string;
  Text : string;
  ID : string;
  Name : string;
  Input : RawMessage
}.

Record Message := { Content : list ContentBlockUnion }.

Inductive ContentBlockParamUnion :=
| OfText (text : string)
| OfToolUse (id : string) (input : RawMessage) (name : string)
| OfToolResult (tool_use_id : string) (content : string) (is_error : bool)
| OfOther (type : string).

Inductive MessageParamRole := MessageParamRoleUser | MessageParamRoleAssistant.

Record MessageParam := {
  Role : MessageParamRole;
  ContentParam : list ContentBlockParamUnion
}.

Definition NewTextBlock (text : string) : ContentBlockParamUnion := OfText text.

Definition NewToolResultBlock (toolUseID content : string) (isError : bool)
  : ContentBlockParamUnion := OfToolResult toolUseID content isError.

Definition NewUserMessage (blocks : list ContentBlockParamUnion) : MessageParam :=
  {| Role := MessageParamRoleUser; ContentParam := blocks |}.

(** [ContentBlockUnion.ToParam] and [Message.ToParam]. *)
Definition BlockToParam (c : ContentBlockUnion) : ContentBlockParamUnion :=
  if Type_ c =? "text" then OfText (Text c)
  else if Type_ c =? "tool_use" then OfToolUse (ID c) (Input c) (Name c)
  else OfOther (Type_ c).

Definition ToParam (m : Message) : MessageParam :=
  {| Role := MessageParamRoleAssistant; ContentParam := map BlockToParam (Content m) |}.

(** The schema of a tool's arguments: property name and description. *)
Definition ToolInputSchemaParam := list (string * string).

Record ToolParam := {
  ToolName : string;
  ToolDescription : string;
  ToolInputSchema : ToolInputSchemaParam
}.

Record MessageNewParams := {
  Model : string;
  MaxTokens : N;
  Messages : list MessageParam;
  Tools : list ToolParam
}.

Definition ModelClaude3_5HaikuLatest : string := "claude-3-5-haiku-latest".

End anthropic.

(** ** main.go: the agent *)

Record ToolDefinition := {
  Name : string;
  Description : string;
  InputSchema : anthropic.ToolInputSchemaParam;
  Function : RawMessage -> M (string * option error)
}.

(** The remote model answers one request with a message or an error.  Within one
    run every request carries a strictly longer conversation than the one
    before, so a function of the request covers every sequence of answers. *)
Record Agent := {
  client : anthropic.MessageNewParams -> anthropic.Message + error;
  getUserMessage : World -> (string * bool) * World;
  tools : list ToolDefinition
}.

Definition NewAgent client getUserMessage tools : Agent :=
  {| client := client; getUserMessage := getUserMessage; tools := tools |}.

Definition runInference (a : Agent) (conversation : list anthropic.MessageParam)
  : anthropic.Message + error :=
  let anthropicTools :=
    map (fun tool => {| anthropic.ToolName := Name tool;
                        anthropic.ToolDescription := Description tool;
                        anthropic.ToolInputSchema := InputSchema tool |}) (tools a) in
  client a {| anthropic.Model := anthropic.ModelClaude3_5HaikuLatest;
              anthropic.MaxTokens := 1024;
              anthropic.Messages := conversation;
              anthropic.Tools := anthropicTools |}.

(** The scan of [a.tools] in [executeTool]: the first descriptor with the name. *)
Fixpoint lookupTool (ts : list ToolDefinition) (name : string) : option ToolDefinition :=
  match ts with
  | [] => None
  | tool :: rest => if Name tool =? name then Some tool else lookupTool rest name
  end.

Definition tool_trace (name : string) (input : RawMessage) : string :=
  ESC ++ "[92mtool" ++ ESC ++ "[0m: " ++ name ++ "(" ++ input ++ ")" ++ LF.

Definition executeTool (a : Agent) (id name : string) (input : RawMessage)
  : M anthropic.ContentBlockParamUnion :=
  match lookupTool (tools a) name with
  | None => ret (anthropic.NewToolResultBlock id "tool not found" true)
  | Some toolDef =>
      Print (tool_trace name input) ;;;
      r <- Function toolDef input ;;
      match r with
      | (_, Some err) => ret (anthropic.NewToolResultBlock id (Error err) true)
      | (response, None) => ret (anthropic.NewToolResultBlock id response false)
      end
  end.

(** The [for _, content := range message.Content] loop of [Run]. *)
Fixpoint dispatch (a : Agent) (content : list anthropic.ContentBlockUnion)
    (toolResults : list anthropic.ContentBlockParamUnion)
  : M (list anthropic.ContentBlockParamUnion) :=
  match content with
  | [] => ret toolResults
  | c :: rest =>
      if anthropic.Type_ c =? "text" then
        Print (ESC ++ "[93mClaude" ++ ESC ++ "[0m: " ++ anthropic.Text c ++ LF) ;;;
        dispatch a rest toolResults
      else if anthropic.Type_ c =? "tool_use" then
        result <- executeTool a (anthropic.ID c) (anthropic.Name c) (anthropic.Input c) ;;
        dispatch a rest (toolResults ++ [result])
      else dispatch a rest toolResults
  end.

(** *** [Run] as a machine

    The loop never ends by itself, so [Run] is a transition function.  A state
    holds the three local variables the loop keeps alive and the place the
    control is at: the loop head (line 67), the inference call (line 78), the
    dispatch of a reply (lines 84-99), or the end of the function. *)

Inductive Control :=
| AtLoopHead
| AtInference
| AtDispatch (message : anthropic.Message)
| Returned (err : option error)
| Panicked (v : error).

Record RunState := mkRun {
  conversation : list anthropic.MessageParam;
  readUserInput : bool;
  control : Control;
  world : World
}.

Definition prompt_you : string := ESC ++ "[94mYou" ++ ESC ++ "[0m: ".

Definition Run_start (w : World) : RunState :=
  let '(_, w1) := Print ("Chat with Claude Code (use 'ctrl-c' to quit)" ++ LF) w in
  mkRun [] true AtLoopHead w1.

Definition step (a : Agent) (s : RunState) : option RunState :=
  match control s with
  | AtLoopHead =>
      if readUserInput s then
        let '(_, w1) := Print prompt_you (world s) in
        let '((userInput, ok), w2) := getUserMessage a w1 in
        if negb ok then Some (mkRun (conversation s) (readUserInput s) (Returned None) w2)
        else
          let userMessage := anthropic.NewUserMessage [anthropic.NewTextBlock userInput] in
          Some (mkRun (conversation s ++ [userMessage]) (readUserInput s) AtInference w2)
      else Some (mkRun (conversation s) (readUserInput s) AtInference (world s))
  | AtInference =>
      match runInference a (conversation s) with
      | inr err => Some (mkRun (conversation s) (readUserInput s) (Returned (Some err)) (world s))
      | inl message =>
          Some (mkRun (conversation s ++ [anthropic.ToParam message]) (readUserInput s)
                      (AtDispatch message) (world s))
      end
  | AtDispatch message =>
      match dispatch a (anthropic.Content message) [] (world s) with
      | (Panic v, w1) => Some (mkRun (conversation s) (readUserInput s) (Panicked v) w1)
      | (Val toolResults, w1) =>
          if Nat.eqb (List.length toolResults) 0 then
            Some (mkRun (conversation s) true AtLoopHead w1)
          else
            Some (mkRun (conversation s ++ [anthropic.NewUserMessage toolResults]) false
                        AtLoopHead w1)
      end
  | Returned _ => None
  | Panicked _ => None
  end.

(** The states [Run] goes through when started in world [w0]. *)
Inductive reachable (a : Agent) (w0 : World) : RunState -> Prop :=
| reach_start : reachable a w0 (Run_start w0)
| reach_step s s' : reachable a w0 s -> step a s = Some s' -> reachable a w0 s'.

(** [n] transitions, for running the machine on a script. *)
Fixpoint run_steps (a : Agent) (n : nat) (s : RunState) : RunState :=
  match n with
  | 0 => s
  | S n' => match step a s with
            | Some s' => run_steps a n' s'
            | None => s
            end
  end.

(** ** The tools *)

(** An operation of the operating system as a computation. *)
Definition sys {A} (f : World -> A * World) : M A :=
  fun w => let '(a, w') := f w in (Val a, w').

Definition ask {A} (f : World -> A) : M A := fun w => (Val (f w), w).

(** *** ReadFile *)

Module ReadFileInput.
Record t := mk { Path : string }.
End ReadFileInput.

Definition Unmarshal_ReadFileInput (input : RawMessage) : ReadFileInput.t + error :=
  match json.Unmarshal "ReadFileInput" ["path"] input with
  | inl st => inl (ReadFileInput.mk (json.field st "path"))
  | inr err => inr err
  end.

Definition ReadFileInputSchema : anthropic.ToolInputSchemaParam :=
  [("path", "The relative path of a file in the working directory.")].

Definition ReadFile (input : RawMessage) : M (string * option error) :=
  match Unmarshal_ReadFileInput input with
  | inr err => panic err
  | inl readFileInput =>
      r <- ask (os.ReadFile (ReadFileInput.Path readFileInput)) ;;
      match r with
      | inr err => ret ("", Some err)
      | inl content => ret (content, None)
      end
  end.

Definition ReadFileDefinition : ToolDefinition := {|
  Name := "read_file";
  Description := "Read the contents of a given relative file path. Use this when you want to see what's inside a file. Do not use this with directory names.";
  InputSchema := ReadFileInputSchema;
  Function := ReadFile
|}.

(** *** ListFiles *)

Module ListFilesInput.
Record t := mk { Path : string }.
End ListFilesInput.

Definition Unmarshal_ListFilesInput (input : RawMessage) : ListFilesInput.t + error :=
  match json.Unmarshal "ListFilesInput" ["path"] input with
  | inl st => inl (ListFilesInput.mk (json.field st "path"))
  | inr err => inr err
  end.

Definition ListFilesInputSchema : anthropic.ToolInputSchemaParam :=
  [("path", "Optional relative path to list files from. Defaults to current directory if not provided.")].

(** The callback of the walk, applied to the visits in order: [files] grows by
    the relative path of every entry but the root of the walk. *)
Fixpoint collect (vs : list (list string * bool)) (files : list string) : list string :=
  match vs with
  | [] => files
  | (names, isDir) :: rest =>
      let relPath := filepath.Rel_visit names in
      if negb (relPath =? ".") then
        if isDir then collect rest (files ++ [relPath ++ "/"])
        else collect rest (files ++ [relPath])
      else collect rest files
  end.

(** [filepath.Walk(dir, callback)] up to the value of [files] at its end, or
    the error that ended the walk. *)
Definition Walk_collect (dir : string) (w : World) : list string + error :=
  match filepath.Walk dir w with
  | inr e => inr e
  | inl vs => inl (collect vs [])
  end.

Definition ListFiles (input : RawMessage) : M (string * option error) :=
  match Unmarshal_ListFilesInput input with
  | inr err => panic err
  | inl listFilesInput =>
      let dir := if negb (ListFilesInput.Path listFilesInput =? "")
                 then ListFilesInput.Path listFilesInput else "." in
      r <- ask (Walk_collect dir) ;;
      match r with
      | inr err => ret ("", Some err)
      | inl files => ret (json.Marshal files, None)
      end
  end.

Definition ListFilesDefinition : ToolDefinition := {|
  Name := "list_files";
  Description := "List files and directories at a given relative path. If no path is provided, lists files in the current directory.";
  InputSchema := ListFilesInputSchema;
  Function := ListFiles
|}.

(** *** EditFile *)

Module EditFileInput.
Record t := mk { Path : string; OldStr : string; NewStr : string }.
End EditFileInput.

Definition Unmarshal_EditFileInput (input : RawMessage) : EditFileInput.t + error :=
  match json.Unmarshal "EditFileInput" ["path"; "old_str"; "new_str"] input with
  | inl st => inl (EditFileInput.mk (json.field st "path") (json.field st "old_str")
                                    (json.field st "new_str"))
  | inr err => inr err
  end.

Definition EditFileInputSchema : anthropic.ToolInputSchemaParam :=
  [("path", "The path to the file");
   ("old_str", "Text to search for - must match exactly and must only have one match exactly");
   ("new_str", "Text to replace old_str with")].

Definition createNewFile (filePath content : string) : M (string * option error) :=
  let dir := path.Dir filePath in
  err <- (if negb (dir =? ".") then sys (os.MkdirAll dir) else ret None) ;;
  match err with
  | Some e => ret ("", Some (wrapError "failed to create directory: " e))
  | None =>
      err <- sys (os.WriteFile filePath content) ;;
      match err with
      | Some e => ret ("", Some (wrapError "failed to create file: " e))
      | None => ret ("Successfully created file " ++ filePath, None)
      end
  end.

Definition EditFile (input : RawMessage) : M (string * option error) :=
  match Unmarshal_EditFileInput input with
  | inr err => ret ("", Some err)
  | inl editFileInput =>
      let Path := EditFileInput.Path editFileInput in
      let OldStr := EditFileInput.OldStr editFileInput in
      let NewStr := EditFileInput.NewStr editFileInput in
      if (Path =? "") || (OldStr =? NewStr) then
        ret ("", Some (errorString "invalid input parameters"))
      else
        r <- ask (os.ReadFile Path) ;;
        match r with
        | inr err =>
            if os.IsNotExist err && (OldStr =? "") then createNewFile Path NewStr
            else ret ("", Some err)
        | inl content =>
            let oldContent := content in
            let newContent := strings.ReplaceAll oldContent OldStr NewStr in
            if (oldContent =? newContent) && negb (OldStr =? "") then
              ret ("", Some (errorString "old_str not found in file"))
            else
              err <- sys (os.WriteFile Path newContent) ;;
              match err with
              | Some e => ret ("", Some e)
              | None => ret ("OK", None)
              end
        end
  end.

Definition EditFileDefinition : ToolDefinition := {|
  Name := "edit_file";
  Description := "Make edits to a text file." ++ LF ++ LF
    ++ "Replaces 'old_str' with 'new_str' in the given file. 'old_str' and 'new_str' MUST be different from each other."
    ++ LF ++ LF
    ++ "If the file specified with path doesn't exist, it will be created." ++ LF;
  InputSchema := EditFileInputSchema;
  Function := EditFile
|}.

(** *** CommandExecution and FetchUrl: what lies outside the process *)

Module http.
Record Response := {
  Status : string;
  StatusCode : nat;
  Body : string + error      (* what [io.ReadAll(resp.Body)] gives *)
}.
Definition StatusOK : nat := 200.
End http.

Module html.
Inductive NodeType :=
| ErrorNode | TextNode | DocumentNode | ElementNode | CommentNode | DoctypeNode.

(** A parsed document; [Parent], [FirstChild] and [NextSibling] of the Go
    node are the tree structure. *)
Inductive Node := mkNode (Type_ : NodeType) (Data : string) (children : list Node).
End html.

Module CommandExecutionInput.
Record t := mk { Command : string }.
End CommandExecutionInput.

Definition Unmarshal_CommandExecutionInput (input : RawMessage)
  : CommandExecutionInput.t + error :=
  match json.Unmarshal "CommandExecutionInput" ["command"] input with
  | inl st => inl (CommandExecutionInput.mk (json.field st "command"))
  | inr err => inr err
  end.

Definition CommandExecutionSchema : anthropic.ToolInputSchemaParam :=
  [("command", "The command which should be executed.")].

Definition disallowed : list string :=
  ["rm "; "shutdown"; "reboot"; "kill "; "passwd"; "chown"; "chmod"; "sudo"; "su"].

(** The verb [%q] on a string of plain printable characters. *)
Definition fmt_q (s : string) : string := dquote ++ s ++ dquote.

Definition confirm_banner (command : string) : string :=
  ESC ++ "[92mExecuting command:" ++ ESC ++ "[0m " ++ command ++ LF.

Definition confirm_prompt : string :=
  ESC ++ "[93mAre you sure you want to execute this command? (yes/no): " ++ ESC ++ "[0m".

Module FetchUrlInput.
Record t := mk { Url : string }.
End FetchUrlInput.

Definition Unmarshal_FetchUrlInput (input : RawMessage) : FetchUrlInput.t + error :=
  match json.Unmarshal "FetchUrlInput" ["url"] input with
  | inl st => inl (FetchUrlInput.mk (json.field st "url"))
  | inr err => inr err
  end.

Definition FetchUrlInputSchema : anthropic.ToolInputSchemaParam :=
  [("url", "The url that should be fetched.")].

(** The closure [f] of [extractTextFromHTML], as the text it writes to the
    builder for node [n] whose parent holds [parent]. *)
Fixpoint visible_text (parent : option string) (n : html.Node) : string :=
  match n with
  | html.mkNode ty data children =>
      (match ty, parent with
       | html.TextNode, Some p =>
           if negb (p =? "script") && negb (p =? "style") then
             let text := strings.TrimSpace data in
             if negb (text =? "") then text ++ " " else ""
           else ""
       | _, _ => ""
       end)
      ++ String.concat "" (map (visible_text (Some data)) children)
  end.

Section Outside.

(** [bash -c command] started in a world: the combined output, the error of
    [CombinedOutput], and the file tree it leaves behind. *)
Variable exec_bash : string -> World -> (string * option error) * node.

(** [http.Get(url)] and [html.Parse]. *)
Variable http_Get : string -> World -> http.Response + error.
Variable html_Parse : string -> html.Node + error.

Definition CombinedOutput (command : string) : M (string * option error) :=
  fun w => let '(r, tree) := exec_bash command w in (Val r, os.with_root w tree).

Definition CommandExecution (input : RawMessage) : M (string * option error) :=
  match Unmarshal_CommandExecutionInput input with
  | inr err => ret ("", Some err)
  | inl commandInput =>
      let Command := CommandExecutionInput.Command commandInput in
      if Command =? "" then ret ("", Some (errorString "command cannot be empty"))
      else
        let lowerCmd := strings.ToLower Command in
        match find (strings.Contains lowerCmd) disallowed with
        | Some d =>
            ret ("", Some (errorString ("command contains disallowed operation: " ++ fmt_q d)))
        | None =>
            if strings.Contains lowerCmd "cd " then
              ret ("", Some (errorString "changing directories is not allowed"))
            else if Nat.ltb 256 (String.length Command) then
              ret ("", Some (errorString "command too long"))
            else if strings.Contains lowerCmd "/" || strings.Contains lowerCmd ".." then
              ret ("", Some (errorString
                "command cannot access files outside the current working directory"))
            else
              Print (confirm_banner Command) ;;;
              Print confirm_prompt ;;;
              confirmation <- fmt.Scanln "" ;;
              if negb (strings.ToLower confirmation =? "yes") then
                ret ("", Some (errorString "command execution cancelled by user"))
              else
                r <- CombinedOutput Command ;;
                let '(output, err) := r in
                Print (ESC ++ "[92mCommand output:" ++ ESC ++ "[0m " ++ output ++ LF) ;;;
                match err with
                | Some e =>
                    ret ("", Some (errorString ("command execution failed: " ++ Error e
                                                ++ LF ++ "Output: " ++ output)))
                | None => ret (output, None)
                end
        end
  end.

Definition CommandExecutionDefinition : ToolDefinition := {|
  Name := "command_execution";
  Description := "Execute commands in Bash. You can execute commands only in the current working directory.";
  InputSchema := CommandExecutionSchema;
  Function := CommandExecution
|}.

Definition extractTextFromHTML (htmlContent : string) : string + error :=
  match html_Parse htmlContent with
  | inr err => inr err
  | inl doc => inl (strings.TrimSpace (visible_text None doc))
  end.

Definition FetchUrl (input : RawMessage) : M (string * option error) :=
  match Unmarshal_FetchUrlInput input with
  | inr err => ret ("", Some err)
  | inl fetchUrlInput =>
      let Url := FetchUrlInput.Url fetchUrlInput in
      if Url =? "" then ret ("", Some (errorString "url cannot be empty"))
      else
        r <- ask (http_Get Url) ;;
        match r with
        | inr err => ret ("", Some (wrapError "failed to fetch URL: " err))
        | inl resp =>
            if negb (Nat.eqb (http.StatusCode resp) http.StatusOK) then
              ret ("", Some (errorString ("failed to fetch URL: " ++ http.Status resp)))
            else
              match http.Body resp with
              | inr err => ret ("", Some (wrapError "failed to read response body: " err))
              | inl body =>
                  match extractTextFromHTML body with
                  | inr err => ret ("", Some (wrapError "failed to clean HTML: " err))
                  | inl cleaned => ret (cleaned, None)
                  end
              end
        end
  end.

Definition FetchUrlDefinition : ToolDefinition := {|
  Name := "fetch_url";
  Description := "Fetch the contents of a URL. Use this to retrieve data from the web.";
  InputSchema := FetchUrlInputSchema;
  Function := FetchUrl
|}.

(** The registry and the agent that [main] builds. *)
Definition main_tools : list ToolDefinition :=
  [ReadFileDefinition; ListFilesDefinition; EditFileDefinition;
   CommandExecutionDefinition; FetchUrlDefinition].

Definition main_agent (client : anthropic.MessageNewParams -> anthropic.Message + error)
  : Agent := NewAgent client bufio.ScanText main_tools.

End Outside.

(** ** The vocabulary of the specification

    The conversation of the program is a list of messages with a role; the
    turns of the specification are recognised by role and content. *)

Definition isToolResult (b : anthropic.ContentBlockParamUnion) : bool :=
  match b with
  | anthropic.OfToolResult _ _ _ => true
  | _ => false
  end.

Definition isUser (m : anthropic.MessageParam) : bool :=
  match anthropic.Role m with
  | anthropic.MessageParamRoleUser => true
  | anthropic.MessageParamRoleAssistant => false
  end.

(** A UserTurn: a user message that holds one text payload. *)
Definition is_UserTurn (m : anthropic.MessageParam) : bool :=
  isUser m &&
  match anthropic.ContentParam m with
  | [anthropic.OfText _] => true
  | _ => false
  end.

Definition is_AssistantTurn (m : anthropic.MessageParam) : bool := negb (isUser m).

(** A ToolResultTurn: a user message that holds a sequence of tool results
    and nothing else; the sequence without any entry counts. *)
Definition is_ToolResultTurn (m : anthropic.MessageParam) : bool :=
  isUser m && forallb isToolResult (anthropic.ContentParam m).

(** The invocation ids of the ToolUseSegments of a turn, in order. *)
Definition tool_use_ids (m : anthropic.MessageParam) : list string :=
  flat_map (fun b => match b with
                     | anthropic.OfToolUse id _ _ => [id]
                     | _ => []
                     end) (anthropic.ContentParam m).

(** For every block of a turn, the invocation id it answers, if it is a result. *)
Definition tool_result_ids (m : anthropic.MessageParam) : list (option string) :=
  map (fun b => match b with
                | anthropic.OfToolResult id _ _ => Some id
                | _ => None
                end) (anthropic.ContentParam m).

(** The denylist as section 4.5 and the claim on the guardrail word it. *)
Definition spec_denylist : list string :=
  ["rm"; "shutdown"; "reboot"; "kill"; "passwd"; "chown"; "chmod"; "sudo"; "su"].

(** A command that no check of [CommandExecution] turns down. *)
Definition passes_guardrail (command : string) : Prop :=
  command <> "" /\
  (forall d, In d disallowed -> strings.Contains (strings.ToLower command) d = false) /\
  strings.Contains (strings.ToLower command) "cd " = false /\
  String.length command <= 256 /\
  strings.Contains (strings.ToLower command) "/" = false /\
  strings.Contains (strings.ToLower command) ".." = false.

(** A cut of a string at the occurrences of [old] that a scan from the left
    finds: in every piece but the last, followed by [old], the only occurrence
    of [old] is the one at the end; the last piece holds none. *)
Inductive leftmost_pieces (old : string) : list string -> Prop :=
| pieces_last p : strings.Contains p old = false -> leftmost_pieces old [p]
| pieces_more p ps :
    (forall a b, p ++ old = a ++ old ++ b -> b = "") ->
    leftmost_pieces old ps -> leftmost_pieces old (p :: ps).

(** The entries of a directory by name ([name] for a file, [name/] for a
    directory), in the order of the names: the immediate entries only. *)
Definition immediate_entries (n : node) : list string :=
  match n with
  | File _ => []
  | Dir entries =>
      map (fun e => match snd e with
                    | Dir _ => fst e ++ "/"
                    | File _ => fst e
                    end) (filepath.sort_by_name entries)
  end.

(** [n] is reached from [d] through the names [names], one entry at a time. *)
Inductive descends : node -> list string -> node -> Prop :=
| descends_here d : descends d [] d
| descends_entry entries name child names n :
    In (name, child) entries -> descends child names n ->
    descends (Dir entries) (name :: names) n.

(** [info.IsDir()] of a node. *)
Definition IsDir (n : node) : bool :=
  match n with
  | Dir _ => true
  | File _ => false
  end.

(** How [ListFiles] writes an entry. *)
Definition listed (names : list string) (n : node) : string :=
  match n with
  | Dir _ => filepath.Rel_visit names ++ "/"
  | File _ => filepath.Rel_visit names
  end.

(** The ids of the tool requests of a reply, read off the reply itself. *)
Fixpoint requested (content : list anthropic.ContentBlockUnion) : list string :=
  match content with
  | [] => []
  | c :: rest =>
      if anthropic.Type_ c =? "text" then requested rest
      else if anthropic.Type_ c =? "tool_use" then anthropic.ID c :: requested rest
      else requested rest
  end.

(** What the loop keeps true of two neighbours of the conversation: the roles
    alternate; after a reply without a tool request comes a UserTurn; after a
    reply with tool requests come their results, one per request, in order. *)
Definition ok_pair (m1 m2 : anthropic.MessageParam) : Prop :=
  isUser m2 = negb (isUser m1) /\
  (isUser m1 = false -> tool_use_ids m1 = [] -> is_UserTurn m2 = true) /\
  (isUser m1 = false -> tool_use_ids m1 <> [] ->
   tool_result_ids m2 = map Some (tool_use_ids m1)).

Definition ordered (c : list anthropic.MessageParam) : Prop :=
  (forall m l, c = m :: l -> is_UserTurn m = true) /\
  (forall l1 m1 m2 l2, c = (l1 ++ m1 :: m2 :: l2)%list -> ok_pair m1 m2).

Definition last_is (P : anthropic.MessageParam -> Prop) (c : list anthropic.MessageParam)
  : Prop := exists l m, c = (l ++ [m])%list /\ P m.

(** What the place of the control says about the end of the conversation. *)
Definition at_control (s : RunState) : Prop :=
  match control s with
  | AtLoopHead =>
      if readUserInput s
      then conversation s = []
           \/ last_is (fun m => isUser m = false /\ tool_use_ids m = []) (conversation s)
      else last_is (fun m => isUser m = true) (conversation s)
  | AtInference => last_is (fun m => isUser m = true) (conversation s)
  | AtDispatch message => last_is (fun m => m = anthropic.ToParam message) (conversation s)
  | Returned _ => True
  | Panicked _ => True
  end.

Definition Inv (s : RunState) : Prop := ordered (conversation s) /\ at_control s.

(** ** A scripted environment, for running the definitions *)

Module Demo.

(** A JSON object with string members, as the SDK hands over arguments. *)
Definition object (members : list (string * string)) : RawMessage :=
  "{" ++ strings.Join (map (fun m => json.quote (fst m) ++ ":" ++ json.quote (snd m)) members) ","
  ++ "}".

(** A shell that knows [echo] and [false] and changes no file. *)
Definition bash (command : string) (w : World) : (string * option error) * node :=
  if prefix "echo " command then ((strings.drop 5 command ++ LF, None), root w)
  else if command =? "false" then (("", Some (ExitError "exit status 1")), root w)
  else (("bash: line 1: " ++ command ++ ": command not found" ++ LF,
         Some (ExitError "exit status 127")), root w).

Definition Get (url : string) (w : World) : http.Response + error :=
  inr (errorString "dial tcp: lookup failed").

Definition Parse (htmlContent : string) : html.Node + error :=
  inl (html.mkNode html.DocumentNode ""
         [html.mkNode html.ElementNode "html"
            [html.mkNode html.ElementNode "body"
               [html.mkNode html.TextNode htmlContent []]]]).

(** Arguments whose path is a number, and arguments cut short. *)
Definition number_path : RawMessage := "{" ++ dquote ++ "path" ++ dquote ++ ": 5}".
Definition cut_short : RawMessage := "{" ++ dquote ++ "path" ++ dquote ++ ": ".

Definition tool_use (id name : string) (input : RawMessage) : anthropic.ContentBlockUnion :=
  {| anthropic.Type_ := "tool_use"; anthropic.Text := ""; anthropic.ID := id;
     anthropic.Name := name; anthropic.Input := input |}.

Definition text (t : string) : anthropic.ContentBlockUnion :=
  {| anthropic.Type_ := "text"; anthropic.Text := t; anthropic.ID := "";
     anthropic.Name := ""; anthropic.Input := "" |}.

(** The model of the end-to-end scenario: asked once, it calls [list_files]
    with no path; shown the result, it answers in words. *)
Definition client (params : anthropic.MessageNewParams) : anthropic.Message + error :=
  match List.length (anthropic.Messages params) with
  | 1 => inl {| anthropic.Content :=
                  [text "Let me look."; tool_use "toolu_01" "list_files" (object [])] |}
  | 3 => inl {| anthropic.Content := [text "There are two files and a directory."] |}
  | _ => inr (errorString "connection reset by peer")
  end.

Definition agent : Agent := main_agent bash Get Parse client.

Definition home : node :=
  Dir [("notes.txt", File "alpha beta alpha");
       ("src", Dir [("main.go", File "package main")]);
       ("go.mod", File "module agent")].

(** A system that refuses nothing, with a terminal for its input: a read
    finds one line. *)
Definition line_ready (unread : string) : nat :=
  match bufio.IndexByte unread (ascii_of_nat 10) with
  | Some i => i + 1
  | None => String.length unread
  end.

Definition terminal : System := mkSystem (fun _ => None) line_ready.

Definition world (input : string) : World :=
  mkWorld (Dir [("home", Dir [("u", home)])]) ["home"; "u"] input []
          bufio.NewScanner terminal.

(** The same world with its input from a pipe that was filled beforehand: a
    read finds everything. *)
Definition pipe : System := mkSystem (fun _ => None) (fun unread => String.length unread).

Definition piped (input : string) : World :=
  mkWorld (Dir [("home", Dir [("u", home)])]) ["home"; "u"] input []
          bufio.NewScanner pipe.

(** The same world on a system that refuses some calls. *)
Definition world_where (faults : Syscall -> option Fault) (input : string) : World :=
  mkWorld (Dir [("home", Dir [("u", home)])]) ["home"; "u"] input []
          bufio.NewScanner (mkSystem faults line_ready).

Definition call_name (call : Syscall) : string * string :=
  match call with
  | sys_open name => ("open", name)
  | sys_creat name => ("creat", name)
  | sys_write name => ("write", name)
  | sys_mkdir name => ("mkdir", name)
  | sys_stat name => ("stat", name)
  | sys_lstat name => ("lstat", name)
  | sys_readdir name => ("readdir", name)
  end.

(** The system refuses one call, for one reason. *)
Definition refuses (call : Syscall) (f : Fault) : Syscall -> option Fault :=
  fun c => if (fst (call_name c) =? fst (call_name call))
              && (snd (call_name c) =? snd (call_name call))
           then Some f else None.

(** The session of the end-to-end scenario: one line from the operator, then
    the end of the input. *)
Definition session : RunState :=
  run_steps agent 7 (Run_start (world ("list files in ." ++ LF))).

(** The same session, stopped where the first reply is about to be dispatched. *)
Definition session_at_dispatch : RunState :=
  run_steps agent 2 (Run_start (world ("list files in ." ++ LF))).

End Demo.

(** ** More vocabulary: runs, replies, names *)

(** [s'] is [s] after some transitions of [Run]. *)
Inductive reaches (a : Agent) : RunState -> RunState -> Prop :=
| reaches_here s : reaches a s s
| reaches_step s s' s'' : reaches a s s' -> step a s' = Some s'' -> reaches a s s''.

(** The line [Run] prints for a text block. *)
Definition claude_line (text : string) : string :=
  ESC ++ "[93mClaude" ++ ESC ++ "[0m: " ++ text ++ LF.

(** The texts of the text blocks of a reply, in order. *)
Fixpoint texts (content : list anthropic.ContentBlockUnion) : list string :=
  match content with
  | [] => []
  | c :: rest =>
      if anthropic.Type_ c =? "text" then anthropic.Text c :: texts rest else texts rest
  end.



(** A file name with no directory part: not empty, no slash, neither of the
    two dot names. *)
Definition plain_name (p : string) : Prop :=
  p <> "" /\ strings.Contains p "/" = false /\ p <> "." /\ p <> "..".

(** No white-space byte of ASCII at the front or at the end. *)
Definition no_blank_ends (s : string) : Prop :=
  forall c rest, s = String c rest \/ s = rest ++ String c "" -> strings.isSpace c = false.

(** A text node without children. *)
Definition text_leaf (n : html.Node) : Prop :=
  exists data, n = html.mkNode html.TextNode data [].

(** A word in ASCII: bytes below 128, none of them white space. *)
Fixpoint ascii_word (s : string) : bool :=
  match s with
  | EmptyString => true
  | String c s' =>
      Nat.ltb (nat_of_ascii c) 128 && negb (strings.isSpace c) && ascii_word s'
  end.

(** A scanner between two calls of [Scan] that has met no error: what it holds
    lies within its buffer, and the buffer within its limit. *)
Definition scanning (s : Scanner.t) : Prop :=
  Scanner.err s = None
  /\ (bufio.end_ s <= Scanner.buf_len s)%N
  /\ (Scanner.buf_len s <= bufio.MaxScanTokenSize)%N.

(** The input as the scanner of [main] sees it: what it holds, then what is
    left on the descriptor. *)
Definition unread (w : World) : string := Scanner.held (scanner w) ++ stdin w.

Definition newline : ascii := ascii_of_nat 10.

(** The world once [CommandExecution] has printed its banner and its question. *)
Definition asked (command : string) (w : World) : World :=
  mkWorld (root w) (cwd w) (stdin w) (stdout w ++ [confirm_banner command; confirm_prompt])
          (scanner w) (system w).

(** * Properties *)

(** ** The dispatcher *)

Lemma lookupTool_none (ts : list ToolDefinition) (name : string) :
  (forall tool, In tool ts -> Name tool <> name) -> lookupTool ts name = None.
Proof.
  induction ts as [|t ts IH]; intros H; simpl; [reflexivity|].
  destruct (String.eqb_spec (Name t) name) as [E|_].
  - exfalso. apply (H t); [left; reflexivity | exact E].
  - apply IH. intros tool Hin. apply H. right. exact Hin.
Qed.

Lemma dispatch_unregistered (a : Agent) (name : string)
    (content : list anthropic.ContentBlockUnion) :
  lookupTool (tools a) name = None ->
  (forall c, In c content -> anthropic.Type_ c = "tool_use" -> anthropic.Name c = name) ->
  forall toolResults w, exists rs w', dispatch a content toolResults w = (Val rs, w').
Proof.
  intros L. induction content as [|c rest IH]; intros Hall acc w; simpl.
  - eexists _, _. reflexivity.
  - assert (Hrest : forall c0, In c0 rest -> anthropic.Type_ c0 = "tool_use" ->
                               anthropic.Name c0 = name).
    { intros c0 Hin. apply Hall. right. exact Hin. }
    destruct (anthropic.Type_ c =? "text") eqn:Et.
    + unfold bind, Print. apply (IH Hrest).
    + destruct (String.eqb_spec (anthropic.Type_ c) "tool_use") as [Eu|_].
      * unfold bind, executeTool. rewrite (Hall c (or_introl eq_refl) Eu), L.
        apply (IH Hrest).
      * apply (IH Hrest).
Qed.

(** C4: a tool name that no descriptor of the registry carries gives, for any
    arguments, the error result with the text [tool not found]; nothing is
    printed or run and nothing panics.  The loop goes on: a reply whose tool
    requests all carry such a name takes [Run] back to the loop head, and a
    reply that is one such request does so with the error result appended. *)
Theorem executeTool_tool_not_found (a : Agent) (id name : string) (input : RawMessage)
    (w : World) :
  (forall tool, In tool (tools a) -> Name tool <> name) ->
  executeTool a id name input w
    = (Val (anthropic.NewToolResultBlock id "tool not found" true), w)
  /\ (forall s message,
        control s = AtDispatch message ->
        (forall c, In c (anthropic.Content message) ->
                   anthropic.Type_ c = "tool_use" -> anthropic.Name c = name) ->
        exists s', step a s = Some s' /\ control s' = AtLoopHead)
  /\ (forall s c,
        control s = AtDispatch {| anthropic.Content := [c] |} ->
        anthropic.Type_ c = "tool_use" -> anthropic.Name c = name ->
        step a s = Some (mkRun
          (conversation s ++ [anthropic.NewUserMessage
             [anthropic.OfToolResult (anthropic.ID c) "tool not found" true]])
          false AtLoopHead (world s))).
Proof.
  intros H. pose proof (lookupTool_none (tools a) H) as L. split; [|split].
  - unfold executeTool. rewrite L. reflexivity.
  - intros s message Hc Hall. unfold step. rewrite Hc.
    destruct (dispatch_unregistered a _ L Hall [] (world s)) as (rs & w' & ->).
    destruct (Nat.eqb (List.length rs) 0); eexists; split; reflexivity.
  - intros s c Hc Ht Hn. unfold step. rewrite Hc. simpl.
    rewrite Ht. simpl. unfold bind, executeTool. rewrite Hn, L. reflexivity.
Qed.

Lemma executeTool_tool_not_found_witness :
  (forall tool, In tool (tools Demo.agent) -> Name tool <> "launch_rocket")
  /\ executeTool Demo.agent "toolu_07" "launch_rocket" (Demo.object []) (Demo.world "")
     = (Val (anthropic.OfToolResult "toolu_07" "tool not found" true), Demo.world "").
Proof.
  assert (H : forall tool, In tool (tools Demo.agent) -> Name tool <> "launch_rocket").
  { intros tool Hin. simpl in Hin.
    repeat (destruct Hin as [<-|Hin]; [discriminate|]). contradiction. }
  split; [exact H|].
  exact (proj1 (executeTool_tool_not_found Demo.agent "toolu_07" (Demo.object [])
                  (Demo.world "") H)).
Defined.

(** C3: the dispatcher does not always return a result.  [ReadFile] and
    [ListFiles] panic when their arguments do not decode, and the panic goes
    through [executeTool]; [EditFile], on the same arguments, hands the error
    back and [executeTool] wraps it into an error result. *)
Theorem executeTool_read_file_panics
    (exec_bash : string -> World -> (string * option error) * node)
    (http_Get : string -> World -> http.Response + error)
    (html_Parse : string -> html.Node + error)
    (client : anthropic.MessageNewParams -> anthropic.Message + error) (w : World) :
  let a := main_agent exec_bash http_Get html_Parse client in
  let said name input := mkWorld (root w) (cwd w) (stdin w)
                                 (stdout w ++ [tool_trace name input])
                                 (scanner w) (system w) in
  executeTool a "toolu_01" "read_file" Demo.number_path w
    = (Panic (UnmarshalTypeError "number" "Go struct field ReadFileInput.path of type string"),
       said "read_file" Demo.number_path)
  /\ executeTool a "toolu_01" "read_file" Demo.cut_short w
    = (Panic (SyntaxError "invalid JSON input"), said "read_file" Demo.cut_short)
  /\ executeTool a "toolu_01" "list_files" Demo.number_path w
    = (Panic (UnmarshalTypeError "number" "Go struct field ListFilesInput.path of type string"),
       said "list_files" Demo.number_path)
  /\ executeTool a "toolu_01" "edit_file" Demo.number_path w
    = (Val (anthropic.OfToolResult "toolu_01"
              "json: cannot unmarshal number into Go struct field EditFileInput.path of type string"
              true),
       said "edit_file" Demo.number_path).
Proof.
  intros a said. repeat split; reflexivity.
Qed.

(** ** The conversation *)

Lemma snoc_cases {A} (l : list A) : l = [] \/ exists l' x, l = (l' ++ [x])%list.
Proof.
  induction l as [|a l IH]; [left; reflexivity|right].
  destruct IH as [->|(l' & x & ->)].
  - exists [], a. reflexivity.
  - exists (a :: l'), x. reflexivity.
Qed.

Lemma ordered_nil : ordered [].
Proof.
  split.
  - intros m l H. discriminate.
  - intros l1 m1 m2 l2 H. destruct l1; discriminate.
Qed.

Lemma ordered_snoc (c : list anthropic.MessageParam) (m : anthropic.MessageParam) :
  ordered c ->
  (c = [] -> is_UserTurn m = true) ->
  (forall l x, c = (l ++ [x])%list -> ok_pair x m) ->
  ordered (c ++ [m]).
Proof.
  intros [Hhead Hpairs] Hfirst Hlast. split.
  - intros m0 l E. destruct c as [|x c'].
    + injection E as <- _. apply Hfirst. reflexivity.
    + injection E as -> _. apply (Hhead m0 c'). reflexivity.
  - intros l1 m1 m2 l2 E. destruct (snoc_cases l2) as [->|(l2' & x & ->)].
    + change (l1 ++ [m1; m2])%list with (l1 ++ [m1] ++ [m2])%list in E.
      rewrite app_assoc in E. apply app_inj_tail in E as [-> ->].
      apply (Hlast l1 m1). reflexivity.
    + change (l1 ++ m1 :: m2 :: l2' ++ [x])%list with (l1 ++ (m1 :: m2 :: l2') ++ [x])%list in E.
      rewrite app_assoc in E. apply app_inj_tail in E as [-> _].
      apply (Hpairs l1 m1 m2 l2'). reflexivity.
Qed.

Lemma executeTool_result (a : Agent) (id name : string) (input : RawMessage)
    (w w' : World) (r : anthropic.ContentBlockParamUnion) :
  executeTool a id name input w = (Val r, w') ->
  exists content is_error, r = anthropic.OfToolResult id content is_error.
Proof.
  unfold executeTool. destruct (lookupTool (tools a) name) as [toolDef|].
  - unfold bind, Print.
    destruct (Function toolDef input _) as [[[response [err|]]|v] w1]; intros E.
    + injection E as <- _. eauto.
    + injection E as <- _. eauto.
    + discriminate.
  - intros E. injection E as <- _. eauto.
Qed.

Lemma tool_use_ids_ToParam (message : anthropic.Message) :
  tool_use_ids (anthropic.ToParam message) = requested (anthropic.Content message).
Proof.
  unfold tool_use_ids, anthropic.ToParam. simpl.
  induction (anthropic.Content message) as [|c rest IH]; simpl; [reflexivity|].
  unfold anthropic.BlockToParam.
  destruct (anthropic.Type_ c =? "text"); [exact IH|].
  destruct (anthropic.Type_ c =? "tool_use"); simpl; [f_equal|]; exact IH.
Qed.

Lemma dispatch_ids (a : Agent) (content : list anthropic.ContentBlockUnion) :
  forall toolResults w rs w',
    dispatch a content toolResults w = (Val rs, w') ->
    tool_result_ids (anthropic.NewUserMessage rs)
    = (tool_result_ids (anthropic.NewUserMessage toolResults) ++ map Some (requested content))%list.
Proof.
  induction content as [|c rest IH]; intros acc w rs w' E; simpl in E.
  - injection E as <- _. simpl. rewrite app_nil_r. reflexivity.
  - simpl. destruct (anthropic.Type_ c =? "text").
    + unfold bind, Print in E. apply IH in E. exact E.
    + destruct (anthropic.Type_ c =? "tool_use").
      * unfold bind in E.
        destruct (executeTool a (anthropic.ID c) (anthropic.Name c) (anthropic.Input c) w)
          as [[r|v] w1] eqn:Ex; [|discriminate].
        apply executeTool_result in Ex as (t & e & ->).
        apply IH in E. rewrite E. unfold tool_result_ids. simpl.
        rewrite map_app, <- app_assoc. reflexivity.
      * apply IH in E. exact E.
Qed.

Lemma results_are_results (rs : list anthropic.ContentBlockParamUnion) (ids : list string) :
  tool_result_ids (anthropic.NewUserMessage rs) = map Some ids ->
  forallb isToolResult rs = true.
Proof.
  unfold tool_result_ids. simpl. revert ids.
  induction rs as [|r rs IH]; intros ids H; [reflexivity|].
  destruct ids as [|i ids]; [discriminate|]. simpl in H. injection H as Hr Hrs.
  simpl. rewrite (IH _ Hrs). destruct r; try discriminate. reflexivity.
Qed.

Lemma Inv_start (w0 : World) : Inv (Run_start w0).
Proof.
  split; [apply ordered_nil | left; reflexivity].
Qed.

Lemma is_UserTurn_not_results (m : anthropic.MessageParam) :
  is_UserTurn m = true -> is_ToolResultTurn m = false.
Proof.
  unfold is_UserTurn, is_ToolResultTurn.
  destruct (isUser m); simpl; [|reflexivity].
  destruct (anthropic.ContentParam m) as [|[t| | |] [|b l]]; simpl; congruence.
Qed.

(** What the order of the conversation says of one message and the one
    before it. *)
Lemma ordered_kinds (c : list anthropic.MessageParam) :
  ordered c ->
  forall l1 m l2, c = (l1 ++ m :: l2)%list ->
    is_UserTurn m = true \/ is_AssistantTurn m = true
    \/ (is_ToolResultTurn m = true /\ anthropic.ContentParam m <> []).
Proof.
  intros [Hhead Hpairs] l1 m l2 E. destruct (snoc_cases l1) as [->|(l0 & p & ->)].
  - left. exact (Hhead _ _ E).
  - rewrite <- app_assoc in E. destruct (Hpairs _ _ _ _ E) as (Halt & Htext & Hres).
    unfold is_AssistantTurn. destruct (isUser p) eqn:Hp.
    + right. left. rewrite Halt. reflexivity.
    + destruct (tool_use_ids p) as [|i ids] eqn:Hids.
      * left. exact (Htext eq_refl eq_refl).
      * right. right. assert (Hr : tool_result_ids m = map Some (i :: ids)).
        { apply Hres; [reflexivity|discriminate]. }
        split.
        -- unfold is_ToolResultTurn. rewrite Halt. cbn [negb andb].
           exact (@results_are_results (anthropic.ContentParam m) (i :: ids) Hr).
        -- intros Hn. unfold tool_result_ids in Hr. rewrite Hn in Hr. discriminate Hr.
Qed.

Lemma Inv_step (a : Agent) (s s' : RunState) : Inv s -> step a s = Some s' -> Inv s'.
Proof.
  intros [Hord Hctl] Hstep. unfold step in Hstep. unfold at_control in Hctl.
  destruct (control s) as [| |message|err|v] eqn:Ec; try discriminate.
  - (* the loop head *)
    destruct (readUserInput s) eqn:Er.
    + unfold Print in Hstep.
      destruct (getUserMessage a _) as [[userInput ok] w2].
      destruct ok; simpl in Hstep; injection Hstep as <-.
      * split; simpl.
        -- apply ordered_snoc; [exact Hord|reflexivity|].
           intros l x E. destruct Hctl as [H0|(l0 & m0 & E0 & Hu & Hn)].
           ++ rewrite H0 in E. destruct l; discriminate.
           ++ rewrite E0 in E. apply app_inj_tail in E as [_ <-].
              repeat split; simpl; try reflexivity.
              ** unfold isUser in *. simpl. rewrite Hu. reflexivity.
              ** intros _ Hne. contradiction.
        -- unfold at_control. simpl. eexists _, _. split; [reflexivity|reflexivity].
      * split; simpl; [exact Hord|exact I].
    + injection Hstep as <-. split; simpl; [exact Hord|].
      unfold at_control. simpl. exact Hctl.
  - (* the inference call *)
    destruct (runInference a (conversation s)) as [message|err]; injection Hstep as <-.
    + split; simpl.
      * apply ordered_snoc; [exact Hord| |].
        -- intros E0. destruct Hctl as (l0 & m0 & E1 & _). rewrite E0 in E1.
           destruct l0; discriminate.
        -- intros l x E. destruct Hctl as (l0 & m0 & E0 & Hu).
           rewrite E0 in E. apply app_inj_tail in E as [_ <-].
           repeat split; simpl.
           ++ rewrite Hu. reflexivity.
           ++ intros Hf. congruence.
           ++ intros Hf. congruence.
      * unfold at_control. simpl. eexists _, _. split; reflexivity.
    + split; simpl; [exact Hord|exact I].
  - (* the dispatch of a reply *)
    destruct Hctl as (l0 & m0 & E0 & ->).
    destruct (dispatch a (anthropic.Content message) [] (world s)) as [[rs|v] w1] eqn:Ed.
    + pose proof (dispatch_ids _ _ _ _ Ed) as Hids. simpl in Hids.
      rewrite <- tool_use_ids_ToParam in Hids.
      destruct rs as [|r rs]; simpl in Hstep; injection Hstep as <-.
      * split; simpl; [exact Hord|]. unfold at_control. simpl. right.
        exists l0, (anthropic.ToParam message). repeat split; [exact E0|].
        unfold tool_result_ids in Hids. simpl in Hids.
        destruct (tool_use_ids (anthropic.ToParam message)); [reflexivity|discriminate].
      * split; simpl.
        -- apply ordered_snoc; [exact Hord| |].
           ++ intros E1. rewrite E1 in E0. destruct l0; discriminate.
           ++ intros l x E. rewrite E0 in E. apply app_inj_tail in E as [_ <-].
              repeat split; simpl.
              ** intros _ Hn. rewrite Hn in Hids. discriminate.
              ** intros _ _. exact Hids.
        -- unfold at_control. simpl. eexists _, _. split; reflexivity.
    + injection Hstep as <-. split; simpl; [exact Hord|exact I].
Qed.

Lemma reachable_Inv (a : Agent) (w0 : World) (s : RunState) : reachable a w0 s -> Inv s.
Proof.
  induction 1 as [|s s' _ IH Hstep]; [apply Inv_start | exact (Inv_step a IH Hstep)].
Qed.

Lemma reachable_run_steps (a : Agent) (w0 : World) (n : nat) :
  forall s, reachable a w0 s -> reachable a w0 (run_steps a n s).
Proof.
  induction n as [|n IH]; intros s H; simpl; [exact H|].
  destruct (step a s) as [s'|] eqn:E; [|exact H].
  apply IH. exact (reach_step H E).
Qed.

(** C1: in every state the loop reaches, no two UserTurns are neighbours in the
    conversation, and a ToolResultTurn (a user message of tool results and
    nothing else, the one without any result included) stands nowhere but
    right after an AssistantTurn that holds at least one tool request.  More
    than that: the roles alternate, so no two user messages of any kind are
    neighbours; and every message of the conversation is a UserTurn, an
    AssistantTurn, or a ToolResultTurn with at least one result, so a user
    message without content never enters the conversation. *)
Theorem conversation_turn_order (a : Agent) (w0 : World) (s : RunState) :
  reachable a w0 s ->
  (forall l1 m1 m2 l2, conversation s = (l1 ++ m1 :: m2 :: l2)%list ->
     is_UserTurn m1 && is_UserTurn m2 = false) /\
  (forall l1 m l2, conversation s = (l1 ++ m :: l2)%list -> is_ToolResultTurn m = true ->
     exists l0 p, l1 = (l0 ++ [p])%list /\ is_AssistantTurn p = true /\ tool_use_ids p <> []) /\
  (forall l1 m1 m2 l2, conversation s = (l1 ++ m1 :: m2 :: l2)%list ->
     isUser m2 = negb (isUser m1)) /\
  (forall l1 m l2, conversation s = (l1 ++ m :: l2)%list ->
     is_UserTurn m = true \/ is_AssistantTurn m = true
     \/ (is_ToolResultTurn m = true /\ anthropic.ContentParam m <> [])).
Proof.
  intros H. apply reachable_Inv in H as [Hord _]. pose proof Hord as [Hhead Hpairs].
  split; [|split; [|split]].
  - intros l1 m1 m2 l2 E. destruct (Hpairs _ _ _ _ E) as (Halt & _ & _).
    unfold is_UserTurn. rewrite Halt. destruct (isUser m1); simpl; [|reflexivity].
    apply andb_false_r.
  - intros l1 m l2 E Hm. destruct (snoc_cases l1) as [->|(l0 & p & ->)].
    + apply Hhead in E. apply is_UserTurn_not_results in E. congruence.
    + exists l0, p. split; [reflexivity|].
      rewrite <- app_assoc in E. destruct (Hpairs _ _ _ _ E) as (Halt & Htext & _).
      assert (Hu : isUser m = true).
      { unfold is_ToolResultTurn in Hm. apply andb_prop in Hm as [Hu _]. exact Hu. }
      rewrite Hu in Halt. symmetry in Halt. unfold is_AssistantTurn. split; [exact Halt|].
      intros Hn. apply negb_true_iff in Halt.
      apply is_UserTurn_not_results in Htext; [congruence|exact Halt|exact Hn].
  - intros l1 m1 m2 l2 E. exact (proj1 (Hpairs _ _ _ _ E)).
  - exact (ordered_kinds Hord).
Qed.

(** C2: in every state the loop reaches, the turn that follows a reply with
    k >= 1 tool requests holds exactly k blocks, each the result for the
    request at the same place, by invocation id; and from the dispatch of such
    a reply the next transition appends that turn and goes back to the loop
    head without asking for user input, unless a handler panics. *)
Theorem tool_results_follow_requests (a : Agent) (w0 : World) (s : RunState) :
  reachable a w0 s ->
  (forall l1 m1 m2 l2, conversation s = (l1 ++ m1 :: m2 :: l2)%list ->
     is_AssistantTurn m1 = true -> tool_use_ids m1 <> [] ->
     isUser m2 = true /\
     List.length (anthropic.ContentParam m2) = List.length (tool_use_ids m1) /\
     tool_result_ids m2 = map Some (tool_use_ids m1)) /\
  (forall message, control s = AtDispatch message ->
     tool_use_ids (anthropic.ToParam message) <> [] ->
     exists s', step a s = Some s' /\
       ((exists v, control s' = Panicked v /\ conversation s' = conversation s) \/
        (exists toolResults,
           conversation s' = (conversation s ++ [anthropic.NewUserMessage toolResults])%list /\
           tool_result_ids (anthropic.NewUserMessage toolResults)
           = map Some (tool_use_ids (anthropic.ToParam message)) /\
           control s' = AtLoopHead /\ readUserInput s' = false))).
Proof.
  intros H. apply reachable_Inv in H as [[Hhead Hpairs] Hctl]. split.
  - intros l1 m1 m2 l2 E Ha Hk. destruct (Hpairs _ _ _ _ E) as (Halt & _ & Hres).
    unfold is_AssistantTurn in Ha. apply negb_true_iff in Ha.
    specialize (Hres Ha Hk). repeat split.
    + rewrite Halt, Ha. reflexivity.
    + apply (f_equal (@List.length _)) in Hres. unfold tool_result_ids in Hres.
      rewrite !length_map in Hres. exact Hres.
    + exact Hres.
  - intros message Ec Hk. unfold step. rewrite Ec.
    destruct (dispatch a (anthropic.Content message) [] (world s)) as [[rs|v] w1] eqn:Ed.
    + pose proof (dispatch_ids _ _ _ _ Ed) as Hids. simpl in Hids.
      rewrite <- tool_use_ids_ToParam in Hids.
      destruct rs as [|r rs].
      * exfalso. apply Hk. unfold tool_result_ids in Hids. simpl in Hids.
        destruct (tool_use_ids (anthropic.ToParam message)); [reflexivity|discriminate].
      * eexists. split; [reflexivity|]. right. exists (r :: rs). simpl. auto.
    + eexists. split; [reflexivity|]. left. exists v. simpl. auto.
Qed.

Lemma conversation_turn_order_witness :
  reachable Demo.agent (Demo.world ("list files in ." ++ LF)) Demo.session
  /\ List.length (conversation Demo.session) = 4
  /\ forall l1 m l2, conversation Demo.session = (l1 ++ m :: l2)%list ->
       is_ToolResultTurn m = true ->
       exists l0 p, l1 = (l0 ++ [p])%list /\ is_AssistantTurn p = true /\ tool_use_ids p <> [].
Proof.
  assert (H : reachable Demo.agent (Demo.world ("list files in ." ++ LF)) Demo.session).
  { apply reachable_run_steps. apply reach_start. }
  split; [exact H|]. split; [reflexivity|].
  exact (proj1 (proj2 (conversation_turn_order H))).
Defined.

Lemma tool_results_follow_requests_witness :
  reachable Demo.agent (Demo.world ("list files in ." ++ LF)) Demo.session
  /\ map tool_use_ids (conversation Demo.session) = [[]; ["toolu_01"]; []; []]
  /\ map tool_result_ids (conversation Demo.session)
     = [[None]; [None; None]; [Some "toolu_01"]; [None]]
  /\ (forall l1 m1 m2 l2, conversation Demo.session = (l1 ++ m1 :: m2 :: l2)%list ->
        is_AssistantTurn m1 = true -> tool_use_ids m1 <> [] ->
        isUser m2 = true /\
        List.length (anthropic.ContentParam m2) = List.length (tool_use_ids m1) /\
        tool_result_ids m2 = map Some (tool_use_ids m1))
  /\ reachable Demo.agent (Demo.world ("list files in ." ++ LF)) Demo.session_at_dispatch
  /\ (exists message, control Demo.session_at_dispatch = AtDispatch message
                      /\ tool_use_ids (anthropic.ToParam message) = ["toolu_01"])
  /\ forall message, control Demo.session_at_dispatch = AtDispatch message ->
       tool_use_ids (anthropic.ToParam message) <> [] ->
       exists s', step Demo.agent Demo.session_at_dispatch = Some s' /\
         ((exists v, control s' = Panicked v
                     /\ conversation s' = conversation Demo.session_at_dispatch) \/
          (exists toolResults,
             conversation s'
             = (conversation Demo.session_at_dispatch
                  ++ [anthropic.NewUserMessage toolResults])%list /\
             tool_result_ids (anthropic.NewUserMessage toolResults)
             = map Some (tool_use_ids (anthropic.ToParam message)) /\
             control s' = AtLoopHead /\ readUserInput s' = false)).
Proof.
  assert (H : reachable Demo.agent (Demo.world ("list files in ." ++ LF)) Demo.session).
  { apply reachable_run_steps. apply reach_start. }
  assert (H' : reachable Demo.agent (Demo.world ("list files in ." ++ LF))
                 Demo.session_at_dispatch).
  { apply reachable_run_steps. apply reach_start. }
  split; [exact H|]. split; [reflexivity|]. split; [reflexivity|].
  split; [exact (proj1 (tool_results_follow_requests H))|].
  split; [exact H'|]. split.
  - eexists. split; reflexivity.
  - exact (proj2 (tool_results_follow_requests H')).
Defined.

(** ** Strings *)

Lemma prefix_app (p s : string) : prefix p s = true <-> exists t, s = p ++ t.
Proof.
  revert s. induction p as [|a p IH]; intros s; simpl.
  - destruct s; split; eauto.
  - destruct s as [|b s].
    + split; [discriminate | intros [t E]; discriminate].
    + simpl. destruct (ascii_dec a b) as [->|N].
      * split.
        -- intros H. apply IH in H as [t ->]. exists t. reflexivity.
        -- intros [t E]. injection E as ->. apply IH. exists t. reflexivity.
      * split; [discriminate|]. intros [t E]. injection E as -> _. contradiction.
Qed.

Lemma prefix_ToLower (p s : string) :
  prefix p s = true -> prefix (strings.ToLower p) (strings.ToLower s) = true.
Proof.
  intros H. apply prefix_app in H as [t ->]. apply prefix_app.
  exists (strings.ToLower t). induction p as [|a p IH]; simpl; [reflexivity|].
  rewrite IH. reflexivity.
Qed.

Lemma Contains_ToLower (s p : string) :
  strings.Contains s p = true ->
  strings.Contains (strings.ToLower s) (strings.ToLower p) = true.
Proof.
  induction s as [|c s IH]; cbn [strings.Contains strings.ToLower].
  - destruct p; simpl; [reflexivity|discriminate].
  - destruct (prefix p (String c s)) eqn:E; intros H.
    + apply prefix_ToLower in E. cbn [strings.ToLower] in E. rewrite E. reflexivity.
    + rewrite (IH H). destruct (prefix (strings.ToLower p) _); reflexivity.
Qed.

Lemma find_all_false {A} (f : A -> bool) (l : list A) :
  (forall x, In x l -> f x = false) -> find f l = None.
Proof.
  induction l as [|a l IH]; intros H; simpl; [reflexivity|].
  rewrite (H a (or_introl eq_refl)). apply IH. intros x Hx. apply H. right. exact Hx.
Qed.

(** ** The command guardrail *)

(** C5, amended: a command is turned down with an error, the world untouched
    and the shell never consulted, when it is empty, holds in any letter case
    one of [rm ], [shutdown], [reboot], [kill ], [passwd], [chown], [chmod],
    [sudo], [su] (the first and the fourth with their trailing blank) or
    [cd ], is longer than 256 bytes, or holds a slash or two dots. *)
Theorem CommandExecution_guardrail
    (exec_bash : string -> World -> (string * option error) * node)
    (input : RawMessage) (command : string) (w : World) :
  Unmarshal_CommandExecutionInput input = inl (CommandExecutionInput.mk command) ->
  (command = ""
   \/ (exists d D, In d disallowed /\ strings.ToLower D = d /\ strings.Contains command D = true)
   \/ (exists D, strings.ToLower D = "cd " /\ strings.Contains command D = true)
   \/ 256 < String.length command
   \/ strings.Contains command "/" = true
   \/ strings.Contains command ".." = true) ->
  exists msg, CommandExecution exec_bash input w = (Val ("", Some (errorString msg)), w).
Proof.
  intros Hin Hbad. unfold CommandExecution. rewrite Hin.
  cbv zeta. cbn [CommandExecutionInput.Command].
  destruct (String.eqb_spec command "") as [_|Hne]; [eexists; reflexivity|].
  destruct (find (strings.Contains (strings.ToLower command)) disallowed) as [d|] eqn:Hfind;
    [eexists; reflexivity|].
  destruct (strings.Contains (strings.ToLower command) "cd ") eqn:Hcd; [eexists; reflexivity|].
  destruct (Nat.ltb_spec 256 (String.length command)) as [_|Hlen]; [eexists; reflexivity|].
  destruct (strings.Contains (strings.ToLower command) "/") eqn:Hsl; [eexists; reflexivity|].
  destruct (strings.Contains (strings.ToLower command) "..") eqn:Hdd; [eexists; reflexivity|].
  exfalso.
  destruct Hbad as [E|[(d & D & Hd & <- & HD)|[(D & HD & Hc)|[Hl|[Hs|Hs]]]]].
  - contradiction.
  - apply Contains_ToLower in HD. pose proof (find_none _ _ Hfind _ Hd) as F.
    cbv beta in F. rewrite HD in F. discriminate F.
  - apply Contains_ToLower in Hc. rewrite HD, Hcd in Hc. discriminate Hc.
  - lia.
  - apply Contains_ToLower in Hs. cbn [strings.ToLower] in Hs.
    change (String (strings.lower_byte "/") "") with "/" in Hs.
    rewrite Hsl in Hs. discriminate Hs.
  - apply Contains_ToLower in Hs. cbn [strings.ToLower] in Hs.
    change (String (strings.lower_byte ".") (String (strings.lower_byte ".") "")) with ".." in Hs.
    rewrite Hdd in Hs. discriminate Hs.
Qed.

Lemma CommandExecution_guardrail_witness :
  Unmarshal_CommandExecutionInput (Demo.object [("command", "RM -rf tmp")])
    = inl (CommandExecutionInput.mk "RM -rf tmp")
  /\ exists msg,
       CommandExecution Demo.bash (Demo.object [("command", "RM -rf tmp")])
                        (Demo.world ("yes" ++ LF))
       = (Val ("", Some (errorString msg)), Demo.world ("yes" ++ LF)).
Proof.
  split; [reflexivity|].
  apply (@CommandExecution_guardrail Demo.bash _ "RM -rf tmp" (Demo.world ("yes" ++ LF)));
    [reflexivity|].
  right. left. exists "rm ", "RM ".
  split; [left; reflexivity|]. split; reflexivity.
Defined.

(** C5 as it is worded does not hold: [rm] without the blank is not on the
    list of the code.  The command [echo warm] holds [rm]; it is not turned
    down, and with the operator's consent it runs. *)
Lemma CommandExecution_guardrail_counterexample :
  ~ (forall (exec_bash : string -> World -> (string * option error) * node)
            (input : RawMessage) (command : string) (w : World),
       Unmarshal_CommandExecutionInput input = inl (CommandExecutionInput.mk command) ->
       (command = ""
        \/ (exists d, In d spec_denylist
                      /\ strings.Contains (strings.ToLower command) d = true)
        \/ strings.Contains (strings.ToLower command) "cd " = true
        \/ 256 < String.length command
        \/ strings.Contains command "/" = true
        \/ strings.Contains command ".." = true) ->
       exists err w', CommandExecution exec_bash input w = (Val ("", Some err), w')).
Proof.
  intros H.
  destruct (H Demo.bash (Demo.object [("command", "echo warm")]) "echo warm"
              (Demo.world ("yes" ++ LF)) eq_refl) as (err & w' & E).
  - right. left. exists "rm". split; [left; reflexivity|reflexivity].
  - vm_compute in E. discriminate.
Qed.

Lemma Scanln_keeps (v0 : string) (w : World) :
  exists v w', fmt.Scanln v0 w = (Val v, w')
               /\ root w' = root w /\ cwd w' = cwd w /\ stdout w' = stdout w.
Proof.
  unfold fmt.Scanln. destruct (fmt.SkipSpace _ _) as [[|] r1]; [|eauto 7].
  destruct (fmt.ReadRune r1) as [[rr|] r2]; [|eauto 7].
  destruct (fmt.SkipSpace _ _) as [[|] r3]; [|eauto 7].
  destruct (fmt.token _ r3 _) as [t r4]. eauto 7.
Qed.

(** C6, amended: for a command that passes every check the banner and the
    question are printed first, then one word of the operator's line is read.
    If that word is [yes] in any letter case the shell runs the command, and the
    tool returns the captured output when the shell reports no error, and an
    error that embeds the failure and the output when it does.  For any other
    word the tool returns the cancellation error; the shell is not consulted
    and the file tree is the one before the call. *)
Theorem CommandExecution_confirmation
    (exec_bash : string -> World -> (string * option error) * node)
    (input : RawMessage) (command : string) (w : World) :
  Unmarshal_CommandExecutionInput input = inl (CommandExecutionInput.mk command) ->
  passes_guardrail command ->
  let asked := mkWorld (root w) (cwd w) (stdin w)
                 (stdout w ++ [confirm_banner command; confirm_prompt])
                 (scanner w) (system w) in
  exists confirmation answered,
    fmt.Scanln "" asked = (Val confirmation, answered)
    /\ root answered = root w /\ stdout answered = stdout asked
    /\ (strings.ToLower confirmation = "yes" ->
        forall output err tree, exec_bash command answered = ((output, err), tree) ->
        CommandExecution exec_bash input w
        = (Val (match err with
                | None => (output, None)
                | Some e => ("", Some (errorString ("command execution failed: " ++ Error e
                                                    ++ LF ++ "Output: " ++ output)))
                end),
           mkWorld tree (cwd answered) (stdin answered)
             (stdout answered
                ++ [ESC ++ "[92mCommand output:" ++ ESC ++ "[0m " ++ output ++ LF])
             (scanner answered) (system answered)))
    /\ (strings.ToLower confirmation <> "yes" ->
        CommandExecution exec_bash input w
        = (Val ("", Some (errorString "command execution cancelled by user")), answered)).
Proof.
  intros Hin (Hne & Hdeny & Hcd & Hlen & Hsl & Hdd) asked.
  destruct (Scanln_keeps "" asked) as (confirmation & answered & Hscan & Hroot & Hcwd & Hout).
  exists confirmation, answered. split; [exact Hscan|].
  split; [exact Hroot|]. split; [exact Hout|].
  assert (Hrun : CommandExecution exec_bash input w
    = (if negb (strings.ToLower confirmation =? "yes") then
         ret ("", Some (errorString "command execution cancelled by user"))
       else
         r <- CombinedOutput exec_bash command ;;
         let '(output, err) := r in
         Print (ESC ++ "[92mCommand output:" ++ ESC ++ "[0m " ++ output ++ LF) ;;;
         match err with
         | Some e =>
             ret ("", Some (errorString ("command execution failed: " ++ Error e
                                         ++ LF ++ "Output: " ++ output)))
         | None => ret (output, None)
         end) answered).
  { unfold CommandExecution. rewrite Hin. cbv zeta. cbn [CommandExecutionInput.Command].
    apply String.eqb_neq in Hne. rewrite Hne.
    rewrite (find_all_false _ _ Hdeny), Hcd.
    apply Nat.ltb_ge in Hlen. rewrite Hlen, Hsl, Hdd. cbn [orb].
    unfold bind at 1 2 3. unfold Print at 1 2. cbn [stdout root cwd stdin scanner system].
    rewrite <- app_assoc. cbn [app]. fold asked. rewrite Hscan. reflexivity. }
  split.
  - intros Hyes output err tree Hexec. rewrite Hrun, Hyes.
    change (negb ("yes" =? "yes")) with false. cbv iota.
    unfold bind, CombinedOutput, Print, ret. revert Hexec.
    destruct (exec_bash command answered) as [[o e] t]. intros [= -> -> ->].
    destruct err; reflexivity.
  - intros Hno. rewrite Hrun. apply String.eqb_neq in Hno. rewrite Hno. reflexivity.
Qed.

Lemma passes_echo_hello : passes_guardrail "echo hello".
Proof.
  repeat split; try reflexivity; try discriminate.
  - intros d Hd. simpl in Hd.
    repeat (destruct Hd as [<-|Hd]; [reflexivity|]). contradiction.
  - simpl. lia.
Qed.

Lemma CommandExecution_confirmation_witness :
  Unmarshal_CommandExecutionInput (Demo.object [("command", "echo hello")])
    = inl (CommandExecutionInput.mk "echo hello")
  /\ passes_guardrail "echo hello"
  /\ CommandExecution Demo.bash (Demo.object [("command", "echo hello")])
       (Demo.world ("yes" ++ LF))
     = (Val ("hello" ++ LF, None),
        mkWorld (root (Demo.world "")) ["home"; "u"] ""
          [confirm_banner "echo hello"; confirm_prompt;
           ESC ++ "[92mCommand output:" ++ ESC ++ "[0m hello" ++ LF ++ LF]
          bufio.NewScanner Demo.terminal)
  /\ CommandExecution Demo.bash (Demo.object [("command", "echo hello")])
       (Demo.world ("no" ++ LF))
     = (Val ("", Some (errorString "command execution cancelled by user")),
        mkWorld (root (Demo.world "")) ["home"; "u"] ""
          [confirm_banner "echo hello"; confirm_prompt]
          bufio.NewScanner Demo.terminal).
Proof.
  split; [reflexivity|]. split; [exact passes_echo_hello|]. split.
  - destruct (@CommandExecution_confirmation Demo.bash
                (Demo.object [("command", "echo hello")]) "echo hello"
                (Demo.world ("yes" ++ LF)) eq_refl passes_echo_hello)
      as (c & answered & Hs & _ & _ & Hyes & _).
    vm_compute in Hs. injection Hs as <- <-.
    exact (Hyes eq_refl _ _ _ eq_refl).
  - destruct (@CommandExecution_confirmation Demo.bash
                (Demo.object [("command", "echo hello")]) "echo hello"
                (Demo.world ("no" ++ LF)) eq_refl passes_echo_hello)
      as (c & answered & Hs & _ & _ & _ & Hno).
    vm_compute in Hs. injection Hs as <- <-.
    apply Hno. discriminate.
Defined.

(** C6 as it is worded does not hold, twice over.  An answer other than the
    three letters [yes], namely [YES], does not cancel: the command runs.  And
    the answer [yes] to a command that the shell fails on gives an error, not
    the captured output. *)
Lemma CommandExecution_confirmation_counterexample :
  ~ (forall (exec_bash : string -> World -> (string * option error) * node)
            (input : RawMessage) (command response : string) (w : World),
       Unmarshal_CommandExecutionInput input = inl (CommandExecutionInput.mk command) ->
       passes_guardrail command ->
       stdin w = response ++ LF ->
       response <> "yes" ->
       exists w', CommandExecution exec_bash input w
                  = (Val ("", Some (errorString "command execution cancelled by user")), w'))
  /\
  ~ (forall (exec_bash : string -> World -> (string * option error) * node)
            (input : RawMessage) (command response : string) (w : World),
       Unmarshal_CommandExecutionInput input = inl (CommandExecutionInput.mk command) ->
       passes_guardrail command ->
       stdin w = response ++ LF ->
       response = "yes" ->
       exists output w', CommandExecution exec_bash input w = (Val (output, None), w')).
Proof.
  split; intros H.
  - destruct (H Demo.bash (Demo.object [("command", "echo hello")]) "echo hello" "YES"
                (Demo.world ("YES" ++ LF)) eq_refl passes_echo_hello eq_refl) as (w' & E).
    + discriminate.
    + vm_compute in E. discriminate E.
  - assert (P : passes_guardrail "false").
    { repeat split; try reflexivity; try discriminate.
      - intros d Hd. simpl in Hd.
        repeat (destruct Hd as [<-|Hd]; [reflexivity|]). contradiction.
      - simpl. lia. }
    destruct (H Demo.bash (Demo.object [("command", "false")]) "false" "yes"
                (Demo.world ("yes" ++ LF)) eq_refl P eq_refl eq_refl) as (output & w' & E).
    vm_compute in E. discriminate E.
Qed.

(** ** Replacement *)

Lemma length_append (a b : string) :
  String.length (a ++ b) = String.length a + String.length b.
Proof.
  induction a as [|c a IH]; simpl; [reflexivity|]. rewrite IH. reflexivity.
Qed.

Lemma append_assoc (a b c : string) : (a ++ b) ++ c = a ++ b ++ c.
Proof.
  induction a as [|x a IH]; simpl; [reflexivity|]. rewrite IH. reflexivity.
Qed.

Lemma append_nil_r (a : string) : a ++ "" = a.
Proof.
  induction a as [|x a IH]; simpl; [reflexivity|]. rewrite IH. reflexivity.
Qed.

Lemma append_same_length (a b x y : string) :
  a ++ x = b ++ y -> String.length a = String.length b -> a = b /\ x = y.
Proof.
  revert b. induction a as [|c a IH]; intros [|d b] E L; simpl in *; try discriminate.
  - split; [reflexivity|exact E].
  - injection E as -> E. injection L as L. destruct (IH b E L) as [-> ->].
    split; reflexivity.
Qed.

Lemma append_shorter_prefix (u x y v : string) :
  x ++ y = u ++ v -> String.length u <= String.length x -> exists z, x = u ++ z.
Proof.
  revert x. induction u as [|c u IH]; intros x E L; simpl in *.
  - exists x. reflexivity.
  - destruct x as [|d x]; simpl in *; [lia|].
    injection E as -> E. destruct (IH x E) as [z ->]; [lia|]. exists z. reflexivity.
Qed.

Lemma prefix_length (p s : string) : prefix p s = true -> String.length p <= String.length s.
Proof.
  intros H. apply prefix_app in H as [t ->]. rewrite length_append. lia.
Qed.

Lemma replace_from_skip (old new u t : string) :
  strings.replace_from old new (u ++ t) (String.length u) = strings.replace_from old new t 0.
Proof.
  induction u as [|c u IH]; simpl; [|exact IH].
  destruct t; reflexivity.
Qed.

Lemma replace_from_match (old new t : string) :
  old <> "" ->
  strings.replace_from old new (old ++ t) 0 = new ++ strings.replace_from old new t 0.
Proof.
  intros Hne. destruct old as [|c o]; [contradiction|].
  change (String c o ++ t) with (String c (o ++ t)).
  cbn [strings.replace_from].
  replace (prefix (String c o) (String c (o ++ t))) with true.
  - cbn [String.length]. rewrite Nat.sub_1_r. cbn [Nat.pred].
    rewrite replace_from_skip. reflexivity.
  - symmetry. apply prefix_app. exists t. reflexivity.
Qed.

Lemma replace_from_absent (old new s : string) :
  strings.Contains s old = false -> strings.replace_from old new s 0 = s.
Proof.
  induction s as [|c s IH]; cbn [strings.Contains strings.replace_from]; [reflexivity|].
  destruct (prefix old (String c s)); [discriminate|].
  intros H. rewrite (IH H). reflexivity.
Qed.

(** A piece and the occurrence after it: the piece is copied, the occurrence
    is replaced. *)
Lemma replace_from_piece (old new p rest : string) :
  old <> "" ->
  (forall a b, p ++ old = a ++ old ++ b -> b = "") ->
  strings.replace_from old new (p ++ old ++ rest) 0
  = p ++ new ++ strings.replace_from old new rest 0.
Proof.
  intros Hne. induction p as [|c p IH]; intros Hp.
  - exact (replace_from_match new rest Hne).
  - change (String c p ++ old ++ rest) with (String c (p ++ old ++ rest)).
    cbn [strings.replace_from].
    destruct (prefix old (String c (p ++ old ++ rest))) eqn:E.
    + exfalso. apply prefix_app in E as [t E].
      change (String c (p ++ old ++ rest)) with (String c p ++ old ++ rest) in E.
      rewrite <- append_assoc in E.
      destruct (append_shorter_prefix _ _ _ _ E) as [z Hz].
      { rewrite length_append. lia. }
      pose proof (Hp "" z Hz) as ->. rewrite append_nil_r in Hz.
      apply (f_equal String.length) in Hz. rewrite length_append in Hz.
      simpl in Hz. lia.
    + rewrite IH; [reflexivity|].
      intros a b H. apply (Hp (String c a) b). simpl. rewrite H. reflexivity.
Qed.

Lemma replace_from_pieces (old new : string) (pieces : list string) :
  old <> "" -> leftmost_pieces old pieces ->
  strings.replace_from old new (strings.Join pieces old) 0 = strings.Join pieces new.
Proof.
  intros Hne H. unfold strings.Join. induction H as [p Hp|p ps Hp Hps IH].
  - simpl. apply replace_from_absent. exact Hp.
  - destruct ps as [|q ps]; [inversion Hps|].
    cbn [String.concat] in *. rewrite replace_from_piece by assumption.
    rewrite IH. reflexivity.
Qed.

Lemma replace_from_grows (old new : string) :
  old <> "" -> String.length old <= String.length new ->
  forall s k, String.length s - k <= String.length (strings.replace_from old new s k).
Proof.
  intros Hne Hle. induction s as [|c s IH]; intros k; [simpl; lia|].
  cbn [strings.replace_from]. destruct k as [|k].
  - destruct (prefix old (String c s)).
    + rewrite length_append. specialize (IH (String.length old - 1)).
      destruct old; [contradiction|]. simpl in *. lia.
    + specialize (IH 0). simpl in *. lia.
  - specialize (IH k). simpl. lia.
Qed.

Lemma replace_from_shrinks (old new : string) :
  String.length new <= String.length old ->
  forall s k, String.length (strings.replace_from old new s k) <= String.length s - k.
Proof.
  intros Hle. induction s as [|c s IH]; intros k; [simpl; lia|].
  cbn [strings.replace_from]. destruct k as [|k].
  - destruct (prefix old (String c s)) eqn:E.
    + rewrite length_append. specialize (IH (String.length old - 1)).
      apply prefix_length in E. simpl in *. lia.
    + specialize (IH 0). simpl in *. lia.
  - specialize (IH k). simpl. lia.
Qed.

Lemma replace_from_changes (old new : string) :
  old <> "" -> old <> new ->
  forall s, strings.Contains s old = true -> strings.replace_from old new s 0 <> s.
Proof.
  intros Hne Hdiff. induction s as [|c s IH]; cbn [strings.Contains].
  - destruct old; [contradiction|]. discriminate.
  - destruct (prefix old (String c s)) eqn:E.
    + intros _ R. pose proof E as El. apply prefix_length in El.
      apply prefix_app in E as [t E]. rewrite E in R.
      rewrite replace_from_match in R by exact Hne.
      destruct (Nat.lt_trichotomy (String.length new) (String.length old)) as [L|[L|L]].
      * pose proof (@replace_from_shrinks old new (Nat.lt_le_incl _ _ L) t 0) as S.
        apply (f_equal String.length) in R. rewrite !length_append in R. lia.
      * apply append_same_length in R as [-> _]; [|exact L]. contradiction.
      * pose proof (@replace_from_grows old new Hne (Nat.lt_le_incl _ _ L) t 0) as S.
        apply (f_equal String.length) in R. rewrite !length_append in R. lia.
    + intros H R. cbn [strings.replace_from] in R. rewrite E in R.
      injection R as R. exact (IH H R).
Qed.

Lemma ReplaceAll_absent (s old new : string) :
  old <> "" -> strings.Contains s old = false -> strings.ReplaceAll s old new = s.
Proof.
  intros Hne H. unfold strings.ReplaceAll.
  destruct (old =? new); [reflexivity|].
  apply String.eqb_neq in Hne. rewrite Hne. apply replace_from_absent. exact H.
Qed.

Lemma ReplaceAll_changes (s old new : string) :
  old <> "" -> old <> new -> strings.Contains s old = true ->
  strings.ReplaceAll s old new <> s.
Proof.
  intros Hne Hdiff H. unfold strings.ReplaceAll.
  pose proof Hne as Hne'. pose proof Hdiff as Hd'.
  apply String.eqb_neq in Hd' as ->. apply String.eqb_neq in Hne' as ->.
  apply replace_from_changes; assumption.
Qed.

Lemma ReplaceAll_pieces (old new : string) (pieces : list string) :
  old <> "" -> old <> new -> leftmost_pieces old pieces ->
  strings.ReplaceAll (strings.Join pieces old) old new = strings.Join pieces new.
Proof.
  intros Hne Hdiff H. unfold strings.ReplaceAll.
  pose proof Hne as Hne'. pose proof Hdiff as Hd'.
  apply String.eqb_neq in Hd' as ->. apply String.eqb_neq in Hne' as ->.
  apply replace_from_pieces; assumption.
Qed.

(** ** The file tree *)

Lemma lookup_set_same (entries : list (string * node)) (name : string) (v : node) :
  os.lookup (os.set_entry entries name v) name = Some v.
Proof.
  induction entries as [|[m child] rest IH]; simpl.
  - rewrite String.eqb_refl. reflexivity.
  - destruct (String.eqb_spec m name) as [->|N]; simpl.
    + rewrite String.eqb_refl. reflexivity.
    + apply String.eqb_neq in N. rewrite N. exact IH.
Qed.

Lemma lookup_set_other (entries : list (string * node)) (name n : string) (v : node) :
  n <> name -> os.lookup (os.set_entry entries name v) n = os.lookup entries n.
Proof.
  intros Hn. induction entries as [|[m child] rest IH]; simpl.
  - destruct (String.eqb_spec name n) as [E|_]; [congruence|reflexivity].
  - destruct (String.eqb_spec m name) as [->|N]; simpl.
    + destruct (String.eqb_spec name n) as [E|_]; [congruence|reflexivity].
    + destruct (m =? n); [reflexivity|exact IH].
Qed.

Lemma get_node_below_dir (r : node) (q : list string) (es : list (string * node)) :
  os.get_node r q = Some (Dir es) -> exists es0, r = Dir es0.
Proof.
  destruct q as [|n q]; simpl.
  - intros [= ->]. eauto.
  - destruct r as [x|es0]; [discriminate|]. eauto.
Qed.

Lemma get_node_app (r : node) (q1 q2 : list string) :
  os.get_node r (q1 ++ q2)
  = match os.get_node r q1 with
    | Some n => os.get_node n q2
    | None => None
    end.
Proof.
  revert r. induction q1 as [|n q1 IH]; intros r; simpl; [reflexivity|].
  destruct r as [x|es]; [reflexivity|].
  destruct (os.lookup es n); [apply IH|reflexivity].
Qed.

Lemma get_put_same (t : list string) :
  forall r v r', os.put_node r t v = Some r' -> os.get_node r' t = Some v.
Proof.
  induction t as [|name t IH]; intros r v r' H; simpl in H.
  - injection H as <-. reflexivity.
  - destruct r as [x|entries]; [discriminate|].
    destruct t as [|n2 t].
    + injection H as <-. simpl. rewrite lookup_set_same. reflexivity.
    + destruct (os.lookup entries name) as [child|]; [|discriminate].
      destruct (os.put_node child (n2 :: t) v) as [c|] eqn:E; [|discriminate].
      injection H as <-. cbn [os.get_node]. rewrite lookup_set_same.
      exact (IH _ _ _ E).
Qed.

(** Writing a file where no directory stands keeps every directory. *)
Lemma put_file_keeps_dirs (t : list string) :
  forall r x r',
    os.put_node r t (File x) = Some r' ->
    (forall es, os.get_node r t <> Some (Dir es)) ->
    forall q es, os.get_node r q = Some (Dir es) ->
                 exists es', os.get_node r' q = Some (Dir es').
Proof.
  induction t as [|name t IH]; intros r x r' H Hnot q es Hq; simpl in H.
  - exfalso. apply get_node_below_dir in Hq as [es0 ->]. apply (Hnot es0). reflexivity.
  - destruct r as [y|entries]; [discriminate|].
    assert (Hc : exists c, r' = Dir (os.set_entry entries name c)
                 /\ (t = [] -> c = File x)
                 /\ (t <> [] -> exists child, os.lookup entries name = Some child
                                 /\ os.put_node child t (File x) = Some c)).
    { destruct t as [|n2 t].
      - injection H as <-. eexists. split; [reflexivity|]. split; [reflexivity|].
        intros N. contradiction.
      - destruct (os.lookup entries name) as [child|]; [|discriminate].
        destruct (os.put_node child (n2 :: t) (File x)) as [c|] eqn:E; [|discriminate].
        injection H as <-. exists c. split; [reflexivity|]. split; [discriminate|].
        intros _. exists child. split; [reflexivity|exact E]. }
    destruct Hc as (c & -> & Hnil & Hcons).
    destruct q as [|n q]; [simpl; eauto|].
    cbn [os.get_node] in *. destruct (String.eqb_spec n name) as [->|N].
    + rewrite lookup_set_same.
      destruct (os.lookup entries name) as [child|] eqn:El; [|discriminate].
      destruct t as [|n2 t].
      * exfalso. apply get_node_below_dir in Hq as [es0 ->]. apply (Hnot es0). reflexivity.
      * destruct Hcons as (child' & [= <-] & E); [discriminate|].
        apply (IH _ _ _ E Hnot _ _ Hq).
    + rewrite lookup_set_other by exact N. eauto.
Qed.

Lemma put_node_some (d : list string) (e : string) (v : node) :
  forall r es, os.get_node r d = Some (Dir es) -> exists r', os.put_node r (d ++ [e]) v = Some r'.
Proof.
  induction d as [|n d IH]; intros r es H; simpl in H.
  - injection H as ->. simpl. eauto.
  - destruct r as [x|entries]; [discriminate|].
    destruct (os.lookup entries n) as [child|] eqn:El; [|discriminate].
    destruct (IH _ _ H) as [c E].
    change ((n :: d) ++ [e])%list with (n :: (d ++ [e]))%list.
    cbn [os.put_node]. rewrite El, E.
    destruct (d ++ [e])%list; eauto.
Qed.

Lemma namei_app (r : node) (l1 l2 : list string) :
  forall cur, os.namei r cur (l1 ++ l2)
              = match os.namei r cur l1 with
                | inl d => os.namei r d l2
                | inr e => inr e
                end.
Proof.
  induction l1 as [|e l1 IH]; intros cur; cbn [os.namei app]; [reflexivity|].
  destruct (os.get_node r cur) as [[x|es]|]; try reflexivity.
  destruct ((e =? "") || (e =? ".")); [apply IH|].
  destruct (e =? ".."); [apply IH|].
  destruct (Nat.ltb os.NAME_MAX (String.length e)); [reflexivity|apply IH].
Qed.

Lemma namei_stable (r r' : node) :
  (forall q es, os.get_node r q = Some (Dir es) -> exists es', os.get_node r' q = Some (Dir es')) ->
  forall l cur d, os.namei r cur l = inl d -> os.namei r' cur l = inl d.
Proof.
  intros Hkeep. induction l as [|e l IH]; intros cur d H; cbn [os.namei] in *; [exact H|].
  destruct (os.get_node r cur) as [[x|es]|] eqn:E; try discriminate.
  destruct (Hkeep _ _ E) as [es' ->].
  destruct ((e =? "") || (e =? ".")); [exact (IH _ _ H)|].
  destruct (e =? ".."); [exact (IH _ _ H)|].
  destruct (Nat.ltb os.NAME_MAX (String.length e)); [discriminate|exact (IH _ _ H)].
Qed.

Lemma SplitByte_not_nil (s : string) (sep : ascii) : strings.SplitByte s sep <> [].
Proof.
  destruct s as [|c s]; simpl; [discriminate|].
  destruct (Ascii.eqb c sep); [discriminate|].
  destruct (strings.SplitByte s sep); discriminate.
Qed.

Lemma elems_snoc (p : string) :
  os.elems p = (removelast (os.elems p) ++ [last (os.elems p) ""])%list.
Proof.
  apply app_removelast_last. apply SplitByte_not_nil.
Qed.

(** What the system refuses is never that a name is missing. *)
Lemma refused_not_missing (w : World) (call : Syscall) (e : Errno) :
  os.refused w call = Some e -> e <> ENOENT.
Proof.
  unfold os.refused. destruct (fault (system w) call) as [f|]; [|discriminate].
  intros [= <-]. destruct f; discriminate.
Qed.

Lemma refused_system (w w' : World) (call : Syscall) :
  system w' = system w -> os.refused w' call = os.refused w call.
Proof.
  unfold os.refused. intros ->. reflexivity.
Qed.

(** What a successful [WriteFile] found and did. *)
Lemma WriteFile_inv (p data : string) (w w' : World) :
  os.WriteFile p data w = (None, w') ->
  exists d e r',
    p <> ""
    /\ os.namei (root w) (os.start w p) (removelast (os.elems p)) = inl d
    /\ (exists es, os.get_node (root w) d = Some (Dir es))
    /\ e = last (os.elems p) "" /\ os.special e = false
    /\ String.length e <= os.NAME_MAX
    /\ (forall es, os.get_node (root w) (d ++ [e]) <> Some (Dir es))
    /\ os.put_node (root w) (d ++ [e]) (File data) = Some r'
    /\ w' = os.with_root w r'.
Proof.
  unfold os.WriteFile. destruct (os.refused w (sys_creat p)); [discriminate|].
  destruct (String.eqb_spec p "") as [|Hne]; [discriminate|].
  destruct (os.namei _ _ _) as [d|] eqn:En; [|discriminate].
  destruct (os.get_node (root w) d) as [[x|es]|] eqn:Ed; try discriminate.
  destruct (os.special _) eqn:Es; [discriminate|].
  destruct (Nat.ltb_spec os.NAME_MAX (String.length (last (os.elems p) ""))) as [|Hlen];
    [discriminate|].
  destruct (os.get_node (root w) (d ++ [_])) as [[x|es0]|] eqn:Et; try discriminate;
    (destruct (os.refused w (sys_write p));
     [destruct (os.put_node _ _ (File "")); discriminate|];
     destruct (os.put_node _ _ (File data)) as [r'|] eqn:Ep; [|discriminate];
     intros [= <-]; exists d, (last (os.elems p) ""), r';
     repeat split; eauto; intros es1; rewrite Et; discriminate).
Qed.

Lemma namei_last (r : node) (d : list string) (e : string) (es : list (string * node)) :
  os.get_node r d = Some (Dir es) -> os.special e = false ->
  String.length e <= os.NAME_MAX ->
  os.namei r d [e] = inl (d ++ [e])%list.
Proof.
  intros Hd He Hlen. cbn [os.namei]. rewrite Hd. unfold os.special in He.
  apply orb_false_elim in He as [He Hdd]. rewrite He, Hdd.
  apply Nat.ltb_ge in Hlen. rewrite Hlen. reflexivity.
Qed.

(** What was written is what is read, when the system lets the file be
    opened. *)
Lemma WriteFile_ReadFile (p data : string) (w w' : World) :
  os.WriteFile p data w = (None, w') ->
  os.refused w (sys_open p) = None ->
  os.ReadFile p w' = inl data.
Proof.
  intros H Hopen. apply WriteFile_inv in H
    as (d & e & r' & Hne & Hn & (es & Hd) & He & Hs & Hlen & Hnot & Hput & ->).
  pose proof (@put_file_keeps_dirs _ _ _ _ Hput Hnot) as Hkeep.
  unfold os.ReadFile, os.resolve.
  rewrite (@refused_system w (os.with_root w r') (sys_open p) eq_refl), Hopen.
  apply String.eqb_neq in Hne. rewrite Hne.
  change (os.start (os.with_root w r') p) with (os.start w p).
  change (root (os.with_root w r')) with r'.
  rewrite (elems_snoc p), namei_app, (@namei_stable _ _ Hkeep _ _ _ Hn), <- He.
  destruct (Hkeep _ _ Hd) as [es' Hd'].
  rewrite (@namei_last _ _ _ _ Hd' Hs Hlen), (@get_put_same _ _ _ _ Hput). reflexivity.
Qed.

Lemma WriteFile_keeps (p data : string) (w w' : World) (err : option error) :
  os.WriteFile p data w = (err, w') ->
  cwd w' = cwd w /\ stdin w' = stdin w /\ stdout w' = stdout w.
Proof.
  unfold os.WriteFile.
  repeat match goal with
         | |- context [match ?x with _ => _ end] => destruct x
         | |- context [if ?x then _ else _] => destruct x
         end; intros [= <- <-]; repeat split.
Qed.

Lemma WriteFile_system (p data : string) (w w' : World) (err : option error) :
  os.WriteFile p data w = (err, w') -> system w' = system w /\ scanner w' = scanner w.
Proof.
  unfold os.WriteFile.
  repeat match goal with
         | |- context [match ?x with _ => _ end] => destruct x
         | |- context [if ?x then _ else _] => destruct x
         end; intros [= <- <-]; repeat split.
Qed.

Lemma get_node_snoc_dir (r : node) (q : list string) (x : string) (n : node) :
  os.get_node r (q ++ [x]) = Some n -> exists es, os.get_node r q = Some (Dir es).
Proof.
  rewrite get_node_app. destruct (os.get_node r q) as [[y|es]|]; simpl; try discriminate.
  eauto.
Qed.

(** What a successful [ReadFile] found. *)
Lemma ReadFile_inv (p content : string) (w : World) :
  os.ReadFile p w = inl content ->
  exists d e,
    p <> ""
    /\ os.namei (root w) (os.start w p) (removelast (os.elems p)) = inl d
    /\ (exists es, os.get_node (root w) d = Some (Dir es))
    /\ e = last (os.elems p) "" /\ os.special e = false
    /\ os.get_node (root w) (d ++ [e]) = Some (File content).
Proof.
  unfold os.ReadFile, os.resolve. destruct (os.refused w (sys_open p)); [discriminate|].
  destruct (String.eqb_spec p "") as [|Hne]; [discriminate|].
  rewrite (elems_snoc p), namei_app.
  destruct (os.namei _ _ (removelast _)) as [d|] eqn:En; [|discriminate].
  set (e := last (os.elems p) ""). cbn [os.namei].
  destruct (os.get_node (root w) d) as [[x|es]|] eqn:Ed; try discriminate.
  assert (Hup : forall y, os.get_node (root w) (removelast d) <> Some (File y)).
  { intros y Hy. destruct (snoc_cases d) as [->|(d' & z & ->)].
    - simpl in Hy, Ed. congruence.
    - rewrite removelast_last in Hy. apply get_node_snoc_dir in Ed as [es1 E1].
      rewrite E1 in Hy. discriminate. }
  destruct (String.eqb_spec e "") as [E0|N0]; cbn [orb].
  { rewrite Ed. discriminate. }
  destruct (String.eqb_spec e ".") as [E1|N1]; cbn [orb].
  { rewrite Ed. discriminate. }
  destruct (String.eqb_spec e "..") as [E2|N2].
  { destruct (os.get_node (root w) (removelast d)) as [[y|es1]|] eqn:Er; try discriminate.
    exfalso. exact (Hup y eq_refl). }
  destruct (Nat.ltb os.NAME_MAX (String.length e)); [discriminate|].
  destruct (os.get_node (root w) (d ++ [e])) as [[y|es1]|] eqn:Et; try discriminate.
  intros [= ->]. exists d, e. rewrite removelast_last, last_last. repeat split; eauto.
  unfold os.special. apply String.eqb_neq in N0, N1, N2. rewrite N0, N1, N2. reflexivity.
Qed.

(** A read that succeeded, or that found the file missing, was not refused. *)
Lemma ReadFile_not_refused (p : string) (w : World) :
  (forall content, os.ReadFile p w = inl content -> os.refused w (sys_open p) = None)
  /\ (forall err, os.ReadFile p w = inr err -> os.IsNotExist err = true ->
                  os.refused w (sys_open p) = None).
Proof.
  unfold os.ReadFile. destruct (os.refused w (sys_open p)) as [e|] eqn:E; split; try reflexivity.
  - discriminate.
  - intros err [= <-] H. apply refused_not_missing in E. destruct e; try discriminate H.
    contradiction.
Qed.

Lemma Mkdir_system (name : string) (w w' : World) (err : option error) :
  os.Mkdir name w = (err, w') -> system w' = system w /\ scanner w' = scanner w.
Proof.
  unfold os.Mkdir.
  repeat match goal with
         | |- context [match ?x with _ => _ end] => destruct x
         | |- context [if ?x then _ else _] => destruct x
         end; intros [= <- <-]; repeat split.
Qed.

Lemma MkdirAll_loop_system (fuel : nat) :
  forall name w err w',
    os.MkdirAll_loop fuel name w = (err, w') ->
    system w' = system w /\ scanner w' = scanner w.
Proof.
  induction fuel as [|fuel IH]; intros name w err w'; cbn [os.MkdirAll_loop].
  - destruct (os.Stat name w) as [[x|es]|e]; intros [= <- <-]; repeat split.
  - destruct (os.Stat name w) as [[x|es]|e];
      try (intros [= <- <-]; repeat split; fail).
    destruct (path.dir_part (os.trim_slashes name) =? "").
    + destruct (os.Mkdir name w) as [[e1|] w2] eqn:Em.
      * apply Mkdir_system in Em.
        destruct (os.Lstat name w2) as [[x|es]|e2]; intros [= <- <-]; exact Em.
      * apply Mkdir_system in Em. intros [= <- <-]. exact Em.
    + destruct (os.MkdirAll_loop fuel _ w) as [[e0|] w1] eqn:Ep.
      * apply IH in Ep. intros [= <- <-]. exact Ep.
      * apply IH in Ep. destruct Ep as (S1 & C1).
        destruct (os.Mkdir name w1) as [[e1|] w2] eqn:Em; apply Mkdir_system in Em;
          destruct Em as (S2 & C2).
        -- destruct (os.Lstat name w2) as [[x|es]|e2]; intros [= <- <-];
             split; congruence.
        -- intros [= <- <-]. split; congruence.
Qed.

(** ** EditFile *)

(** C8: when [old_str] equals [new_str] the tool returns an error whatever the
    file system holds, and leaves the world as it was; when [old_str] is not
    empty and does not occur in the content of the file at the path, the tool
    returns an error and leaves the world as it was. *)
Theorem EditFile_rejects (input : RawMessage) (p old new : string) (w : World) :
  Unmarshal_EditFileInput input = inl (EditFileInput.mk p old new) ->
  (old = new ->
   EditFile input w = (Val ("", Some (errorString "invalid input parameters")), w))
  /\ (forall content,
        old <> "" -> os.ReadFile p w = inl content ->
        strings.Contains content old = false ->
        exists err, EditFile input w = (Val ("", Some err), w)).
Proof.
  intros Hin. unfold EditFile. rewrite Hin. cbv zeta.
  cbn [EditFileInput.Path EditFileInput.OldStr EditFileInput.NewStr]. split.
  - intros ->. rewrite String.eqb_refl, orb_true_r. reflexivity.
  - intros content Hne Hread Habs.
    destruct ((p =? "") || (old =? new)); [eexists; reflexivity|].
    unfold bind, ask. rewrite Hread.
    rewrite (@ReplaceAll_absent content old new Hne Habs), String.eqb_refl.
    apply String.eqb_neq in Hne. rewrite Hne. eexists. reflexivity.
Qed.

Lemma EditFile_rejects_witness :
  Unmarshal_EditFileInput
    (Demo.object [("path", "notes.txt"); ("old_str", "gamma"); ("new_str", "delta")])
  = inl (EditFileInput.mk "notes.txt" "gamma" "delta")
  /\ os.ReadFile "notes.txt" (Demo.world "") = inl "alpha beta alpha"
  /\ strings.Contains "alpha beta alpha" "gamma" = false
  /\ (exists err,
       EditFile (Demo.object [("path", "notes.txt"); ("old_str", "gamma"); ("new_str", "delta")])
                (Demo.world "")
       = (Val ("", Some err), Demo.world ""))
  /\ Unmarshal_EditFileInput
       (Demo.object [("path", "notes.txt"); ("old_str", "beta"); ("new_str", "beta")])
     = inl (EditFileInput.mk "notes.txt" "beta" "beta")
  /\ EditFile (Demo.object [("path", "notes.txt"); ("old_str", "beta"); ("new_str", "beta")])
              (Demo.world "")
     = (Val ("", Some (errorString "invalid input parameters")), Demo.world "").
Proof.
  repeat (split; [reflexivity|]). split; [|split; [reflexivity|]].
  - refine (proj2 (@EditFile_rejects
                     (Demo.object [("path", "notes.txt"); ("old_str", "gamma");
                                   ("new_str", "delta")])
                     "notes.txt" "gamma" "delta" (Demo.world "") eq_refl)
                  "alpha beta alpha" _ eq_refl eq_refl).
    discriminate.
  - exact (proj1 (@EditFile_rejects
                    (Demo.object [("path", "notes.txt"); ("old_str", "beta");
                                  ("new_str", "beta")])
                    "notes.txt" "beta" "beta" (Demo.world "") eq_refl) eq_refl).
Defined.

(** C10, amended: for a file that can be read, an [old_str] that is not empty
    and occurs in its content, and a [new_str] that differs from [old_str], the
    tool replaces every occurrence of [old_str] and hands the new content to
    [os.WriteFile].  When the write succeeds the tool returns [OK] and the
    file holds the new content; when the write fails the tool returns the
    error of the write.  Every occurrence: when the content is cut at the
    occurrences a scan from the left finds, the new content is the pieces
    joined by [new_str]. *)
Theorem EditFile_replaces_every_occurrence
    (input : RawMessage) (p old new content : string) (w : World) :
  Unmarshal_EditFileInput input = inl (EditFileInput.mk p old new) ->
  old <> "" -> old <> new ->
  os.ReadFile p w = inl content ->
  strings.Contains content old = true ->
  let newContent := strings.ReplaceAll content old new in
  match os.WriteFile p newContent w with
  | (None, w') =>
      EditFile input w = (Val ("OK", None), w') /\ os.ReadFile p w' = inl newContent
  | (Some e, w') => EditFile input w = (Val ("", Some e), w')
  end
  /\ newContent <> content
  /\ (forall pieces, leftmost_pieces old pieces -> content = strings.Join pieces old ->
      newContent = strings.Join pieces new)
  /\ (let w' := snd (os.WriteFile p newContent w) in
      cwd w' = cwd w /\ stdin w' = stdin w /\ stdout w' = stdout w).
Proof.
  intros Hin Hne Hdiff Hread Hocc newContent.
  pose proof (@ReplaceAll_changes content old new Hne Hdiff Hocc) as Hch.
  assert (Hrun : EditFile input w
                 = match os.WriteFile p newContent w with
                   | (None, w') => (Val ("OK", None), w')
                   | (Some e, w') => (Val ("", Some e), w')
                   end).
  { unfold EditFile. rewrite Hin. cbv zeta.
    cbn [EditFileInput.Path EditFileInput.OldStr EditFileInput.NewStr].
    apply ReadFile_inv in Hread as Hinv. destruct Hinv as (_ & _ & Hp & _).
    apply String.eqb_neq in Hp. rewrite Hp.
    pose proof Hdiff as Hd. apply String.eqb_neq in Hd. rewrite Hd. cbn [orb].
    unfold bind, ask. rewrite Hread.
    assert (Hc : (content =? strings.ReplaceAll content old new) = false).
    { apply String.eqb_neq. intros E. apply Hch. symmetry. exact E. }
    rewrite Hc. cbn [andb]. unfold sys. fold newContent.
    destruct (os.WriteFile p newContent w) as [[e|] w']; reflexivity. }
  split; [|split; [|split]].
  - rewrite Hrun. destruct (os.WriteFile p newContent w) as [[e|] w'] eqn:Hw; [reflexivity|].
    split; [reflexivity|].
    exact (@WriteFile_ReadFile _ _ _ _ Hw (proj1 (ReadFile_not_refused p w) _ Hread)).
  - exact Hch.
  - intros pieces Hp ->. apply ReplaceAll_pieces; assumption.
  - cbv zeta. destruct (os.WriteFile p newContent w) as [err w'] eqn:Hw.
    exact (@WriteFile_keeps _ _ _ _ _ Hw).
Qed.

Lemma EditFile_replaces_every_occurrence_witness :
  Unmarshal_EditFileInput
    (Demo.object [("path", "notes.txt"); ("old_str", "alpha"); ("new_str", "omega")])
  = inl (EditFileInput.mk "notes.txt" "alpha" "omega")
  /\ os.ReadFile "notes.txt" (Demo.world "") = inl "alpha beta alpha"
  /\ strings.Contains "alpha beta alpha" "alpha" = true
  /\ strings.ReplaceAll "alpha beta alpha" "alpha" "omega" = "omega beta omega"
  /\ exists w',
       os.WriteFile "notes.txt" "omega beta omega" (Demo.world "") = (None, w')
       /\ EditFile (Demo.object [("path", "notes.txt"); ("old_str", "alpha"); ("new_str", "omega")])
                   (Demo.world "")
          = (Val ("OK", None), w')
       /\ os.ReadFile "notes.txt" w' = inl "omega beta omega".
Proof.
  repeat (split; [reflexivity|]).
  pose proof (@EditFile_replaces_every_occurrence
                (Demo.object [("path", "notes.txt"); ("old_str", "alpha"); ("new_str", "omega")])
                "notes.txt" "alpha" "omega" "alpha beta alpha" (Demo.world "") eq_refl) as H.
  destruct H as [H _]; [discriminate|discriminate|reflexivity|reflexivity|].
  change (strings.ReplaceAll "alpha beta alpha" "alpha" "omega") with "omega beta omega" in H.
  destruct (os.WriteFile "notes.txt" "omega beta omega" (Demo.world "")) as [[e|] w'] eqn:Hw.
  - vm_compute in Hw. discriminate Hw.
  - exists w'. split; [reflexivity|exact H].
Defined.

(** C10 as it is worded does not hold.  With [new_str] equal to [old_str] the
    tool returns an error.  And with a [new_str] that differs, the write can
    still be refused: the file [notes.txt] can be read but not written, and
    the tool returns the error of the write and leaves the file as it was. *)
Lemma EditFile_replaces_every_occurrence_counterexample :
  ~ (forall (input : RawMessage) (p old new content : string) (w : World),
       Unmarshal_EditFileInput input = inl (EditFileInput.mk p old new) ->
       old <> "" ->
       os.ReadFile p w = inl content ->
       strings.Contains content old = true ->
       exists msg w', EditFile input w = (Val (msg, None), w')
                      /\ os.ReadFile p w' = inl (strings.ReplaceAll content old new))
  /\
  ~ (forall (input : RawMessage) (p old new content : string) (w : World),
       Unmarshal_EditFileInput input = inl (EditFileInput.mk p old new) ->
       old <> "" -> old <> new ->
       os.ReadFile p w = inl content ->
       strings.Contains content old = true ->
       exists msg w', EditFile input w = (Val (msg, None), w')
                      /\ os.ReadFile p w' = inl (strings.ReplaceAll content old new)).
Proof.
  split; intros H.
  - destruct (H (Demo.object [("path", "notes.txt"); ("old_str", "alpha"); ("new_str", "alpha")])
                "notes.txt" "alpha" "alpha" "alpha beta alpha" (Demo.world "") eq_refl)
      as (msg & w' & E & _); [discriminate|reflexivity|reflexivity|].
    vm_compute in E. discriminate E.
  - destruct (H (Demo.object [("path", "notes.txt"); ("old_str", "alpha"); ("new_str", "omega")])
                "notes.txt" "alpha" "omega" "alpha beta alpha"
                (Demo.world_where (Demo.refuses (sys_creat "notes.txt") denied) "") eq_refl)
      as (msg & w' & E & _); [discriminate|discriminate|reflexivity|reflexivity|].
    vm_compute in E. discriminate E.
Qed.

(** C7, amended: for a path that is not empty and that [os.ReadFile] reports as
    missing, and a [new_str] that is not empty, the tool with an empty
    [old_str] makes the directories of the path and writes the file.  When both
    steps succeed the file holds [new_str] and the result is the message of
    success; when one of them fails the result is its error. *)
Theorem EditFile_creates (input : RawMessage) (p new : string) (w : World) (err : error) :
  Unmarshal_EditFileInput input = inl (EditFileInput.mk p "" new) ->
  p <> "" -> new <> "" ->
  os.ReadFile p w = inr err -> os.IsNotExist err = true ->
  match (if negb (path.Dir p =? ".") then os.MkdirAll (path.Dir p) w else (None, w)) with
  | (Some e, w1) =>
      EditFile input w = (Val ("", Some (wrapError "failed to create directory: " e)), w1)
  | (None, w1) =>
      match os.WriteFile p new w1 with
      | (Some e, w2) =>
          EditFile input w = (Val ("", Some (wrapError "failed to create file: " e)), w2)
      | (None, w2) =>
          EditFile input w = (Val ("Successfully created file " ++ p, None), w2)
          /\ os.ReadFile p w2 = inl new
      end
  end.
Proof.
  intros Hin Hp Hnew Hread Hmiss.
  assert (Hrun : EditFile input w = createNewFile p new w).
  { unfold EditFile. rewrite Hin. cbv zeta.
    cbn [EditFileInput.Path EditFileInput.OldStr EditFileInput.NewStr].
    apply String.eqb_neq in Hp. rewrite Hp.
    assert (Hn : ("" =? new) = false).
    { apply String.eqb_neq. intros E. apply Hnew. symmetry. exact E. }
    rewrite Hn. cbn [orb]. unfold bind, ask. rewrite Hread, Hmiss. reflexivity. }
  pose proof (proj2 (ReadFile_not_refused p w) _ Hread Hmiss) as Hopen.
  rewrite Hrun. unfold createNewFile, bind, sys, ret.
  destruct (negb (path.Dir p =? ".")).
  - destruct (os.MkdirAll (path.Dir p) w) as [[e|] w1] eqn:Em; [reflexivity|].
    destruct (os.WriteFile p new w1) as [[e|] w2] eqn:Ew; [reflexivity|].
    split; [reflexivity|]. apply (@WriteFile_ReadFile _ _ _ _ Ew).
    apply MkdirAll_loop_system in Em as [Hsys _].
    rewrite (@refused_system w w1 _ Hsys). exact Hopen.
  - destruct (os.WriteFile p new w) as [[e|] w2] eqn:Ew; [reflexivity|].
    split; [reflexivity|]. exact (@WriteFile_ReadFile _ _ _ _ Ew Hopen).
Qed.

Lemma EditFile_creates_witness :
  Unmarshal_EditFileInput
    (Demo.object [("path", "docs/plan.txt"); ("old_str", ""); ("new_str", "first draft")])
  = inl (EditFileInput.mk "docs/plan.txt" "" "first draft")
  /\ os.ReadFile "docs/plan.txt" (Demo.world "")
     = inr (PathError "open" "docs/plan.txt" ENOENT)
  /\ (let w2 := os.with_root (Demo.world "")
                  (Dir [("home", Dir [("u", Dir
                     [("notes.txt", File "alpha beta alpha");
                      ("src", Dir [("main.go", File "package main")]);
                      ("go.mod", File "module agent");
                      ("docs", Dir [("plan.txt", File "first draft")])])])]) in
      EditFile (Demo.object [("path", "docs/plan.txt"); ("old_str", "");
                             ("new_str", "first draft")]) (Demo.world "")
      = (Val ("Successfully created file docs/plan.txt", None), w2)
      /\ os.ReadFile "docs/plan.txt" w2 = inl "first draft").
Proof.
  split; [reflexivity|]. split; [reflexivity|].
  pose proof (@EditFile_creates
                (Demo.object [("path", "docs/plan.txt"); ("old_str", "");
                              ("new_str", "first draft")])
                "docs/plan.txt" "first draft" (Demo.world "")
                (PathError "open" "docs/plan.txt" ENOENT) eq_refl) as H.
  exact (H ltac:(discriminate) ltac:(discriminate) eq_refl eq_refl).
Defined.

(** C7 as it is worded does not hold.  With an empty [new_str] the two strings
    are equal and the tool returns an error without creating anything.  And
    for a path and a [new_str] that are not empty the creation can still fail:
    the path [drafts/], with its slash at the end, names a directory, which is
    made, and then cannot be written as a file. *)
Lemma EditFile_creates_counterexample :
  ~ (forall (input : RawMessage) (p new : string) (w : World) (err : error),
       Unmarshal_EditFileInput input = inl (EditFileInput.mk p "" new) ->
       os.ReadFile p w = inr err -> os.IsNotExist err = true ->
       exists msg w', EditFile input w = (Val (msg, None), w')
                      /\ os.ReadFile p w' = inl new)
  /\
  ~ (forall (input : RawMessage) (p new : string) (w : World) (err : error),
       Unmarshal_EditFileInput input = inl (EditFileInput.mk p "" new) ->
       p <> "" -> new <> "" ->
       os.ReadFile p w = inr err -> os.IsNotExist err = true ->
       exists msg w', EditFile input w = (Val (msg, None), w')
                      /\ os.ReadFile p w' = inl new).
Proof.
  split; intros H.
  - destruct (H (Demo.object [("path", "plan.txt"); ("old_str", ""); ("new_str", "")])
                "plan.txt" "" (Demo.world "") (PathError "open" "plan.txt" ENOENT)
                eq_refl eq_refl eq_refl) as (msg & w' & E & _).
    vm_compute in E. discriminate E.
  - destruct (H (Demo.object [("path", "drafts/"); ("old_str", ""); ("new_str", "x")])
                "drafts/" "x" (Demo.world "") (PathError "open" "drafts/" ENOENT)
                eq_refl) as (msg & w' & E & _);
      [discriminate|discriminate|reflexivity|reflexivity|].
    vm_compute in E. discriminate E.
Qed.

(** ** ListFiles *)

Lemma node_induction (P : node -> Prop) :
  (forall data, P (File data)) ->
  (forall entries, Forall (fun e => P (snd e)) entries -> P (Dir entries)) ->
  forall n, P n.
Proof.
  intros Hfile Hdir. fix IH 1. intros [data|entries].
  - apply Hfile.
  - apply Hdir. induction entries as [|[name child] rest IHrest]; constructor.
    + apply IH.
    + exact IHrest.
Qed.

Lemma In_insert_by_name {A} (x y : string * A) (l : list (string * A)) :
  In y (filepath.insert_by_name x l) <-> y = x \/ In y l.
Proof.
  induction l as [|z l IH]; simpl.
  - split; intros [H|H]; auto.
  - destruct (String.leb (fst x) (fst z)); simpl.
    + split; intros [H|H]; auto.
    + split.
      * intros [H|H]; [auto|]. apply IH in H as [H|H]; auto.
      * intros [H|[H|H]]; [right; apply IH; auto|auto|right; apply IH; auto].
Qed.

Lemma In_sort_by_name {A} (y : string * A) (l : list (string * A)) :
  In y (filepath.sort_by_name l) <-> In y l.
Proof.
  induction l as [|x l IH]; simpl; [reflexivity|].
  split.
  - intros H. apply In_insert_by_name in H as [H|H]; [auto|]. right. apply IH. exact H.
  - intros [H|H]; apply In_insert_by_name; [auto|]. right. apply IH. exact H.
Qed.

(** The visits of a walk are the nodes below its root, each once per way to
    reach it, with the names that lead there. *)
Lemma visits_descends (n : node) :
  forall pre ns b,
    In (ns, b) (filepath.visits pre n)
    <-> exists suffix m, ns = (pre ++ suffix)%list /\ descends n suffix m /\ b = IsDir m.
Proof.
  induction n as [data|entries IH] using node_induction; intros pre ns b.
  - simpl. split.
    + intros [[= <- <-]|[]]. exists [], (File data). rewrite app_nil_r.
      repeat split. constructor.
    + intros (suffix & m & -> & Hd & ->). inversion Hd; subst.
      left. rewrite app_nil_r. reflexivity.
  - cbn [filepath.visits].
    set (each := fix each (es : list (string * node)) :=
           match es with
           | [] => []
           | (name, child) :: es' =>
               (name, filepath.visits (pre ++ [name]) child) :: each es'
           end).
    assert (Heach : forall es y, In y (each es)
              <-> exists name child, In (name, child) es
                    /\ y = (name, filepath.visits (pre ++ [name]) child)).
    { induction es as [|[name child] es IHes]; intros y; simpl.
      - split; [intros []|intros (? & ? & [] & _)].
      - split.
        + intros [<-|H]; [eauto|]. apply IHes in H as (n1 & c1 & H1 & ->). eauto 6.
        + intros (n1 & c1 & [[= <- <-]|H1] & ->); [auto|]. right. apply IHes. eauto. }
    split.
    + intros [[= <- <-]|H].
      * exists [], (Dir entries). rewrite app_nil_r. repeat split. constructor.
      * apply in_concat in H as (l & Hl & Hin). apply in_map_iff in Hl as (y & <- & Hy).
        apply In_sort_by_name, Heach in Hy as (name & child & Hc & ->). simpl in Hin.
        rewrite Forall_forall in IH. apply (IH _ Hc) in Hin as (suffix & m & -> & Hd & ->).
        exists (name :: suffix), m. rewrite <- app_assoc. repeat split.
        econstructor; eassumption.
    + intros (suffix & m & -> & Hd & ->). inversion Hd; subst.
      * left. rewrite app_nil_r. reflexivity.
      * match goal with
        | Hin : In (?name, ?child) entries, Hrest : descends ?child ?rest m |- _ =>
            right; apply in_concat;
            exists (filepath.visits (pre ++ [name]) child); split;
            [ apply in_map_iff; exists (name, filepath.visits (pre ++ [name]) child);
              split; [reflexivity|]; apply In_sort_by_name, Heach; eauto
            | rewrite Forall_forall in IH; apply (IH _ Hin); exists rest, m;
              rewrite <- app_assoc; repeat split; exact Hrest ]
        end.
Qed.

Lemma collect_spec (vs : list (list string * bool)) :
  forall files x,
    In x (collect vs files)
    <-> In x files
        \/ exists names b, In (names, b) vs /\ filepath.Rel_visit names <> "."
                           /\ x = if b then filepath.Rel_visit names ++ "/"
                                  else filepath.Rel_visit names.
Proof.
  induction vs as [|[names b] vs IH]; intros files x; simpl.
  - split; [auto|]. intros [H|(? & ? & [] & _)]. exact H.
  - destruct (String.eqb_spec (filepath.Rel_visit names) ".") as [E|N]; simpl.
    + rewrite IH. split.
      * intros [H|(n1 & b1 & H1 & H2)]; [auto|]. right. eauto 6.
      * intros [H|(n1 & b1 & [[= <- <-]|H1] & H2 & H3)]; [auto|contradiction|]. right. eauto 6.
    + destruct b; rewrite IH, in_app_iff; simpl.
      * split.
        -- intros [[H|[<-|[]]]|(n1 & b1 & H1 & H2)]; [auto| |right; eauto 6].
           right. exists names, true. auto.
        -- intros [H|(n1 & b1 & [[= <- <-]|H1] & H2 & ->)]; [auto|auto|]. right. eauto 6.
      * split.
        -- intros [[H|[<-|[]]]|(n1 & b1 & H1 & H2)]; [auto| |right; eauto 6].
           right. exists names, false. auto.
        -- intros [H|(n1 & b1 & [[= <- <-]|H1] & H2 & ->)]; [auto|auto|]. right. eauto 6.
Qed.

Lemma visits_dir (pre : list string) (entries : list (string * node)) :
  filepath.visits pre (Dir entries)
  = (pre, true) ::
    concat (map snd (filepath.sort_by_name
      (map (fun e => (fst e, filepath.visits (pre ++ [fst e]) (snd e))) entries))).
Proof.
  cbn [filepath.visits]. do 4 f_equal.
  induction entries as [|[name child] rest IH]; [reflexivity|].
  cbn [map fst snd]. rewrite <- IH. reflexivity.
Qed.

Lemma walk_dir (w : World) (path : string) (names : list string)
    (entries : list (string * node)) :
  filepath.walk w path names (Dir entries)
  = match os.refused w (sys_readdir path) with
    | Some e => inr (PathError "open" path e)
    | None =>
        match filepath.in_turn (filepath.sort_by_name
                (map (fun e =>
                        (fst e,
                         match os.refused w (sys_lstat (filepath.Join path (fst e))) with
                         | Some err => inr (PathError "lstat" (filepath.Join path (fst e)) err)
                         | None => filepath.walk w (filepath.Join path (fst e))
                                                 (names ++ [fst e]) (snd e)
                         end)) entries)) with
        | inl vs => inl ((names, true) :: vs)
        | inr e => inr e
        end
    end.
Proof.
  cbn [filepath.walk]. destruct (os.refused w (sys_readdir path)); [reflexivity|].
  match goal with
  | |- match filepath.in_turn (filepath.sort_by_name ?l1) with _ => _ end
       = match filepath.in_turn (filepath.sort_by_name ?l2) with _ => _ end =>
      assert (E : l1 = l2); [|rewrite E; reflexivity]
  end.
  induction entries as [|[name child] rest IH]; [reflexivity|].
  cbn [map fst snd]. rewrite <- IH. reflexivity.
Qed.

Lemma insert_by_name_map {A B} (f : string * A -> B) (x : string * A)
    (l : list (string * A)) :
  filepath.insert_by_name (fst x, f x) (map (fun e => (fst e, f e)) l)
  = map (fun e => (fst e, f e)) (filepath.insert_by_name x l).
Proof.
  induction l as [|y l IH]; [reflexivity|].
  cbn [map filepath.insert_by_name fst]. destruct (String.leb (fst x) (fst y)).
  - reflexivity.
  - cbn [map]. rewrite <- IH. reflexivity.
Qed.

(** Sorting by name sees the names only. *)
Lemma sort_by_name_map {A B} (f : string * A -> B) (l : list (string * A)) :
  filepath.sort_by_name (map (fun e => (fst e, f e)) l)
  = map (fun e => (fst e, f e)) (filepath.sort_by_name l).
Proof.
  induction l as [|x l IH]; [reflexivity|].
  cbn [map filepath.sort_by_name]. rewrite IH. apply insert_by_name_map.
Qed.

Lemma in_turn_inl {A B} (f : string * A -> list B + error) (g : string * A -> list B)
    (l : list (string * A)) :
  (forall e vs, In e l -> f e = inl vs -> vs = g e) ->
  forall vs, filepath.in_turn (map (fun e => (fst e, f e)) l) = inl vs ->
             vs = concat (map snd (map (fun e => (fst e, g e)) l)).
Proof.
  induction l as [|x l IH]; intros H vs; cbn [map filepath.in_turn concat snd].
  - intros [= <-]. reflexivity.
  - destruct (f x) as [v|err] eqn:Ex; [|discriminate].
    destruct (filepath.in_turn _) as [vs'|] eqn:E; [|discriminate].
    intros [= <-]. rewrite (H x v (or_introl eq_refl) Ex).
    rewrite (IH (fun e vs0 Hin => H e vs0 (or_intror Hin)) vs' eq_refl). reflexivity.
Qed.

Lemma in_turn_all {A B} (f : string * A -> list B + error) (g : string * A -> list B)
    (l : list (string * A)) :
  (forall e, In e l -> f e = inl (g e)) ->
  filepath.in_turn (map (fun e => (fst e, f e)) l)
  = inl (concat (map snd (map (fun e => (fst e, g e)) l))).
Proof.
  induction l as [|x l IH]; intros H; cbn [map filepath.in_turn concat snd]; [reflexivity|].
  rewrite (H x (or_introl eq_refl)), (IH (fun e Hin => H e (or_intror Hin))). reflexivity.
Qed.

(** A walk that ends without an error has made the visits of the tree, all
    of them and in their order. *)
Lemma walk_visits (w : World) (n : node) :
  forall path names vs,
    filepath.walk w path names n = inl vs -> vs = filepath.visits names n.
Proof.
  induction n as [data|entries IH] using node_induction; intros path names vs.
  - cbn [filepath.walk filepath.visits]. intros [= <-]. reflexivity.
  - rewrite walk_dir, visits_dir.
    destruct (os.refused w (sys_readdir path)); [discriminate|].
    rewrite !sort_by_name_map.
    destruct (filepath.in_turn _) as [vs'|] eqn:E; [|discriminate].
    intros [= <-]. f_equal. revert E. apply in_turn_inl.
    intros e vs0 Hin. apply (proj1 (In_sort_by_name _ _)) in Hin.
    destruct (os.refused w (sys_lstat _)); [discriminate|].
    rewrite Forall_forall in IH. apply (IH e Hin).
Qed.

(** On a system that refuses nothing the walk ends without an error. *)
Lemma walk_unrefused (w : World) (n : node) :
  (forall call, fault (system w) call = None) ->
  forall path names, filepath.walk w path names n = inl (filepath.visits names n).
Proof.
  intros Hok.
  assert (Hr : forall call, os.refused w call = None).
  { intros call. unfold os.refused. rewrite Hok. reflexivity. }
  induction n as [data|entries IH] using node_induction; intros path names.
  - reflexivity.
  - rewrite walk_dir, visits_dir, Hr, !sort_by_name_map.
    rewrite (@in_turn_all _ _ _ (fun e => filepath.visits (names ++ [fst e]) (snd e))).
    + reflexivity.
    + intros e Hin. apply (proj1 (In_sort_by_name _ _)) in Hin. rewrite Hr.
      rewrite Forall_forall in IH. apply (IH e Hin).
Qed.

(** What the listing of a tree holds: every node below the root of the walk,
    by the names that lead to it, and nothing else. *)
Lemma collect_visits (d : node) (x : string) :
  In x (collect (filepath.visits [] d) [])
  <-> exists names n, descends d names n
                      /\ filepath.Rel_visit names <> "."
                      /\ x = listed names n.
Proof.
  rewrite collect_spec. split.
  - intros [[]|(names & b & Hv & Hrel & ->)].
    apply visits_descends in Hv as (suffix & m & -> & Hd & ->).
    exists suffix, m. repeat split; [exact Hd|exact Hrel|]. destruct m; reflexivity.
  - intros (names & n & Hd & Hrel & ->). right. exists names, (IsDir n).
    repeat split; [|exact Hrel|destruct n; reflexivity].
    apply visits_descends. exists names, n. repeat split. exact Hd.
Qed.

(** A listing that [ListFiles] returns is the listing of the tree below the
    node that [Lstat] found, and the world is as it was. *)
Lemma ListFiles_listing (input : RawMessage) (p listing : string) (w w' : World) :
  Unmarshal_ListFilesInput input = inl (ListFilesInput.mk p) ->
  ListFiles input w = (Val (listing, None), w') ->
  w' = w
  /\ exists cur d,
       os.resolve w (if negb (p =? "") then p else ".") = inl (cur, d)
       /\ listing = json.Marshal (collect (filepath.visits [] d) []).
Proof.
  intros Hin. unfold ListFiles. rewrite Hin. cbn [ListFilesInput.Path].
  unfold bind, ask, ret, Walk_collect, filepath.Walk, os.Lstat.
  destruct (os.refused w (sys_lstat _)); [discriminate|].
  destruct (os.resolve w _) as [[cur d]|e]; [|discriminate].
  destruct (filepath.walk w _ [] d) as [vs|e] eqn:Ew; [|discriminate].
  intros [= <- <-]. split; [reflexivity|]. exists cur, d. split; [reflexivity|].
  rewrite (@walk_visits w d _ _ _ Ew). reflexivity.
Qed.

(** On a system that refuses nothing [ListFiles] returns the listing of the
    node at its path. *)
Lemma ListFiles_unrefused (input : RawMessage) (p : string) (w : World)
    (cur : list string) (d : node) :
  Unmarshal_ListFilesInput input = inl (ListFilesInput.mk p) ->
  os.resolve w (if negb (p =? "") then p else ".") = inl (cur, d) ->
  (forall call, fault (system w) call = None) ->
  ListFiles input w = (Val (json.Marshal (collect (filepath.visits [] d) []), None), w).
Proof.
  intros Hin Hres Hok. unfold ListFiles. rewrite Hin. cbn [ListFilesInput.Path].
  unfold bind, ask, ret, Walk_collect, filepath.Walk, os.Lstat, os.refused.
  rewrite Hok, Hres. cbn [option_map]. rewrite (@walk_unrefused w d Hok). reflexivity.
Qed.

(** C9, amended: dispatched with an empty path, [ListFiles] walks the tree
    below the working directory.  A listing that it returns is, as a JSON
    array of strings ([null] when there is none), the entries of the working
    directory at every depth, not the immediate ones only: every node below
    the working directory is listed by its path relative to it, a directory
    with a slash at the end, and nothing else is listed; the world is left as
    it was.  The tool returns a listing when the walk ends without an error,
    as it does on a system that refuses no call; and when the walk ends with
    an error the tool returns that error and no listing. *)
Theorem ListFiles_lists_whole_tree (input : RawMessage) (w : World)
    (cur : list string) (d : node) :
  Unmarshal_ListFilesInput input = inl (ListFilesInput.mk "") ->
  os.resolve w "." = inl (cur, d) ->
  (forall listing w',
     ListFiles input w = (Val (listing, None), w') ->
     w' = w
     /\ exists files,
          listing = json.Marshal files
          /\ forall x, In x files
                       <-> exists names n, descends d names n
                                           /\ filepath.Rel_visit names <> "."
                                           /\ x = listed names n)
  /\ (forall vs, filepath.Walk "." w = inl vs ->
                 exists listing, ListFiles input w = (Val (listing, None), w))
  /\ ((forall call, fault (system w) call = None) ->
      exists listing, ListFiles input w = (Val (listing, None), w))
  /\ (forall e, filepath.Walk "." w = inr e ->
                ListFiles input w = (Val ("", Some e), w)).
Proof.
  intros Hin Hres. split; [|split; [|split]].
  - intros listing w' Hrun.
    destruct (@ListFiles_listing input "" listing w w' Hin Hrun) as (-> & cur' & d' & Hr & ->).
    cbn [String.eqb negb] in Hr. rewrite Hres in Hr. injection Hr as <- <-.
    split; [reflexivity|]. eexists. split; [reflexivity|]. apply collect_visits.
  - intros vs Hv. unfold ListFiles. rewrite Hin. cbn [ListFilesInput.Path String.eqb negb].
    unfold bind, ask, ret, Walk_collect. rewrite Hv. eexists. reflexivity.
  - intros Hok. eexists. exact (@ListFiles_unrefused input "" w cur d Hin Hres Hok).
  - intros e He. unfold ListFiles. rewrite Hin. cbn [ListFilesInput.Path String.eqb negb].
    unfold bind, ask, ret, Walk_collect. rewrite He. reflexivity.
Qed.

Lemma ListFiles_lists_whole_tree_witness :
  Unmarshal_ListFilesInput (Demo.object []) = inl (ListFilesInput.mk "")
  /\ os.resolve (Demo.world "") "." = inl (["home"; "u"], Demo.home)
  /\ exists listing,
       ListFiles (Demo.object []) (Demo.world "") = (Val (listing, None), Demo.world "")
       /\ exists files, listing = json.Marshal files /\ In "src/main.go" files.
Proof.
  split; [reflexivity|]. split; [reflexivity|].
  destruct (@ListFiles_lists_whole_tree (Demo.object []) (Demo.world "") ["home"; "u"]
              Demo.home eq_refl eq_refl) as (Hlist & _ & Hruns & _).
  destruct (Hruns (fun _ => eq_refl)) as (listing & Hrun).
  exists listing. split; [exact Hrun|].
  destruct (Hlist listing (Demo.world "") Hrun) as (_ & files & Hl & Hin).
  exists files. split; [exact Hl|]. apply Hin.
  exists ["src"; "main.go"], (File "package main"). repeat split; [|discriminate].
  eapply descends_entry; [right; left; reflexivity|].
  eapply descends_entry; [left; reflexivity|]. apply descends_here.
Defined.

(** C9 as it is worded does not hold: the listing of the working directory of
    the scripted world holds [src/main.go], which is not an immediate entry.
    Nor does the tool return a listing whatever the system does: when the
    directory [src] cannot be read, the walk ends with that error and the
    tool returns it. *)
Lemma ListFiles_lists_whole_tree_counterexample :
  ~ (forall (input : RawMessage) (w : World) (cur : list string) (d : node),
       Unmarshal_ListFilesInput input = inl (ListFilesInput.mk "") ->
       os.resolve w "." = inl (cur, d) ->
       ListFiles input w = (Val (json.Marshal (immediate_entries d), None), w))
  /\
  ~ (forall (input : RawMessage) (w : World) (cur : list string) (d : node),
       Unmarshal_ListFilesInput input = inl (ListFilesInput.mk "") ->
       os.resolve w "." = inl (cur, d) ->
       exists listing, ListFiles input w = (Val (listing, None), w)).
Proof.
  split; intros H.
  - pose proof (H (Demo.object []) (Demo.world "") ["home"; "u"] Demo.home eq_refl eq_refl)
      as E.
    vm_compute in E. discriminate E.
  - destruct (H (Demo.object [])
                (Demo.world_where (Demo.refuses (sys_readdir "src") denied) "")
                ["home"; "u"] Demo.home eq_refl eq_refl) as (listing & E).
    vm_compute in E. discriminate E.
Qed.


(** * Further properties of the code *)

(** ** The registry and the dispatcher *)

(** X1: the scan of the registry finds the first descriptor that carries the
    name, whatever follows it, and finds none exactly when no descriptor
    carries the name. *)
Theorem lookupTool_first_match (ts : list ToolDefinition) (name : string) :
  (forall t, lookupTool ts name = Some t ->
     exists pre post, ts = (pre ++ t :: post)%list /\ Name t = name
                      /\ forall u, In u pre -> Name u <> name)
  /\ (lookupTool ts name = None <-> forall u, In u ts -> Name u <> name).
Proof.
  split.
  - induction ts as [|t0 ts IH]; simpl; intros t H; [discriminate|].
    destruct (String.eqb_spec (Name t0) name) as [E|N].
    + injection H as <-. exists [], ts. repeat split; [exact E|]. intros u [].
    + destruct (IH t H) as (pre & post & -> & Hn & Hpre).
      exists (t0 :: pre), post. repeat split; [exact Hn|].
      intros u [<-|Hu]; [exact N|exact (Hpre u Hu)].
  - split; [|apply lookupTool_none].
    induction ts as [|t0 ts IH]; simpl; intros H u Hu; [contradiction|].
    destruct (String.eqb_spec (Name t0) name) as [E|N]; [discriminate|].
    destruct Hu as [<-|Hu]; [exact N|exact (IH H u Hu)].
Qed.

Lemma EditFile_returns (input : RawMessage) (w : World) :
  exists r w', EditFile input w = (Val r, w').
Proof.
  unfold EditFile, createNewFile, bind, sys, ask, ret.
  destruct (Unmarshal_EditFileInput input) as [ei|err]; [|eauto]. cbv zeta.
  destruct (_ || _); [eauto|].
  destruct (os.ReadFile _ w) as [content|err].
  - destruct (_ && _); [eauto|].
    destruct (os.WriteFile _ _ w) as [[e|] w1]; eauto.
  - destruct (_ && _); [|eauto].
    destruct (negb _).
    + destruct (os.MkdirAll _ w) as [[e|] w1]; [eauto|].
      destruct (os.WriteFile _ _ w1) as [[e|] w2]; eauto.
    + destruct (os.WriteFile _ _ w) as [[e|] w2]; eauto.
Qed.

Lemma CommandExecution_returns
    (exec_bash : string -> World -> (string * option error) * node)
    (input : RawMessage) (w : World) :
  exists r w', CommandExecution exec_bash input w = (Val r, w').
Proof.
  unfold CommandExecution.
  destruct (Unmarshal_CommandExecutionInput input) as [ci|err]; [|unfold ret; eauto].
  cbv zeta. destruct (_ =? ""); [unfold ret; eauto|].
  destruct (find _ disallowed); [unfold ret; eauto|].
  destruct (strings.Contains _ "cd "); [unfold ret; eauto|].
  destruct (Nat.ltb 256 _); [unfold ret; eauto|].
  destruct (_ || _); [unfold ret; eauto|].
  unfold bind at 1 2 3. unfold Print at 1 2.
  match goal with
  | |- context [fmt.Scanln "" ?w0] =>
      destruct (Scanln_keeps "" w0) as (c & w1 & -> & _)
  end.
  destruct (negb _); [unfold ret; eauto|].
  unfold bind, CombinedOutput, Print, ret.
  destruct (exec_bash _ w1) as [[o [e|]] t]; eauto.
Qed.

Lemma FetchUrl_returns
    (http_Get : string -> World -> http.Response + error)
    (html_Parse : string -> html.Node + error) (input : RawMessage) (w : World) :
  exists r, FetchUrl http_Get html_Parse input w = (Val r, w).
Proof.
  unfold FetchUrl, extractTextFromHTML, bind, ask, ret.
  destruct (Unmarshal_FetchUrlInput input) as [fi|err]; [|eauto]. cbv zeta.
  destruct (_ =? ""); [eauto|].
  destruct (http_Get _ w) as [resp|err]; [|eauto].
  destruct (negb _); [eauto|].
  destruct (http.Body resp) as [body|err]; [|eauto].
  destruct (html_Parse body); eauto.
Qed.

Lemma wrap_result (id : string) (toolDef : ToolDefinition) (input : RawMessage)
    (w : World) :
  (exists r w', Function toolDef input w = (Val r, w')) ->
  exists content is_error w',
    (r <- Function toolDef input ;;
     match r with
     | (_, Some err) => ret (anthropic.NewToolResultBlock id (Error err) true)
     | (response, None) => ret (anthropic.NewToolResultBlock id response false)
     end) w = (Val (anthropic.OfToolResult id content is_error), w').
Proof.
  intros ([response [err|]] & w' & E); unfold bind; rewrite E; unfold ret; eauto.
Qed.

(** X2: with the registry that [main] builds, [executeTool] returns a tool
    result that carries the id of the request for every name other than
    [read_file] and [list_files], whatever the arguments, the shell and the
    network do: the other three handlers never panic. *)
Theorem executeTool_main_returns
    (exec_bash : string -> World -> (string * option error) * node)
    (http_Get : string -> World -> http.Response + error)
    (html_Parse : string -> html.Node + error)
    (client : anthropic.MessageNewParams -> anthropic.Message + error)
    (id name : string) (input : RawMessage) (w : World) :
  name <> "read_file" -> name <> "list_files" ->
  exists content is_error w',
    executeTool (main_agent exec_bash http_Get html_Parse client) id name input w
    = (Val (anthropic.OfToolResult id content is_error), w').
Proof.
  intros Hr Hl. unfold executeTool, main_agent, NewAgent, main_tools.
  cbn [tools lookupTool Name ReadFileDefinition ListFilesDefinition EditFileDefinition
       CommandExecutionDefinition FetchUrlDefinition].
  destruct (String.eqb_spec "read_file" name) as [E|_]; [congruence|].
  destruct (String.eqb_spec "list_files" name) as [E|_]; [congruence|].
  destruct (String.eqb_spec "edit_file" name) as [_|_].
  { unfold bind at 1. unfold Print. apply wrap_result. apply EditFile_returns. }
  destruct (String.eqb_spec "command_execution" name) as [_|_].
  { unfold bind at 1. unfold Print. apply wrap_result. apply CommandExecution_returns. }
  destruct (String.eqb_spec "fetch_url" name) as [_|_].
  { unfold bind at 1. unfold Print. apply wrap_result.
    destruct (FetchUrl_returns http_Get html_Parse input
                (mkWorld (root w) (cwd w) (stdin w) (stdout w ++ [tool_trace name input])
                         (scanner w) (system w)))
      as (r & E).
    eauto. }
  unfold ret. eauto.
Qed.

Lemma executeTool_main_returns_witness :
  "edit_file" <> "read_file" /\ "edit_file" <> "list_files"
  /\ exists content is_error w',
       executeTool Demo.agent "toolu_02" "edit_file" Demo.cut_short (Demo.world "")
       = (Val (anthropic.OfToolResult "toolu_02" content is_error), w').
Proof.
  assert (H1 : "edit_file" <> "read_file") by discriminate.
  assert (H2 : "edit_file" <> "list_files") by discriminate.
  split; [exact H1|]. split; [exact H2|].
  exact (@executeTool_main_returns Demo.bash Demo.Get Demo.Parse Demo.client "toolu_02"
           "edit_file" Demo.cut_short (Demo.world "") H1 H2).
Defined.

Lemma ReadFile_cases (input : RawMessage) (w : World) :
  match Unmarshal_ReadFileInput input with
  | inl _ => exists r, ReadFile input w = (Val r, w)
  | inr err => ReadFile input w = (Panic err, w)
  end.
Proof.
  unfold ReadFile. destruct (Unmarshal_ReadFileInput input) as [ri|err]; [|reflexivity].
  unfold bind, ask, ret. destruct (os.ReadFile _ w); eauto.
Qed.

Lemma ListFiles_cases (input : RawMessage) (w : World) :
  match Unmarshal_ListFilesInput input with
  | inl _ => exists r, ListFiles input w = (Val r, w)
  | inr err => ListFiles input w = (Panic err, w)
  end.
Proof.
  unfold ListFiles. destruct (Unmarshal_ListFilesInput input) as [li|err]; [|reflexivity].
  cbv zeta. unfold bind, ask, ret. destruct (Walk_collect _ w); eauto.
Qed.

(** X3: [ReadFile] and [ListFiles] panic exactly when their arguments do not
    decode, and then with the error of the decoder; the world is as it was. *)
Theorem ReadFile_ListFiles_panic_iff (input : RawMessage) (w : World) (v : error) :
  ((exists w', ReadFile input w = (Panic v, w'))
   <-> Unmarshal_ReadFileInput input = inr v)
  /\ ((exists w', ListFiles input w = (Panic v, w'))
      <-> Unmarshal_ListFilesInput input = inr v)
  /\ (forall w', ReadFile input w = (Panic v, w') -> w' = w)
  /\ (forall w', ListFiles input w = (Panic v, w') -> w' = w).
Proof.
  pose proof (ReadFile_cases input w) as HR. pose proof (ListFiles_cases input w) as HL.
  assert (R : forall w', ReadFile input w = (Panic v, w') ->
                         Unmarshal_ReadFileInput input = inr v /\ w' = w).
  { intros w' H. destruct (Unmarshal_ReadFileInput input) as [ri|e].
    - destruct HR as [r HR]. congruence.
    - rewrite HR in H. injection H as -> ->. split; reflexivity. }
  assert (L : forall w', ListFiles input w = (Panic v, w') ->
                         Unmarshal_ListFilesInput input = inr v /\ w' = w).
  { intros w' H. destruct (Unmarshal_ListFilesInput input) as [li|e].
    - destruct HL as [r HL]. congruence.
    - rewrite HL in H. injection H as -> ->. split; reflexivity. }
  split; [|split; [|split]].
  - split.
    + intros [w' H]. exact (proj1 (R w' H)).
    + intros E. rewrite E in HR. eauto.
  - split.
    + intros [w' H]. exact (proj1 (L w' H)).
    + intros E. rewrite E in HL. eauto.
  - intros w' H. exact (proj2 (R w' H)).
  - intros w' H. exact (proj2 (L w' H)).
Qed.


(** ** EditFile and the file tree *)




(** X6: when the file cannot be read and the reason is not that it is
    missing, or when it is missing and [old_str] is not empty, [EditFile]
    hands back the error of the read and creates nothing. *)
Theorem EditFile_read_error (input : RawMessage) (p old new : string) (w : World)
    (err : error) :
  Unmarshal_EditFileInput input = inl (EditFileInput.mk p old new) ->
  p <> "" -> old <> new ->
  os.ReadFile p w = inr err ->
  os.IsNotExist err = false \/ old <> "" ->
  EditFile input w = (Val ("", Some err), w).
Proof.
  intros Hin Hp Hdiff Hread Hwhy. unfold EditFile. rewrite Hin. cbv zeta.
  cbn [EditFileInput.Path EditFileInput.OldStr EditFileInput.NewStr].
  apply String.eqb_neq in Hp, Hdiff. rewrite Hp, Hdiff. cbn [orb].
  unfold bind, ask. rewrite Hread.
  destruct Hwhy as [H|H].
  - rewrite H. reflexivity.
  - apply String.eqb_neq in H. rewrite H, andb_false_r. reflexivity.
Qed.

Lemma EditFile_read_error_witness :
  Unmarshal_EditFileInput (Demo.object [("path", "src"); ("old_str", ""); ("new_str", "x")])
  = inl (EditFileInput.mk "src" "" "x")
  /\ os.ReadFile "src" (Demo.world "") = inr (PathError "read" "src" EISDIR)
  /\ EditFile (Demo.object [("path", "src"); ("old_str", ""); ("new_str", "x")])
              (Demo.world "")
     = (Val ("", Some (PathError "read" "src" EISDIR)), Demo.world "").
Proof.
  split; [reflexivity|]. split; [reflexivity|].
  apply (@EditFile_read_error _ "src" "" "x" (Demo.world "") (PathError "read" "src" EISDIR));
    [reflexivity|discriminate|discriminate|reflexivity|left; reflexivity].
Defined.



Lemma Contains_byte_cons (c x : ascii) (s : string) :
  strings.Contains (String c s) (String x "") = false ->
  c <> x /\ strings.Contains s (String x "") = false.
Proof.
  cbn [strings.Contains]. destruct (prefix (String x "") (String c s)) eqn:E; [discriminate|].
  intros H. split; [|exact H]. intros ->.
  assert (T : prefix (String x "") (String x s) = true).
  { apply prefix_app. exists s. reflexivity. }
  congruence.
Qed.

Lemma SplitByte_without (s : string) (x : ascii) :
  strings.Contains s (String x "") = false -> strings.SplitByte s x = [s].
Proof.
  induction s as [|c s IH]; intros H; [reflexivity|].
  apply Contains_byte_cons in H as [Hc Hs]. cbn [strings.SplitByte].
  apply Ascii.eqb_neq in Hc. rewrite Hc, (IH Hs). reflexivity.
Qed.

Lemma plain_name_facts (p : string) :
  plain_name p ->
  (p =? "") = false /\ path.rooted p = false /\ os.elems p = [p]
  /\ os.special p = false /\ path.Dir p = ".".
Proof.
  intros (Hne & Hsl & Hd & Hdd).
  assert (Hs : strings.Contains p (String path.slash "") = false) by exact Hsl.
  repeat split.
  - apply String.eqb_neq. exact Hne.
  - unfold path.rooted. destruct p as [|c p]; [reflexivity|].
    cbn [strings.Contains] in Hsl. destruct (prefix "/" (String c p)); [discriminate|reflexivity].
  - unfold os.elems. apply SplitByte_without. exact Hs.
  - unfold os.special. apply String.eqb_neq in Hne, Hd, Hdd. rewrite Hne, Hd, Hdd. reflexivity.
  - unfold path.Dir. destruct p as [|c p]; [contradiction|].
    cbn [path.dir_part]. rewrite Hsl. reflexivity.
Qed.

Lemma get_put_other (d : list string) (e name : string) :
  forall r v r',
    os.put_node r (d ++ [e]) v = Some r' -> name <> e ->
    os.get_node r' (d ++ [name]) = os.get_node r (d ++ [name]).
Proof.
  induction d as [|n d IH]; intros r v r' H Hne.
  - cbn [app os.put_node] in H. destruct r as [x|entries]; [discriminate|].
    injection H as <-. cbn [app os.get_node].
    rewrite (@lookup_set_other entries e name v Hne). reflexivity.
  - change ((n :: d) ++ [e])%list with (n :: (d ++ [e]))%list in H.
    change ((n :: d) ++ [name])%list with (n :: (d ++ [name]))%list.
    cbn [os.put_node] in H. destruct r as [x|entries]; [discriminate|].
    destruct (d ++ [e])%list as [|e0 rest] eqn:Ed.
    { destruct d; discriminate. }
    destruct (os.lookup entries n) as [child|] eqn:El; [|discriminate].
    destruct (os.put_node child (e0 :: rest) v) as [c|] eqn:Ep; [|discriminate].
    injection H as <-. cbn [os.get_node]. rewrite lookup_set_same, El.
    rewrite <- Ed in Ep, IH. exact (IH _ _ _ Ep Hne).
Qed.

(** X8: for a plain name (no slash, not a dot name) that [os.ReadFile] reports
    as missing, and a [new_str] that is not empty, the creation makes no
    directory: the outcome is that of the one call of [os.WriteFile].  When the
    write succeeds the message names the path, the file is an entry of the
    working directory with [new_str] as its content, and every other entry of
    the working directory is as it was; when the write fails its error comes
    back wrapped. *)
Theorem EditFile_new_plain_file (input : RawMessage) (p new : string) (w : World)
    (err : error) :
  Unmarshal_EditFileInput input = inl (EditFileInput.mk p "" new) ->
  new <> "" -> plain_name p ->
  os.ReadFile p w = inr err -> os.IsNotExist err = true ->
  match os.WriteFile p new w with
  | (None, w') =>
      EditFile input w = (Val ("Successfully created file " ++ p, None), w')
      /\ os.get_node (root w') (cwd w ++ [p]) = Some (File new)
      /\ (forall name, name <> p ->
            os.get_node (root w') (cwd w ++ [name]) = os.get_node (root w) (cwd w ++ [name]))
      /\ os.ReadFile p w' = inl new
  | (Some e, w') =>
      EditFile input w = (Val ("", Some (wrapError "failed to create file: " e)), w')
  end.
Proof.
  intros Hin Hnew Hplain Hread Hmiss.
  destruct (plain_name_facts Hplain) as (Hp & Hroot & Hel & Hsp & Hdir).
  assert (Hrun : EditFile input w
                 = match os.WriteFile p new w with
                   | (None, w') => (Val ("Successfully created file " ++ p, None), w')
                   | (Some e, w') =>
                       (Val ("", Some (wrapError "failed to create file: " e)), w')
                   end).
  { unfold EditFile. rewrite Hin. cbv zeta.
    cbn [EditFileInput.Path EditFileInput.OldStr EditFileInput.NewStr].
    rewrite Hp. assert (Hn : ("" =? new) = false).
    { apply String.eqb_neq. intros E. apply Hnew. symmetry. exact E. }
    rewrite Hn. cbn [orb]. unfold bind at 1. unfold ask. rewrite Hread, Hmiss.
    cbn [String.eqb andb].
    unfold createNewFile. rewrite Hdir. cbn [String.eqb Ascii.eqb Bool.eqb negb].
    change (negb ("." =? ".")) with false. cbv iota.
    unfold bind, sys, ret. destruct (os.WriteFile p new w) as [[e|] w']; reflexivity. }
  rewrite Hrun. destruct (os.WriteFile p new w) as [[e|] w'] eqn:Hw; [reflexivity|].
  pose proof (proj2 (ReadFile_not_refused p w) _ Hread Hmiss) as Hopen.
  split; [reflexivity|].
  pose proof (@WriteFile_ReadFile _ _ _ _ Hw Hopen) as Hback.
  apply WriteFile_inv in Hw
    as (d & e & r' & _ & Hn & _ & He & _ & _ & _ & Hput & ->).
  rewrite Hel in Hn, He. cbn [removelast os.namei last] in Hn, He.
  injection Hn as <-. subst e.
  assert (Hstart : os.start w p = cwd w) by (unfold os.start; rewrite Hroot; reflexivity).
  rewrite Hstart in Hput. cbn [root os.with_root]. split; [|split].
  - exact (@get_put_same _ _ _ _ Hput).
  - intros name Hname. exact (@get_put_other _ _ _ _ _ _ Hput Hname).
  - exact Hback.
Qed.

Lemma EditFile_new_plain_file_witness :
  Unmarshal_EditFileInput
    (Demo.object [("path", "todo.md"); ("old_str", ""); ("new_str", "write tests")])
  = inl (EditFileInput.mk "todo.md" "" "write tests")
  /\ plain_name "todo.md"
  /\ os.ReadFile "todo.md" (Demo.world "") = inr (PathError "open" "todo.md" ENOENT)
  /\ exists w',
       os.WriteFile "todo.md" "write tests" (Demo.world "") = (None, w')
       /\ EditFile (Demo.object [("path", "todo.md"); ("old_str", "");
                                 ("new_str", "write tests")]) (Demo.world "")
          = (Val ("Successfully created file todo.md", None), w')
       /\ os.get_node (root w') ["home"; "u"; "todo.md"] = Some (File "write tests")
       /\ os.get_node (root w') ["home"; "u"; "go.mod"] = Some (File "module agent").
Proof.
  assert (P : plain_name "todo.md").
  { repeat split; try discriminate. }
  split; [reflexivity|]. split; [exact P|]. split; [reflexivity|].
  pose proof (@EditFile_new_plain_file
                (Demo.object [("path", "todo.md"); ("old_str", ""); ("new_str", "write tests")])
                "todo.md" "write tests" (Demo.world "")
                (PathError "open" "todo.md" ENOENT) eq_refl) as H.
  specialize (H ltac:(discriminate) P eq_refl eq_refl).
  destruct (os.WriteFile "todo.md" "write tests" (Demo.world "")) as [[e|] w'] eqn:Hw.
  - vm_compute in Hw. discriminate Hw.
  - destruct H as (Hrun & Hfile & Hrest & _).
    exists w'. split; [reflexivity|]. split; [exact Hrun|]. split; [exact Hfile|].
    exact (eq_trans (Hrest "go.mod" ltac:(discriminate)) eq_refl).
Defined.





(** ** ListFiles on any path *)

(** X10: what [ListFiles] answers at the edges.  When the path cannot be
    examined the tool returns the error of [os.Lstat] and does not panic.  A
    path that leads to a regular file gives the text [null].  A path that
    leads to an empty directory gives [null] when the directory can be read,
    and the error of the read when it cannot.  An empty path is the same as
    the path of one dot. *)
Theorem ListFiles_edges (input : RawMessage) (p : string) (w : World) :
  Unmarshal_ListFilesInput input = inl (ListFilesInput.mk p) ->
  let dir := if negb (p =? "") then p else "." in
  (forall e, os.Lstat dir w = inr e -> ListFiles input w = (Val ("", Some e), w))
  /\ (forall data, os.Lstat dir w = inl (File data) ->
                   ListFiles input w = (Val ("null", None), w))
  /\ (os.Lstat dir w = inl (Dir []) ->
      ListFiles input w
      = match os.refused w (sys_readdir dir) with
        | None => (Val ("null", None), w)
        | Some e => (Val ("", Some (PathError "open" dir e)), w)
        end)
  /\ (forall input', p = "" -> Unmarshal_ListFilesInput input' = inl (ListFilesInput.mk ".") ->
                     ListFiles input' w = ListFiles input w).
Proof.
  intros Hin dir. unfold ListFiles. rewrite Hin. cbn [ListFilesInput.Path]. fold dir.
  unfold bind, ask, ret, Walk_collect, filepath.Walk. repeat split.
  - intros e ->. reflexivity.
  - intros data ->. reflexivity.
  - intros ->. rewrite walk_dir. destruct (os.refused w (sys_readdir dir)); reflexivity.
  - intros input' -> ->. reflexivity.
Qed.

Lemma ListFiles_edges_witness :
  Unmarshal_ListFilesInput (Demo.object [("path", "go.mod")]) = inl (ListFilesInput.mk "go.mod")
  /\ ListFiles (Demo.object [("path", "go.mod")]) (Demo.world "")
     = (Val ("null", None), Demo.world "")
  /\ Unmarshal_ListFilesInput (Demo.object [("path", "vendor")]) = inl (ListFilesInput.mk "vendor")
  /\ ListFiles (Demo.object [("path", "vendor")]) (Demo.world "")
     = (Val ("", Some (PathError "lstat" "vendor" ENOENT)), Demo.world "").
Proof.
  split; [reflexivity|]. split; [|split; [reflexivity|]].
  - exact (proj1 (proj2 (@ListFiles_edges (Demo.object [("path", "go.mod")]) "go.mod"
                           (Demo.world "") eq_refl))
                 "module agent" eq_refl).
  - exact (proj1 (@ListFiles_edges (Demo.object [("path", "vendor")]) "vendor"
                    (Demo.world "") eq_refl) (PathError "lstat" "vendor" ENOENT) eq_refl).
Defined.

(** X11: for any path, a listing that [ListFiles] returns holds exactly the
    nodes below the node the path leads to, at every depth, each by its path
    relative to it (a directory with a slash at the end); the immediate
    entries are among them; the world is as it was. *)
Theorem ListFiles_lists_below (input : RawMessage) (p listing : string) (w w' : World) :
  Unmarshal_ListFilesInput input = inl (ListFilesInput.mk p) ->
  ListFiles input w = (Val (listing, None), w') ->
  w' = w
  /\ exists cur d files,
       os.resolve w (if negb (p =? "") then p else ".") = inl (cur, d)
       /\ listing = json.Marshal files
       /\ (forall x, In x files
                     <-> exists names n, descends d names n
                                         /\ filepath.Rel_visit names <> "."
                                         /\ x = listed names n)
       /\ (forall entries name child,
             d = Dir entries -> In (name, child) entries -> name <> "." ->
             In (listed [name] child) files).
Proof.
  intros Hin Hrun.
  destruct (@ListFiles_listing input p listing w w' Hin Hrun) as (-> & cur & d & Hres & ->).
  split; [reflexivity|]. exists cur, d, (collect (filepath.visits [] d) []).
  split; [exact Hres|]. split; [reflexivity|]. split.
  - intros x. apply collect_visits.
  - intros entries name child -> Hc Hn. apply collect_visits. exists [name], child.
    repeat split; [|exact Hn].
    eapply descends_entry; [exact Hc|apply descends_here].
Qed.

Lemma ListFiles_lists_below_witness :
  Unmarshal_ListFilesInput (Demo.object [("path", "src")]) = inl (ListFilesInput.mk "src")
  /\ ListFiles (Demo.object [("path", "src")]) (Demo.world "")
     = (Val ("[" ++ dquote ++ "main.go" ++ dquote ++ "]", None), Demo.world "")
  /\ exists cur files,
       os.resolve (Demo.world "") "src" = inl (cur, Dir [("main.go", File "package main")])
       /\ "[" ++ dquote ++ "main.go" ++ dquote ++ "]" = json.Marshal files
       /\ In "main.go" files.
Proof.
  split; [reflexivity|].
  assert (Hrun : ListFiles (Demo.object [("path", "src")]) (Demo.world "")
                 = (Val ("[" ++ dquote ++ "main.go" ++ dquote ++ "]", None), Demo.world ""))
    by reflexivity.
  split; [exact Hrun|].
  destruct (@ListFiles_lists_below (Demo.object [("path", "src")]) "src" _ (Demo.world "")
              (Demo.world "") eq_refl Hrun)
    as (_ & cur & d & files & Hres & Hl & _ & Himm).
  assert (Hd : d = Dir [("main.go", File "package main")]).
  { vm_compute in Hres. injection Hres as _ <-. reflexivity. }
  exists cur, files. split; [rewrite <- Hd; exact Hres|]. split; [exact Hl|].
  apply (Himm [("main.go", File "package main")] "main.go" (File "package main") Hd).
  - left. reflexivity.
  - discriminate.
Defined.

(** ** The confirmation of a command *)

Lemma CommandExecution_asks
    (exec_bash : string -> World -> (string * option error) * node)
    (input : RawMessage) (command : string) (w : World) :
  Unmarshal_CommandExecutionInput input = inl (CommandExecutionInput.mk command) ->
  passes_guardrail command ->
  CommandExecution exec_bash input w
  = (confirmation <- fmt.Scanln "" ;;
     if negb (strings.ToLower confirmation =? "yes") then
       ret ("", Some (errorString "command execution cancelled by user"))
     else
       r <- CombinedOutput exec_bash command ;;
       let '(output, err) := r in
       Print (ESC ++ "[92mCommand output:" ++ ESC ++ "[0m " ++ output ++ LF) ;;;
       match err with
       | Some e =>
           ret ("", Some (errorString ("command execution failed: " ++ Error e
                                       ++ LF ++ "Output: " ++ output)))
       | None => ret (output, None)
       end) (asked command w).
Proof.
  intros Hin (Hne & Hdeny & Hcd & Hlen & Hsl & Hdd).
  unfold CommandExecution. rewrite Hin. cbv zeta. cbn [CommandExecutionInput.Command].
  apply String.eqb_neq in Hne. rewrite Hne.
  rewrite (find_all_false _ _ Hdeny), Hcd.
  apply Nat.ltb_ge in Hlen. rewrite Hlen, Hsl, Hdd. cbn [orb].
  unfold bind at 1 2. unfold Print at 1 2. cbn [stdout root cwd stdin scanner system].
  rewrite <- app_assoc. reflexivity.
Qed.

(** An ASCII byte is a rune of its own: its code, the same white space, the
    same byte when written back. *)
Lemma ascii_rune (c : ascii) :
  Nat.ltb (nat_of_ascii c) 128 = true ->
  (utf8.code c <? 128)%N = true
  /\ fmt.isSpace (utf8.code c) = strings.isSpace c
  /\ utf8.EncodeRune (utf8.code c) = String c ""
  /\ (strings.isSpace c = false -> (utf8.code c =? 10)%N = false).
Proof.
  destruct c as [[] [] [] [] [] [] [] []]; intros H; try discriminate H;
    repeat split; try reflexivity; intros E; discriminate E.
Qed.

Lemma ReadRune_ascii (c : ascii) (s : string) :
  Nat.ltb (nat_of_ascii c) 128 = true ->
  fmt.ReadRune (fmt.mkReadRune (String c s) "" None)
  = (Some (utf8.code c), fmt.mkReadRune s "" None).
Proof.
  intros H. destruct (@ascii_rune c H) as (Hc & _).
  unfold fmt.ReadRune, fmt.readByte. cbn [fmt.peekRune fmt.pendBuf fmt.reader].
  rewrite Hc. reflexivity.
Qed.

Lemma token_word (word : string) :
  forall fuel buf rest,
    ascii_word word = true -> String.length word < fuel ->
    fmt.token fuel (fmt.mkReadRune (word ++ LF ++ rest) "" None) buf
    = (buf ++ word, fmt.mkReadRune rest "" (Some 10%N)).
Proof.
  induction word as [|c word IH]; intros fuel buf rest H Hf.
  - destruct fuel as [|fuel]; [inversion Hf|]. rewrite append_nil_r. reflexivity.
  - destruct fuel as [|fuel]; [inversion Hf|].
    cbn [ascii_word] in H. apply andb_prop in H as [H Hw]. apply andb_prop in H as [Hc Hs].
    apply negb_true_iff in Hs. destruct (@ascii_rune c Hc) as (_ & Hsp & Henc & _).
    change (String c word ++ LF ++ rest) with (String c (word ++ LF ++ rest)).
    cbn [fmt.token]. rewrite (@ReadRune_ascii c _ Hc), Hsp, Hs, Henc.
    cbn [String.length] in Hf. rewrite (IH fuel _ rest Hw) by lia.
    rewrite append_assoc. reflexivity.
Qed.

(** One line of one ASCII word (or none) on the input: [Scanln] gives the
    word and takes the whole line. *)
Lemma Scanln_word (word rest : string) (w : World) :
  ascii_word word = true -> stdin w = word ++ LF ++ rest ->
  fmt.Scanln "" w
  = (Val word, mkWorld (root w) (cwd w) rest (stdout w) (scanner w) (system w)).
Proof.
  intros Hw Hin. unfold fmt.Scanln. rewrite Hin.
  assert (Hf : String.length word + 1 < String.length (word ++ LF ++ rest) + 2).
  { rewrite !length_append. cbn [String.length LF]. lia. }
  remember (String.length (word ++ LF ++ rest) + 2) as fuel eqn:Ef. clear Ef.
  destruct fuel as [|fuel]; [inversion Hf|].
  destruct word as [|c word].
  - reflexivity.
  - cbn [ascii_word] in Hw. apply andb_prop in Hw as [H Hw']. apply andb_prop in H as [Hc Hs].
    apply negb_true_iff in Hs. destruct (@ascii_rune c Hc) as (_ & Hsp & Henc & Hnl).
    change (String c word ++ LF ++ rest) with (String c (word ++ LF ++ rest)).
    cbn [fmt.SkipSpace]. rewrite (@ReadRune_ascii c _ Hc), (Hnl Hs), Hsp, Hs.
    unfold fmt.UnreadRune at 1. cbn [fmt.reader fmt.pendBuf].
    unfold fmt.ReadRune at 1. cbn [fmt.peekRune fmt.reader fmt.pendBuf].
    unfold fmt.UnreadRune at 1. cbn [fmt.reader fmt.pendBuf].
    unfold fmt.ReadRune at 1. cbn [fmt.peekRune fmt.reader fmt.pendBuf].
    rewrite (Hnl Hs), Hsp, Hs.
    unfold fmt.UnreadRune at 1. cbn [fmt.reader fmt.pendBuf].
    cbn [fmt.token]. unfold fmt.ReadRune at 1. cbn [fmt.peekRune fmt.reader fmt.pendBuf].
    rewrite Hsp, Hs, Henc. cbn [String.length] in Hf.
    rewrite (@token_word word fuel _ rest Hw') by lia.
    cbn [fmt.to_newline]. unfold fmt.ReadRune. cbn [fmt.peekRune fmt.reader fmt.pendBuf].
    reflexivity.
Qed.

(** X12: for a command that passes the checks, what the operator's line does.
    With no input left, the command is cancelled.  With a line of one word of
    ASCII bytes, or an empty line, the whole line is taken off the input and
    nothing more; the command is cancelled unless the word is [yes] in some
    letter case, and then the file tree is untouched and only the banner and
    the question were printed. *)
Theorem CommandExecution_operator_line
    (exec_bash : string -> World -> (string * option error) * node)
    (input : RawMessage) (command : string) (w : World) :
  Unmarshal_CommandExecutionInput input = inl (CommandExecutionInput.mk command) ->
  passes_guardrail command ->
  (stdin w = "" ->
   CommandExecution exec_bash input w
   = (Val ("", Some (errorString "command execution cancelled by user")), asked command w))
  /\ (forall word rest,
        ascii_word word = true -> stdin w = word ++ LF ++ rest ->
        strings.ToLower word <> "yes" ->
        CommandExecution exec_bash input w
        = (Val ("", Some (errorString "command execution cancelled by user")),
           mkWorld (root w) (cwd w) rest
                   (stdout w ++ [confirm_banner command; confirm_prompt])
                   (scanner w) (system w)))
  /\ (forall word rest,
        ascii_word word = true -> stdin w = word ++ LF ++ rest ->
        strings.ToLower word = "yes" ->
        exists r w', CommandExecution exec_bash input w = (Val r, w')
                     /\ stdin w' = rest
                     /\ root w' = snd (exec_bash command
                                         (mkWorld (root w) (cwd w) rest
                                            (stdout w ++ [confirm_banner command;
                                                          confirm_prompt])
                                            (scanner w) (system w)))).
Proof.
  intros Hin Hpass. rewrite (@CommandExecution_asks exec_bash input command w Hin Hpass).
  repeat split.
  - intros He. unfold bind, fmt.Scanln, asked. cbn [stdin]. rewrite He. reflexivity.
  - intros word rest Hw Hs Hno. unfold bind.
    rewrite (@Scanln_word word rest (asked command w) Hw Hs).
    apply String.eqb_neq in Hno. rewrite Hno. reflexivity.
  - intros word rest Hw Hs Hyes. unfold bind at 1.
    rewrite (@Scanln_word word rest (asked command w) Hw Hs), Hyes.
    change (negb ("yes" =? "yes")) with false. cbv iota.
    unfold bind, CombinedOutput, Print, ret. cbn [asked root cwd stdout scanner system].
    destruct (exec_bash command _) as [[o [e|]] t]; eexists _, _; repeat split.
Qed.

Lemma CommandExecution_operator_line_witness :
  Unmarshal_CommandExecutionInput (Demo.object [("command", "echo hello")])
    = inl (CommandExecutionInput.mk "echo hello")
  /\ passes_guardrail "echo hello"
  /\ CommandExecution Demo.bash (Demo.object [("command", "echo hello")]) (Demo.world "")
     = (Val ("", Some (errorString "command execution cancelled by user")),
        asked "echo hello" (Demo.world ""))
  /\ CommandExecution Demo.bash (Demo.object [("command", "echo hello")])
       (Demo.world ("nope" ++ LF ++ "next line"))
     = (Val ("", Some (errorString "command execution cancelled by user")),
        mkWorld (root (Demo.world "")) ["home"; "u"] "next line"
                [confirm_banner "echo hello"; confirm_prompt]
                bufio.NewScanner Demo.terminal).
Proof.
  split; [reflexivity|]. split; [exact passes_echo_hello|].
  pose proof (@CommandExecution_operator_line Demo.bash
                (Demo.object [("command", "echo hello")]) "echo hello") as H.
  split.
  - exact (proj1 (H (Demo.world "") eq_refl passes_echo_hello) eq_refl).
  - refine (proj1 (proj2 (H (Demo.world ("nope" ++ LF ++ "next line")) eq_refl
                            passes_echo_hello)) "nope" "next line" eq_refl eq_refl _).
    discriminate.
Defined.

(** ** The loop of Run *)

Lemma step_appends (a : Agent) (s s' : RunState) :
  step a s = Some s' ->
  exists l, conversation s' = (conversation s ++ l)%list /\ List.length l <= 1.
Proof.
  unfold step. destruct (control s) as [| |message|err|v]; try discriminate.
  - destruct (readUserInput s).
    + unfold Print. destruct (getUserMessage a _) as [[userInput ok] w2].
      destruct ok; simpl; intros [= <-]; simpl.
      * eexists. split; [reflexivity|]. simpl. lia.
      * exists []. rewrite app_nil_r. split; [reflexivity|]. simpl. lia.
    + intros [= <-]. exists []. rewrite app_nil_r. split; [reflexivity|]. simpl. lia.
  - destruct (runInference a (conversation s)) as [message|err]; intros [= <-]; simpl.
    + eexists. split; [reflexivity|]. simpl. lia.
    + exists []. rewrite app_nil_r. split; [reflexivity|]. simpl. lia.
  - destruct (dispatch a _ _ _) as [[rs|v] w1].
    + destruct (Nat.eqb (List.length rs) 0); intros [= <-]; simpl.
      * exists []. rewrite app_nil_r. split; [reflexivity|]. simpl. lia.
      * eexists. split; [reflexivity|]. simpl. lia.
    + intros [= <-]. exists []. rewrite app_nil_r. split; [reflexivity|]. simpl. lia.
Qed.

Lemma reaches_run_steps (a : Agent) (n : nat) :
  forall s, reaches a s (run_steps a n s).
Proof.
  assert (T : forall s1 s2 s3, step a s1 = Some s2 -> reaches a s2 s3 -> reaches a s1 s3).
  { intros s1 s2 s3 H12 H23. induction H23 as [s2|s2 s3 s4 _ IH H34].
    - eapply reaches_step; [apply reaches_here|exact H12].
    - eapply reaches_step; [exact (IH H12)|exact H34]. }
  induction n as [|n IH]; intros s; simpl; [apply reaches_here|].
  destruct (step a s) as [s'|] eqn:E; [|apply reaches_here].
  exact (T _ _ _ E (IH s')).
Qed.

(** X13: the conversation only grows at its end.  Whatever the model, the
    operator and the tools do, the conversation of a later state of [Run]
    starts with the whole conversation of an earlier one, and one transition
    adds one turn at most. *)
Theorem Run_append_only (a : Agent) (s s' : RunState) :
  reaches a s s' ->
  (exists l, conversation s' = (conversation s ++ l)%list)
  /\ forall s'', step a s' = Some s'' ->
                 List.length (conversation s'') <= S (List.length (conversation s')).
Proof.
  intros H. split.
  - induction H as [s|s s' s'' _ IH Hstep].
    + exists []. rewrite app_nil_r. reflexivity.
    + destruct IH as [l E]. apply step_appends in Hstep as (l' & -> & _).
      exists (l ++ l')%list. rewrite E, app_assoc. reflexivity.
  - intros s'' Hstep. apply step_appends in Hstep as (l' & -> & Hl).
    rewrite length_app. lia.
Qed.

Lemma Run_append_only_witness :
  reaches Demo.agent Demo.session_at_dispatch Demo.session
  /\ exists l, conversation Demo.session = (conversation Demo.session_at_dispatch ++ l)%list.
Proof.
  assert (H : reaches Demo.agent Demo.session_at_dispatch Demo.session).
  { exact (reaches_run_steps Demo.agent 5 Demo.session_at_dispatch). }
  split; [exact H|]. exact (proj1 (Run_append_only H)).
Defined.

Lemma dispatch_panic_requested (a : Agent) (content : list anthropic.ContentBlockUnion) :
  forall toolResults w v w',
    dispatch a content toolResults w = (Panic v, w') -> requested content <> [].
Proof.
  induction content as [|c rest IH]; intros acc w v w'; simpl; [discriminate|].
  destruct (anthropic.Type_ c =? "text").
  - unfold bind, Print. apply IH.
  - destruct (anthropic.Type_ c =? "tool_use"); [discriminate|]. apply IH.
Qed.

(** X14: how [Run] ends.  When it returns nil the conversation is empty or
    ends with a reply without tool requests; when it returns an error, that is
    the error of the inference call on the conversation it holds, which ends
    with a user message; when a handler panics the conversation ends with the
    reply whose tool request was being served, and holds no result for it. *)
Theorem Run_ends (a : Agent) (w0 : World) (s : RunState) :
  reachable a w0 s ->
  (control s = Returned None ->
   conversation s = []
   \/ last_is (fun m => isUser m = false /\ tool_use_ids m = []) (conversation s))
  /\ (forall err, control s = Returned (Some err) ->
        runInference a (conversation s) = inr err
        /\ last_is (fun m => isUser m = true) (conversation s))
  /\ (forall v, control s = Panicked v ->
        last_is (fun m => isUser m = false /\ tool_use_ids m <> []) (conversation s)).
Proof.
  intros H. destruct H as [|s0 s H0 Hstep].
  - repeat split; intros; discriminate.
  - apply reachable_Inv in H0 as [_ Hctl]. unfold at_control in Hctl.
    unfold step in Hstep. destruct (control s0) as [| |message|err0|v0]; try discriminate.
    + destruct (readUserInput s0).
      * unfold Print in Hstep. destruct (getUserMessage a _) as [[userInput ok] w2].
        destruct ok; simpl in Hstep; injection Hstep as <-; simpl;
          repeat split; intros; try discriminate. exact Hctl.
      * injection Hstep as <-. simpl. repeat split; intros; discriminate.
    + destruct (runInference a (conversation s0)) as [message|err0] eqn:Ei;
        injection Hstep as <-; simpl; repeat split; intros; try discriminate.
      * congruence.
      * exact Hctl.
    + destruct (dispatch a _ _ _) as [[rs|v0] w1] eqn:Ed.
      * destruct (Nat.eqb (List.length rs) 0); injection Hstep as <-; simpl;
          repeat split; intros; discriminate.
      * injection Hstep as <-. simpl. repeat split; intros; try discriminate.
        destruct Hctl as (l & m & E & ->). exists l, (anthropic.ToParam message).
        split; [exact E|]. split; [reflexivity|].
        rewrite tool_use_ids_ToParam. exact (dispatch_panic_requested _ _ _ _ Ed).
Qed.

Lemma Run_ends_witness :
  reachable Demo.agent (Demo.world ("list files in ." ++ LF)) Demo.session
  /\ control Demo.session = Returned None
  /\ (conversation Demo.session = []
      \/ last_is (fun m => isUser m = false /\ tool_use_ids m = []) (conversation Demo.session)).
Proof.
  assert (H : reachable Demo.agent (Demo.world ("list files in ." ++ LF)) Demo.session).
  { apply reachable_run_steps. apply reach_start. }
  split; [exact H|]. split; [reflexivity|].
  exact (proj1 (Run_ends H) eq_refl).
Defined.

(** X15: when the loop is at its head, the flag tells what the conversation
    ends with.  The operator is asked only at the start and after a reply
    without tool requests; after a turn of tool results the loop goes to the
    inference call without printing a prompt or reading a line. *)
Theorem Run_asks_operator_when (a : Agent) (w0 : World) (s : RunState) :
  reachable a w0 s -> control s = AtLoopHead ->
  (readUserInput s = true
   /\ (conversation s = []
       \/ last_is (fun m => isUser m = false /\ tool_use_ids m = []) (conversation s)))
  \/ (readUserInput s = false
      /\ last_is (fun m => is_ToolResultTurn m = true /\ anthropic.ContentParam m <> [])
                 (conversation s)
      /\ step a s = Some (mkRun (conversation s) false AtInference (world s))).
Proof.
  intros H Hc. destruct H as [|s0 s H0 Hstep].
  - left. split; [reflexivity|left; reflexivity].
  - apply reachable_Inv in H0 as [_ Hctl]. unfold at_control in Hctl.
    unfold step in Hstep. destruct (control s0) as [| |message|err0|v0]; try discriminate.
    + destruct (readUserInput s0).
      * unfold Print in Hstep. destruct (getUserMessage a _) as [[userInput ok] w2].
        destruct ok; simpl in Hstep; injection Hstep as <-; discriminate.
      * injection Hstep as <-. discriminate.
    + destruct (runInference a (conversation s0)); injection Hstep as <-; discriminate.
    + destruct Hctl as (l & m & E & ->).
      destruct (dispatch a _ _ _) as [[rs|v0] w1] eqn:Ed; [|injection Hstep as <-; discriminate].
      pose proof (dispatch_ids _ _ _ _ Ed) as Hids. simpl in Hids.
      rewrite <- tool_use_ids_ToParam in Hids.
      destruct rs as [|r rs]; simpl in Hstep; injection Hstep as <-; simpl.
      * left. split; [reflexivity|]. right. exists l, (anthropic.ToParam message).
        split; [exact E|]. split; [reflexivity|].
        unfold tool_result_ids in Hids. simpl in Hids.
        destruct (tool_use_ids (anthropic.ToParam message)); [reflexivity|discriminate].
      * right. split; [reflexivity|]. split; [|reflexivity].
        eexists _, _. split; [reflexivity|]. split; [|discriminate].
        unfold is_ToolResultTurn.
        change (isUser (anthropic.NewUserMessage (r :: rs))) with true.
        change (anthropic.ContentParam (anthropic.NewUserMessage (r :: rs))) with (r :: rs).
        cbn [andb]. exact (results_are_results _ _ Hids).
Qed.

Lemma Run_asks_operator_when_witness :
  let s := run_steps Demo.agent 3 (Run_start (Demo.world ("list files in ." ++ LF))) in
  reachable Demo.agent (Demo.world ("list files in ." ++ LF)) s
  /\ control s = AtLoopHead
  /\ readUserInput s = false
  /\ ((readUserInput s = true
       /\ (conversation s = []
           \/ last_is (fun m => isUser m = false /\ tool_use_ids m = []) (conversation s)))
      \/ (readUserInput s = false
          /\ last_is (fun m => is_ToolResultTurn m = true /\ anthropic.ContentParam m <> [])
                     (conversation s)
          /\ step Demo.agent s = Some (mkRun (conversation s) false AtInference (world s)))).
Proof.
  intros s.
  assert (H : reachable Demo.agent (Demo.world ("list files in ." ++ LF)) s).
  { apply reachable_run_steps. apply reach_start. }
  split; [exact H|]. split; [reflexivity|]. split; [reflexivity|].
  exact (Run_asks_operator_when H eq_refl).
Defined.

Lemma dispatch_text_only (a : Agent) (content : list anthropic.ContentBlockUnion) :
  requested content = [] ->
  forall toolResults w,
    dispatch a content toolResults w
    = (Val toolResults,
       mkWorld (root w) (cwd w) (stdin w) (stdout w ++ map claude_line (texts content))
               (scanner w) (system w)).
Proof.
  induction content as [|c rest IH]; intros Hreq acc w; simpl in *.
  - unfold ret. rewrite app_nil_r. destruct w; reflexivity.
  - destruct (anthropic.Type_ c =? "text").
    + unfold bind, Print. rewrite (IH Hreq). simpl. rewrite <- app_assoc. reflexivity.
    + destruct (anthropic.Type_ c =? "tool_use"); [discriminate|]. exact (IH Hreq acc w).
Qed.

(** X16: a reply without tool requests runs no handler.  Its text blocks are
    printed in the order of the reply, one line each, nothing else in the world
    changes, no turn is appended, and the loop goes back to its head with the
    operator's turn next. *)
Theorem Run_reply_without_tools (a : Agent) (s : RunState) (message : anthropic.Message) :
  control s = AtDispatch message ->
  tool_use_ids (anthropic.ToParam message) = [] ->
  step a s
  = Some (mkRun (conversation s) true AtLoopHead
            (mkWorld (root (world s)) (cwd (world s)) (stdin (world s))
               (stdout (world s) ++ map claude_line (texts (anthropic.Content message)))
               (scanner (world s)) (system (world s)))).
Proof.
  intros Hc Hreq. rewrite tool_use_ids_ToParam in Hreq.
  unfold step. rewrite Hc, (dispatch_text_only a _ Hreq). reflexivity.
Qed.

Lemma Run_reply_without_tools_witness :
  let s := run_steps Demo.agent 5 (Run_start (Demo.world ("list files in ." ++ LF))) in
  let message := {| anthropic.Content := [Demo.text "There are two files and a directory."] |} in
  control s = AtDispatch message
  /\ tool_use_ids (anthropic.ToParam message) = []
  /\ step Demo.agent s
     = Some (mkRun (conversation s) true AtLoopHead
               (mkWorld (root (world s)) (cwd (world s)) (stdin (world s))
                  (stdout (world s) ++ [claude_line "There are two files and a directory."])
                  (scanner (world s)) (system (world s)))).
Proof.
  intros s message. split; [reflexivity|]. split; [reflexivity|].
  exact (@Run_reply_without_tools Demo.agent s message eq_refl eq_refl).
Defined.

(** ** The operator's lines in main *)

Lemma take_drop (n : nat) : forall s, bufio.take n s ++ strings.drop n s = s.
Proof.
  induction n as [|n IH]; intros [|c s]; cbn; try reflexivity. rewrite IH. reflexivity.
Qed.

Lemma length_take (n : nat) :
  forall s, String.length (bufio.take n s) = Nat.min n (String.length s).
Proof.
  induction n as [|n IH]; intros [|c s]; cbn; try reflexivity. rewrite IH. reflexivity.
Qed.

Lemma length_drop (n : nat) :
  forall s, String.length (strings.drop n s) = String.length s - n.
Proof.
  induction n as [|n IH]; intros [|c s]; cbn; try reflexivity. apply IH.
Qed.

Lemma take_app (a b : string) : bufio.take (String.length a) (a ++ b) = a.
Proof.
  induction a as [|c a IH]; cbn; [destruct b; reflexivity|]. rewrite IH. reflexivity.
Qed.

Lemma take_prefix (n : nat) :
  forall a b, n <= String.length a -> bufio.take n (a ++ b) = bufio.take n a.
Proof.
  induction n as [|n IH]; intros [|c a] b H; cbn in *; try reflexivity.
  - lia.
  - rewrite IH by lia. reflexivity.
Qed.

Lemma drop_prefix (n : nat) :
  forall a b, n <= String.length a -> strings.drop n (a ++ b) = strings.drop n a ++ b.
Proof.
  induction n as [|n IH]; intros [|c a] b H; cbn in *; try reflexivity.
  - lia.
  - apply IH. lia.
Qed.

Lemma IndexByte_lt (s : string) (c : ascii) :
  forall i, bufio.IndexByte s c = Some i -> i < String.length s.
Proof.
  induction s as [|x s IH]; intros i; cbn; [discriminate|].
  destruct (Ascii.eqb x c).
  - intros [= <-]. lia.
  - destruct (bufio.IndexByte s c) as [j|]; [|discriminate].
    intros [= <-]. specialize (IH j eq_refl). lia.
Qed.

Lemma IndexByte_app (a b : string) (c : ascii) :
  bufio.IndexByte (a ++ b) c
  = match bufio.IndexByte a c with
    | Some i => Some i
    | None => option_map (fun i => String.length a + i) (bufio.IndexByte b c)
    end.
Proof.
  induction a as [|x a IH]; cbn.
  - destruct (bufio.IndexByte b c); reflexivity.
  - destruct (Ascii.eqb x c); [reflexivity|]. rewrite IH.
    destruct (bufio.IndexByte a c); [reflexivity|].
    destruct (bufio.IndexByte b c); reflexivity.
Qed.

Lemma IndexByte_absent (s : string) (c : ascii) :
  strings.Contains s (String c "") = false -> bufio.IndexByte s c = None.
Proof.
  induction s as [|x s IH]; intros H; [reflexivity|].
  apply Contains_byte_cons in H as [Hx Hs]. cbn.
  apply Ascii.eqb_neq in Hx. rewrite Hx, (IH Hs). reflexivity.
Qed.

(** Where the end of the first line is, seen from a scanner that holds the
    front of the input. *)
Lemma held_line (held input line rest : string) :
  held ++ input = line ++ LF ++ rest ->
  strings.Contains line LF = false ->
  match bufio.IndexByte held newline with
  | Some i => i = String.length line /\ bufio.take i held = line
              /\ strings.drop (i + 1) held ++ input = rest
  | None => String.length held <= String.length line /\ input <> ""
  end.
Proof.
  intros E Hl.
  assert (Hi : bufio.IndexByte (held ++ input) newline = Some (String.length line)).
  { rewrite E, IndexByte_app, (@IndexByte_absent line newline Hl). cbn.
    rewrite Nat.add_0_r. reflexivity. }
  rewrite IndexByte_app in Hi.
  destruct (bufio.IndexByte held newline) as [i|] eqn:Eh.
  - injection Hi as ->. apply IndexByte_lt in Eh. split; [reflexivity|]. split.
    + rewrite <- (@take_prefix (String.length line) held input) by lia.
      rewrite E. apply take_app.
    + rewrite <- (@drop_prefix (String.length line + 1) held input) by lia.
      rewrite E. clear. induction line as [|c line IH]; [reflexivity|exact IH].
  - destruct (bufio.IndexByte input newline) as [j|] eqn:Ej; [|discriminate].
    injection Hi as Hi. split; [lia|]. intros ->. discriminate.
Qed.

Lemma advance_none (s : Scanner.t) : bufio.advance 0 s = s.
Proof.
  destruct s as [bl st held er]. unfold bufio.advance. cbn [Scanner.buf_len Scanner.start Scanner.held Scanner.err].
  rewrite N.add_0_r. destruct held; reflexivity.
Qed.

(** What a scanner that may go on reading looks like once it has made room. *)
Lemma room_to_read (s : Scanner.t) :
  scanning s -> (bufio.len (Scanner.held s) < bufio.MaxScanTokenSize)%N ->
  bufio.too_long (bufio.shift s) = false
  /\ Scanner.err (bufio.resize (bufio.shift s)) = None
  /\ Scanner.held (bufio.resize (bufio.shift s)) = Scanner.held s
  /\ (bufio.end_ (bufio.resize (bufio.shift s))
      < Scanner.buf_len (bufio.resize (bufio.shift s)))%N
  /\ (Scanner.buf_len (bufio.resize (bufio.shift s)) <= bufio.MaxScanTokenSize)%N.
Proof.
  destruct s as [bl st held er]. unfold scanning, bufio.end_, bufio.len, bufio.MaxScanTokenSize.
  cbn [Scanner.buf_len Scanner.start Scanner.held Scanner.err].
  intros (-> & He & Hb) Hh.
  unfold bufio.shift, bufio.too_long, bufio.resize, bufio.end_, bufio.len,
    bufio.MaxScanTokenSize, bufio.startBufSize.
  cbn [Scanner.buf_len Scanner.start Scanner.held Scanner.err].
  destruct (N.ltb_spec 0 st) as [Hs|Hs];
    destruct (N.eqb_spec (st + N.of_nat (String.length held)) bl) as [Hf|Hf];
    destruct (N.ltb_spec (bl / 2) st) as [Hm|Hm];
    cbn [andb orb Scanner.buf_len Scanner.start Scanner.held Scanner.err];
    repeat match goal with
           | |- context [N.eqb ?a ?b] => destruct (N.eqb_spec a b)
           | |- context [N.leb ?a ?b] => destruct (N.leb_spec a b)
           end;
    cbn [andb orb Scanner.buf_len Scanner.start Scanner.held Scanner.err];
    repeat split; try reflexivity; try lia.
Qed.

Lemma Read_some (ready : string -> nat) (s : Scanner.t) (input : string) :
  (bufio.end_ s < Scanner.buf_len s)%N -> input <> "" ->
  exists n, 0 < n
    /\ bufio.Read ready s input
       = (Scanner.mk (Scanner.buf_len s) (Scanner.start s)
                     (Scanner.held s ++ bufio.take n input) (Scanner.err s),
          strings.drop n input)
    /\ (N.of_nat n <= Scanner.buf_len s - bufio.end_ s)%N.
Proof.
  intros Hroom Hne. destruct input as [|c input]; [contradiction|].
  unfold bufio.Read.
  exists (N.to_nat (N.min (Scanner.buf_len s - bufio.end_ s)
                          (N.of_nat (Nat.max 1 (ready (String c input)))))).
  split; [lia|]. split; [reflexivity|lia].
Qed.

Lemma split_held (s : Scanner.t) :
  Scanner.err s = None ->
  bufio.split s
  = match bufio.IndexByte (Scanner.held s) newline with
    | Some i => (i + 1, Some (bufio.dropCR (bufio.take i (Scanner.held s))))
    | None => (0, None)
    end.
Proof.
  intros He. unfold bufio.split, bufio.ScanLines. rewrite He.
  destruct (Scanner.held s) as [|c h]; reflexivity.
Qed.

(** A scanner that holds the front of a line shorter than the limit hands out
    the line, whatever the reads deliver, and loses nothing of what follows. *)
Lemma Scan_loop_line (ready : string -> nat) (line rest : string) :
  strings.Contains line LF = false ->
  (bufio.len line < bufio.MaxScanTokenSize)%N ->
  forall fuel s input,
    scanning s -> Scanner.held s ++ input = line ++ LF ++ rest ->
    String.length input < fuel ->
    exists s' input',
      bufio.Scan_loop ready fuel s input = (Some (bufio.dropCR line), s', input')
      /\ scanning s' /\ Scanner.held s' ++ input' = rest.
Proof.
  intros Hl Hlen. induction fuel as [|fuel IH]; intros s input Hs E Hf; [inversion Hf|].
  pose proof (@held_line _ _ _ _ E Hl) as Hh.
  cbn [bufio.Scan_loop]. rewrite (split_held s (proj1 Hs)).
  destruct (bufio.IndexByte (Scanner.held s) newline) as [i|] eqn:Ei.
  - destruct Hh as (-> & Ht & Hd). rewrite Ht.
    eexists _, _. split; [reflexivity|]. split; [|exact Hd].
    apply IndexByte_lt in Ei. destruct Hs as (He & Hend & Hb).
    unfold scanning, bufio.advance, bufio.end_, bufio.len in *.
    cbn [Scanner.buf_len Scanner.start Scanner.held Scanner.err].
    rewrite length_drop. repeat split; [exact He|lia|exact Hb].
  - destruct Hh as (Hshort & Hne). rewrite advance_none, (proj1 Hs).
    assert (Hroom : (bufio.len (Scanner.held s) < bufio.MaxScanTokenSize)%N).
    { unfold bufio.len in *. lia. }
    destruct (room_to_read Hs Hroom) as (-> & He3 & Hh3 & Hend3 & Hb3).
    destruct (@Read_some ready _ input Hend3 Hne) as (n & Hn & -> & Hfit).
    rewrite Hh3, He3. apply IH.
    + unfold scanning, bufio.end_, bufio.len in *.
      cbn [Scanner.buf_len Scanner.start Scanner.held Scanner.err].
      rewrite Hh3 in Hend3, Hfit. rewrite length_append, length_take.
      repeat split; [|exact Hb3]. lia.
    + cbn [Scanner.held]. rewrite append_assoc, take_drop. exact E.
    + rewrite length_drop. destruct input; [contradiction|]. cbn [String.length] in *. lia.
Qed.

(** A line of the limit's length or more makes [Scan] give up. *)
Lemma Scan_loop_too_long (ready : string -> nat) (long more : string) :
  strings.Contains long LF = false ->
  bufio.len long = bufio.MaxScanTokenSize ->
  forall fuel s input,
    scanning s -> Scanner.held s ++ input = long ++ more ->
    String.length input < fuel ->
    exists s' input',
      bufio.Scan_loop ready fuel s input = (None, s', input')
      /\ Scanner.err s' = Some ErrTooLong.
Proof.
  intros Hl Hlen. induction fuel as [|fuel IH]; intros s input Hs E Hf; [inversion Hf|].
  assert (Hfit : (bufio.len (Scanner.held s) <= bufio.MaxScanTokenSize)%N).
  { destruct Hs as (_ & Hend & Hb). unfold bufio.end_ in Hend. lia. }
  assert (Hpre : Scanner.held s = bufio.take (String.length (Scanner.held s)) long).
  { rewrite <- (@take_prefix _ long more) by (unfold bufio.len in *; lia).
    rewrite <- E. symmetry. apply take_app. }
  assert (Hnone : bufio.IndexByte (Scanner.held s) newline = None).
  { destruct (bufio.IndexByte (Scanner.held s) newline) as [i|] eqn:Ei; [|reflexivity].
    exfalso. pose proof (IndexByte_lt _ _ Ei) as Hi.
    assert (Hlong : bufio.IndexByte long newline = Some i).
    { rewrite <- (take_drop (String.length (Scanner.held s)) long), <- Hpre.
      rewrite IndexByte_app, Ei. reflexivity. }
    rewrite (@IndexByte_absent long newline Hl) in Hlong. discriminate. }
  cbn [bufio.Scan_loop]. rewrite (split_held s (proj1 Hs)), Hnone, advance_none, (proj1 Hs).
  destruct (N.eq_dec (bufio.len (Scanner.held s)) bufio.MaxScanTokenSize) as [Hfull|Hless].
  - assert (Htl : bufio.too_long (bufio.shift s) = true).
    { destruct s as [bl st held er]. destruct Hs as (He & Hend & Hb).
      unfold bufio.shift, bufio.too_long, bufio.end_, bufio.len, bufio.MaxScanTokenSize in *.
      cbn [Scanner.buf_len Scanner.start Scanner.held Scanner.err] in *.
      assert (st = 0%N) by lia. subst st. assert (bl = 65536%N) by lia. subst bl.
      cbn [N.ltb N.compare andb Scanner.buf_len Scanner.start Scanner.held Scanner.err].
      rewrite N.add_0_l, Hfull. reflexivity. }
    rewrite Htl. eexists _, _. split; reflexivity.
  - assert (Hroom : (bufio.len (Scanner.held s) < bufio.MaxScanTokenSize)%N) by lia.
    destruct (room_to_read Hs Hroom) as (-> & He3 & Hh3 & Hend3 & Hb3).
    assert (Hne : input <> "").
    { intros ->. rewrite append_nil_r in E. apply (f_equal String.length) in E.
      rewrite length_append in E. unfold bufio.len in *. lia. }
    destruct (@Read_some ready _ input Hend3 Hne) as (n & Hn & -> & Hfit3).
    rewrite Hh3, He3. apply IH.
    + unfold scanning, bufio.end_, bufio.len in *.
      cbn [Scanner.buf_len Scanner.start Scanner.held Scanner.err].
      rewrite Hh3 in Hend3, Hfit3. rewrite length_append, length_take.
      repeat split; [|exact Hb3]. lia.
    + cbn [Scanner.held]. rewrite append_assoc, take_drop. exact E.
    + rewrite length_drop. destruct input; [contradiction|]. cbn [String.length] in *. lia.
Qed.

(** With nothing held and nothing left, [Scan] notes the end and returns
    false. *)
Lemma Scan_loop_end (ready : string -> nat) (fuel : nat) (s : Scanner.t) :
  scanning s -> Scanner.held s = "" ->
  exists s', bufio.Scan_loop ready (S (S fuel)) s "" = (None, s', "")
             /\ Scanner.err s' = Some io_EOF.
Proof.
  intros Hs Hh.
  assert (Hroom : (bufio.len (Scanner.held s) < bufio.MaxScanTokenSize)%N).
  { rewrite Hh. reflexivity. }
  destruct (room_to_read Hs Hroom) as (Htl & He3 & Hh3 & Hend3 & Hb3).
  cbn [bufio.Scan_loop]. rewrite (split_held s (proj1 Hs)), Hh.
  cbn [bufio.IndexByte]. rewrite advance_none, (proj1 Hs), Htl.
  unfold bufio.Read at 1. unfold bufio.split. cbn [Scanner.err Scanner.held].
  rewrite Hh3, Hh. cbn [String.eqb negb orb bufio.ScanLines andb].
  unfold bufio.advance. cbn [Scanner.err Scanner.held Scanner.buf_len Scanner.start].
  eexists. split; reflexivity.
Qed.

Lemma scanning_new : scanning bufio.NewScanner.
Proof.
  repeat split; intros H; discriminate H.
Qed.

(** X17: how [main] feeds the loop.  The scanner of [main] hands out the
    unread input (what it holds, then what is left on the descriptor) line by
    line, whatever amounts the reads deliver.  When nothing is unread the loop
    ends with nil and the model is not called.  A line of fewer than 65536
    bytes becomes a user message with the text of the line, without its end
    of line and without a carriage return before it; nothing of what follows
    the line is lost, it is held by the scanner or left on the descriptor.  A
    line of 65536 bytes or more makes [Scan] return false, and the loop ends
    with nil as if the input were exhausted. *)
Theorem main_reads_lines
    (exec_bash : string -> World -> (string * option error) * node)
    (http_Get : string -> World -> http.Response + error)
    (html_Parse : string -> html.Node + error)
    (client : anthropic.MessageNewParams -> anthropic.Message + error)
    (conv : list anthropic.MessageParam) (w : World) :
  let a := main_agent exec_bash http_Get html_Parse client in
  let s := mkRun conv true AtLoopHead w in
  scanning (scanner w) ->
  (unread w = "" ->
   exists w', step a s = Some (mkRun conv true (Returned None) w'))
  /\ (forall line rest,
        strings.Contains line LF = false ->
        (bufio.len line < bufio.MaxScanTokenSize)%N ->
        unread w = line ++ LF ++ rest ->
        exists w',
          step a s
          = Some (mkRun (conv ++ [anthropic.NewUserMessage
                                    [anthropic.NewTextBlock (bufio.dropCR line)]])
                    true AtInference w')
          /\ scanning (scanner w') /\ unread w' = rest
          /\ root w' = root w /\ stdout w' = (stdout w ++ [prompt_you])%list)
  /\ (forall long more,
        strings.Contains long LF = false ->
        bufio.len long = bufio.MaxScanTokenSize ->
        unread w = long ++ more ->
        exists w', step a s = Some (mkRun conv true (Returned None) w')).
Proof.
  intros a s Hs.
  assert (Hstep : step a s
    = let '(token, sc, input) :=
        bufio.Scan_loop (ready (system w)) (String.length (stdin w) + 2) (scanner w) (stdin w) in
      let w' := mkWorld (root w) (cwd w) input (stdout w ++ [prompt_you]) sc (system w) in
      match token with
      | Some t => Some (mkRun (conv ++ [anthropic.NewUserMessage [anthropic.NewTextBlock t]])
                              true AtInference w')
      | None => Some (mkRun conv true (Returned None) w')
      end).
  { unfold step, a, main_agent, NewAgent, Print, bufio.ScanText, s.
    cbn [control readUserInput world getUserMessage conversation
         stdin root cwd stdout scanner system].
    destruct (bufio.Scan_loop _ _ _ _) as [[[t|] sc] input]; reflexivity. }
  rewrite Hstep. clear Hstep. unfold unread. split; [|split].
  - intros E.
    assert (Hh : Scanner.held (scanner w) = "").
    { destruct (Scanner.held (scanner w)); [reflexivity|discriminate]. }
    rewrite Hh in E. cbn [append] in E. rewrite E. cbn [String.length Nat.add].
    destruct (@Scan_loop_end (ready (system w)) 0 _ Hs Hh) as (s' & -> & _).
    eexists. reflexivity.
  - intros line rest Hl Hlen E.
    destruct (@Scan_loop_line (ready (system w)) line rest Hl Hlen
                (String.length (stdin w) + 2) _ _ Hs E) as (s' & input' & -> & Hs' & E');
      [lia|].
    eexists. split; [reflexivity|]. cbn [scanner stdin root stdout].
    split; [exact Hs'|]. split; [exact E'|]. split; reflexivity.
  - intros long more Hl Hlen E.
    destruct (@Scan_loop_too_long (ready (system w)) long more Hl Hlen
                (String.length (stdin w) + 2) _ _ Hs E) as (s' & input' & -> & _);
      [lia|].
    eexists. reflexivity.
Qed.

Lemma main_reads_lines_witness :
  scanning (scanner (Demo.world ("list files" ++ LF ++ "yes" ++ LF)))
  /\ (exists w',
        step Demo.agent (mkRun [] true AtLoopHead (Demo.world ("list files" ++ LF ++ "yes" ++ LF)))
        = Some (mkRun [anthropic.NewUserMessage [anthropic.NewTextBlock "list files"]]
                  true AtInference w')
        /\ unread w' = "yes" ++ LF /\ stdin w' = "yes" ++ LF)
  /\ (exists w',
        step Demo.agent (mkRun [] true AtLoopHead (Demo.piped ("list files" ++ LF ++ "yes" ++ LF)))
        = Some (mkRun [anthropic.NewUserMessage [anthropic.NewTextBlock "list files"]]
                  true AtInference w')
        /\ unread w' = "yes" ++ LF /\ stdin w' = "").
Proof.
  split; [exact scanning_new|]. split.
  - destruct (proj1 (proj2 (@main_reads_lines Demo.bash Demo.Get Demo.Parse Demo.client []
                              (Demo.world ("list files" ++ LF ++ "yes" ++ LF)) scanning_new))
                    "list files" ("yes" ++ LF) eq_refl eq_refl eq_refl)
      as (w' & Hstep & _ & Hun & _).
    exists w'. split; [exact Hstep|]. split; [exact Hun|].
    vm_compute in Hstep. injection Hstep as <-. reflexivity.
  - destruct (proj1 (proj2 (@main_reads_lines Demo.bash Demo.Get Demo.Parse Demo.client []
                              (Demo.piped ("list files" ++ LF ++ "yes" ++ LF)) scanning_new))
                    "list files" ("yes" ++ LF) eq_refl eq_refl eq_refl)
      as (w' & Hstep & _ & Hun & _).
    exists w'. split; [exact Hstep|]. split; [exact Hun|].
    vm_compute in Hstep. injection Hstep as <-. reflexivity.
Defined.

(** ** The text of a page *)

Lemma TrimLeft_head (s : string) :
  strings.TrimLeft s = ""
  \/ exists c t, strings.TrimLeft s = String c t /\ strings.isSpace c = false.
Proof.
  induction s as [|c s IH]; [left; reflexivity|].
  cbn [strings.TrimLeft]. destruct (strings.isSpace c) eqn:Ec; [exact IH|].
  right. eauto.
Qed.

Lemma TrimRight_last (s : string) :
  forall rest c, strings.TrimRight s = rest ++ String c "" -> strings.isSpace c = false.
Proof.
  induction s as [|x s IH]; intros rest c; cbn [strings.TrimRight].
  - destruct rest; discriminate.
  - destruct (strings.TrimRight s) as [|d r] eqn:E.
    + destruct (strings.isSpace x) eqn:Ex.
      * destruct rest; discriminate.
      * destruct rest as [|y rest]; [intros [= <-]; exact Ex|].
        intros [= _ H]. destruct rest; discriminate.
    + destruct rest as [|y rest].
      * intros H. discriminate H.
      * intros [= _ H]. exact (IH rest c H).
Qed.

Lemma TrimSpace_ends (s : string) : no_blank_ends (strings.TrimSpace s).
Proof.
  unfold no_blank_ends, strings.TrimSpace. intros c rest [H|H].
  - destruct (TrimLeft_head s) as [E|(x & t & E & Hx)]; rewrite E in H.
    + discriminate.
    + cbn [strings.TrimRight] in H. rewrite Hx in H.
      destruct (strings.TrimRight t); injection H as <- _; exact Hx.
  - exact (TrimRight_last _ _ _ H).
Qed.

(** X18: the text of a page that [FetchUrl] returns, and any text that
    [extractTextFromHTML] returns, neither starts nor ends with a white-space
    byte of ASCII (blank, tab, newline, vertical tab, form feed, carriage
    return), whatever the server sends and the parser builds. *)
Theorem extractTextFromHTML_trimmed
    (http_Get : string -> World -> http.Response + error)
    (html_Parse : string -> html.Node + error) :
  (forall htmlContent text,
     extractTextFromHTML html_Parse htmlContent = inl text -> no_blank_ends text)
  /\ (forall input w w' text,
        FetchUrl http_Get html_Parse input w = (Val (text, None), w') ->
        no_blank_ends text).
Proof.
  assert (H : forall htmlContent text,
            extractTextFromHTML html_Parse htmlContent = inl text -> no_blank_ends text).
  { intros htmlContent text. unfold extractTextFromHTML.
    destruct (html_Parse htmlContent) as [doc|err]; [|discriminate].
    intros [= <-]. apply TrimSpace_ends. }
  split; [exact H|].
  intros input w w' text. unfold FetchUrl, bind, ask, ret.
  destruct (Unmarshal_FetchUrlInput input) as [fi|err]; [|discriminate]. cbv zeta.
  destruct (_ =? ""); [discriminate|].
  destruct (http_Get _ w) as [resp|err]; [|discriminate].
  destruct (negb _); [discriminate|].
  destruct (http.Body resp) as [body|err]; [|discriminate].
  destruct (extractTextFromHTML html_Parse body) as [cleaned|err] eqn:E; [|discriminate].
  intros [= <- _]. exact (H body cleaned E).
Qed.

(** X19: what a node contributes to the text of a page.  The text nodes of a
    [script] or a [style] element contribute nothing; a text node under any
    other element contributes its text without the white space around it,
    followed by one blank, and nothing at all when it is blank; a text node
    without a parent contributes nothing. *)
Theorem visible_text_of_text_nodes (parent : option string) (name data : string)
    (children : list html.Node) :
  (name = "script" \/ name = "style" ->
   Forall text_leaf children ->
   visible_text parent (html.mkNode html.ElementNode name children) = "")
  /\ (name <> "script" -> name <> "style" ->
      visible_text (Some name) (html.mkNode html.TextNode data [])
      = if strings.TrimSpace data =? "" then "" else strings.TrimSpace data ++ " ")
  /\ visible_text None (html.mkNode html.TextNode data []) = "".
Proof.
  repeat split.
  - intros Hname Hleaves. cbn [visible_text].
    assert (H : forall c, In c children -> visible_text (Some name) c = "").
    { rewrite Forall_forall in Hleaves. intros c Hc.
      destruct (Hleaves c Hc) as [d ->]. cbn [visible_text map String.concat].
      destruct Hname as [->| ->]; reflexivity. }
    clear Hleaves. induction children as [|c rest IH]; [reflexivity|].
    cbn [map String.concat]. rewrite (H c (or_introl eq_refl)).
    assert (Hrest : String.concat "" (map (visible_text (Some name)) rest) = "").
    { apply IH. intros c0 Hc0. apply H. right. exact Hc0. }
    destruct (map (visible_text (Some name)) rest) as [|x xs]; [reflexivity|].
    cbn [String.append]. exact Hrest.
  - intros Hs Hy. cbn [visible_text map String.concat].
    apply String.eqb_neq in Hs, Hy. rewrite Hs, Hy. cbn [negb andb].
    destruct (strings.TrimSpace data =? ""); cbn [negb]; [reflexivity|].
    apply append_nil_r.
Qed.

(** X20: [FetchUrl] succeeds exactly when the url is not empty, the request
    is answered with status 200, the body can be read and the parser accepts
    it; the result is then the visible text of the page. *)
Theorem FetchUrl_succeeds_iff
    (http_Get : string -> World -> http.Response + error)
    (html_Parse : string -> html.Node + error)
    (input : RawMessage) (w : World) (text : string) :
  FetchUrl http_Get html_Parse input w = (Val (text, None), w)
  <-> exists url resp body doc,
        Unmarshal_FetchUrlInput input = inl (FetchUrlInput.mk url)
        /\ url <> ""
        /\ http_Get url w = inl resp
        /\ http.StatusCode resp = 200
        /\ http.Body resp = inl body
        /\ html_Parse body = inl doc
        /\ text = strings.TrimSpace (visible_text None doc).
Proof.
  unfold FetchUrl, extractTextFromHTML, bind, ask, ret. split.
  - destruct (Unmarshal_FetchUrlInput input) as [[url]|err]; [|discriminate]. cbv zeta.
    cbn [FetchUrlInput.Url].
    destruct (String.eqb_spec url "") as [|Hne]; [discriminate|].
    destruct (http_Get url w) as [resp|err] eqn:Eg; [|discriminate].
    destruct (Nat.eqb_spec (http.StatusCode resp) http.StatusOK) as [Es|_]; [|discriminate].
    cbn [negb]. destruct (http.Body resp) as [body|err] eqn:Eb; [|discriminate].
    destruct (html_Parse body) as [doc|err] eqn:Ep; [|discriminate].
    intros [= <-]. exists url, resp, body, doc. repeat split; assumption.
  - intros (url & resp & body & doc & -> & Hne & Hg & Hs & Hb & Hp & ->).
    cbv zeta. cbn [FetchUrlInput.Url]. apply String.eqb_neq in Hne.
    rewrite Hne, Hg, Hs, Hb, Hp. reflexivity.
Qed.

(** ** The order of a listing *)

Lemma collect_acc (vs : list (list string * bool)) :
  forall files, collect vs files = (files ++ collect vs [])%list.
Proof.
  induction vs as [|[names b] vs IH]; intros files; simpl.
  - rewrite app_nil_r. reflexivity.
  - destruct (negb (filepath.Rel_visit names =? ".")); [|apply IH].
    destruct b; rewrite IH, (IH [_]), <- app_assoc; reflexivity.
Qed.

Lemma collect_app (v1 v2 : list (list string * bool)) :
  collect (v1 ++ v2) [] = (collect v1 [] ++ collect v2 [])%list.
Proof.
  induction v1 as [|[names b] v1 IH]; simpl; [reflexivity|].
  destruct (negb (filepath.Rel_visit names =? ".")); [|exact IH].
  destruct b; rewrite collect_acc, (collect_acc v1 [_]), IH, <- app_assoc; reflexivity.
Qed.

Lemma concat_split {A} (b : list A) (blocks : list (list A)) :
  In b blocks -> exists before after, concat blocks = (before ++ b ++ after)%list.
Proof.
  intros H. apply in_split in H as (l1 & l2 & ->).
  exists (concat l1), (concat l2). rewrite concat_app. reflexivity.
Qed.

(** In a walk a directory is visited before everything below it. *)
Lemma visits_directory_first (n : node) (names : list string)
    (es : list (string * node)) :
  descends n names (Dir es) ->
  forall pre more m,
    descends (Dir es) more m -> more <> [] ->
    exists v1 v2,
      filepath.visits pre n = (v1 ++ ((pre ++ names)%list, true) :: v2)%list
      /\ In ((pre ++ names ++ more)%list, IsDir m) v2.
Proof.
  intros Hd. remember (Dir es) as target eqn:Et.
  induction Hd as [d|entries name child names n Hin Hd IH]; intros pre more m Hm Hne; subst.
  - exists [], (tl (filepath.visits pre (Dir es))).
    rewrite visits_dir. cbn [tl app]. rewrite app_nil_r. split; [reflexivity|].
    assert (Hv : In ((pre ++ more)%list, IsDir m) (filepath.visits pre (Dir es))).
    { apply visits_descends. exists more, m. repeat split. exact Hm. }
    rewrite visits_dir in Hv. destruct Hv as [E|Hv]; [|exact Hv].
    exfalso. injection E as E _. rewrite <- (app_nil_r pre) in E at 1.
    apply app_inv_head in E. apply Hne. symmetry. exact E.
  - destruct (IH eq_refl (pre ++ [name])%list more m Hm Hne) as (v1 & v2 & Hv & Hin2).
    assert (Hb : In (filepath.visits (pre ++ [name]) child)
                   (map snd (filepath.sort_by_name
                      (map (fun e => (fst e, filepath.visits (pre ++ [fst e]) (snd e)))
                           entries)))).
    { apply in_map_iff. exists (name, filepath.visits (pre ++ [name]) child).
      split; [reflexivity|]. apply In_sort_by_name. apply in_map_iff.
      exists (name, child). split; [reflexivity|exact Hin]. }
    apply concat_split in Hb as (before & after & Hc).
    exists ((pre, true) :: before ++ v1)%list, (v2 ++ after)%list.
    rewrite visits_dir, Hc, Hv. split.
    + rewrite <- !app_assoc. cbn [app]. rewrite <- !app_assoc. reflexivity.
    + apply in_or_app. left. rewrite <- app_assoc in Hin2. exact Hin2.
Qed.

(** X21: in a listing that [ListFiles] returns a directory comes before
    everything it holds, at any depth: the listing is in the order of the
    walk, parents first. *)
Theorem ListFiles_directory_first (input : RawMessage) (p listing : string) (w w' : World) :
  Unmarshal_ListFilesInput input = inl (ListFilesInput.mk p) ->
  ListFiles input w = (Val (listing, None), w') ->
  exists cur d files,
    os.resolve w (if negb (p =? "") then p else ".") = inl (cur, d)
    /\ listing = json.Marshal files
    /\ forall names es more m,
         descends d names (Dir es) -> descends (Dir es) more m -> more <> [] ->
         filepath.Rel_visit names <> "." ->
         filepath.Rel_visit (names ++ more) <> "." ->
         exists l1 l2,
           files = (l1 ++ (filepath.Rel_visit names ++ "/")%string :: l2)%list
           /\ In (listed (names ++ more) m) l2.
Proof.
  intros Hin Hrun.
  destruct (@ListFiles_listing input p listing w w' Hin Hrun) as (_ & cur & d & Hres & ->).
  exists cur, d, (collect (filepath.visits [] d) []).
  split; [exact Hres|]. split; [reflexivity|].
  intros names es more m Hd Hm Hne Hr1 Hr2.
  destruct (visits_directory_first Hd [] Hm Hne) as (v1 & v2 & Hv & Hin2).
  cbn [app] in Hv, Hin2. rewrite Hv.
  exists (collect v1 []), (collect v2 []). split.
  - rewrite collect_app. f_equal. cbn [collect].
    apply String.eqb_neq in Hr1. rewrite Hr1. cbn [negb app].
    apply collect_acc.
  - apply collect_spec. right. exists (names ++ more)%list, (IsDir m).
    repeat split; [exact Hin2|exact Hr2|destruct m; reflexivity].
Qed.

Lemma ListFiles_directory_first_witness :
  Unmarshal_ListFilesInput (Demo.object []) = inl (ListFilesInput.mk "")
  /\ exists listing,
       ListFiles (Demo.object []) (Demo.world "") = (Val (listing, None), Demo.world "")
       /\ exists files,
            listing = json.Marshal files
            /\ exists l1 l2, files = (l1 ++ "src/" :: l2)%list /\ In "src/main.go" l2.
Proof.
  split; [reflexivity|].
  pose proof (@ListFiles_unrefused (Demo.object []) "" (Demo.world "") ["home"; "u"] Demo.home
                eq_refl eq_refl (fun _ => eq_refl)) as Hrun.
  eexists. split; [exact Hrun|].
  destruct (@ListFiles_directory_first (Demo.object []) "" _ (Demo.world "") (Demo.world "")
              eq_refl Hrun) as (cur & d & files & Hres & Hl & Hord).
  assert (Hd : d = Demo.home).
  { vm_compute in Hres. injection Hres as _ <-. reflexivity. }
  subst d. exists files. split; [exact Hl|].
  apply (Hord ["src"] [("main.go", File "package main")] ["main.go"] (File "package main")).
  - eapply descends_entry; [right; left; reflexivity|apply descends_here].
  - eapply descends_entry; [left; reflexivity|apply descends_here].
  - discriminate.
  - discriminate.
  - discriminate.
Defined.

(** ** Arguments that do not decode, and the requests to the model *)

(** X22: with the registry of [main], arguments that do not decode for
    [edit_file], [command_execution] or [fetch_url] come back as an error
    result that carries the id of the request and the text of the decoder's
    error; only the trace line is printed, and the shell and the network are
    not consulted. *)
Theorem executeTool_decode_error
    (exec_bash : string -> World -> (string * option error) * node)
    (http_Get : string -> World -> http.Response + error)
    (html_Parse : string -> html.Node + error)
    (client : anthropic.MessageNewParams -> anthropic.Message + error)
    (id : string) (input : RawMessage) (w : World) (err : error) :
  let a := main_agent exec_bash http_Get html_Parse client in
  let said name := mkWorld (root w) (cwd w) (stdin w) (stdout w ++ [tool_trace name input])
                           (scanner w) (system w) in
  (Unmarshal_EditFileInput input = inr err ->
   executeTool a id "edit_file" input w
   = (Val (anthropic.OfToolResult id (Error err) true), said "edit_file"))
  /\ (Unmarshal_CommandExecutionInput input = inr err ->
      executeTool a id "command_execution" input w
      = (Val (anthropic.OfToolResult id (Error err) true), said "command_execution"))
  /\ (Unmarshal_FetchUrlInput input = inr err ->
      executeTool a id "fetch_url" input w
      = (Val (anthropic.OfToolResult id (Error err) true), said "fetch_url")).
Proof.
  intros a said. repeat split; intros H;
    unfold executeTool, a, main_agent, NewAgent, main_tools;
    cbn [tools lookupTool Name ReadFileDefinition ListFilesDefinition EditFileDefinition
         CommandExecutionDefinition FetchUrlDefinition String.eqb Ascii.eqb Bool.eqb Function];
    unfold bind, Print, EditFile, CommandExecution, FetchUrl; rewrite H; reflexivity.
Qed.

(** X23: what the model is asked.  Whenever [Run] is about to call the model,
    the conversation it sends is the whole conversation, is not empty and ends
    with a user message; the request offers the tools of the registry by name
    in the order of the registry, and allows 1024 tokens. *)
Theorem Run_asks_model (a : Agent) (w0 : World) (s : RunState) :
  reachable a w0 s -> control s = AtInference ->
  exists request,
    runInference a (conversation s) = client a request
    /\ anthropic.Messages request = conversation s
    /\ last_is (fun m => isUser m = true) (anthropic.Messages request)
    /\ map anthropic.ToolName (anthropic.Tools request) = map Name (tools a)
    /\ anthropic.MaxTokens request = 1024%N.
Proof.
  intros H Hc. apply reachable_Inv in H as [_ Hctl]. unfold at_control in Hctl.
  rewrite Hc in Hctl. eexists. split; [reflexivity|]. cbn [anthropic.Messages
    anthropic.Tools anthropic.MaxTokens]. repeat split; [exact Hctl|].
  rewrite map_map. reflexivity.
Qed.

Lemma Run_asks_model_witness :
  let s := run_steps Demo.agent 1 (Run_start (Demo.world ("list files in ." ++ LF))) in
  reachable Demo.agent (Demo.world ("list files in ." ++ LF)) s
  /\ control s = AtInference
  /\ exists request,
       runInference Demo.agent (conversation s) = client Demo.agent request
       /\ anthropic.Messages request = conversation s
       /\ last_is (fun m => isUser m = true) (anthropic.Messages request)
       /\ map anthropic.ToolName (anthropic.Tools request) = map Name (tools Demo.agent)
       /\ anthropic.MaxTokens request = 1024%N.
Proof.
  intros s.
  assert (H : reachable Demo.agent (Demo.world ("list files in ." ++ LF)) s).
  { apply reachable_run_steps. apply reach_start. }
  split; [exact H|]. split; [reflexivity|].
  exact (Run_asks_model H eq_refl).
Defined.
